(** * Risk validation and performance tracking engine of claude-trade

    A shallow embedding of the Go package [ai_assistant]
    (risk_management.go, the performance tracker and the response parser of
    trading_assistant.go), followed by the properties of the engine.

    Conventions of the embedding:
    - [float64] is Rocq's primitive binary64 [float]; every Go operation is
      one IEEE-754 operation rounded on its own (no fused multiply-add, as on
      amd64);
    - [map[string]T] is stdpp's [gmap string T]; where Go ranges over a map,
      the unspecified iteration order is a parameter constrained to be a
      permutation of the entries;
    - calls into the Go standard library whose result is data
      ([fmt.Sprintf] of a float, [fmt.Sscanf], [json.Unmarshal] of a
      response) are parameters of the functions that use them;
    - the ledger file and the clock are explicit state ([world]); an element
      of [[]*RecommendationRecord] is an [option] (the nil pointer that a
      JSON [null] decodes to), a call returns a value, returns an error or
      panics, and the strings of a record are stored as [encoding/json]
      writes and reads them (invalid UTF-8 becomes U+FFFD). *)

From Stdlib Require Import ZArith Floats Lia Bool List String Ascii.
From Stdlib Require QArith.
From stdpp Require Import gmap strings list pretty.

Set Warnings "-inexact-float".
Local Open Scope Z_scope.

(* ===================================================================== *)
(** * Part I: the embedding                                               *)
(* ===================================================================== *)

(** ** float64 helpers of the Go runtime *)

Module Float64.
Local Open Scope float_scope.

(** [math.Abs]: clears the sign bit. *)
Definition math_Abs (x : float) : float := abs x.

(** [math.Sqrt]. *)
Definition math_Sqrt (x : float) : float := sqrt x.

(** [math.Min], with its special cases
    Min(x, -Inf) = Min(-Inf, x) = -Inf, Min(x, NaN) = Min(NaN, x) = NaN,
    Min(-0, ±0) = Min(±0, -0) = -0. *)
Definition math_Min (x y : float) : float :=
  if Leibniz.eqb x neg_infinity || Leibniz.eqb y neg_infinity then neg_infinity
  else if is_nan x || is_nan y then nan
  else if (x =? 0) && (x =? y) then (if get_sign x then x else y)
  else if x <? y then x else y.

(** Go's [x > y] on float64. *)
Definition gtb (x y : float) : bool := y <? x.

(** The conversion [float64(n)] of a non-negative [int] below 2^63. *)
Definition of_int (n : Z) : float := of_uint63 (Uint63.of_Z n).

(** A float64 that [encoding/json] can marshal: NaN and the infinities are
    rejected with an [UnsupportedValueError]. *)
Definition json_encodable (x : float) : bool := is_finite x.
End Float64.

(** ** Dynamic values: Go's [interface{}] as found in a decoded snapshot *)

Inductive iface : Type :=
| IFloat64 (f : float)
| IString (s : string)
| IBool (b : bool)
| INil
| IOther.

(** ** Data model *)

(** trading_assistant.go, [TradeRecommendation]. *)
Record TradeRecommendation : Type := {
  Ticker : string;
  Strategy : string;
  Legs : string;
  Thesis : string;
  POP : float;
  MaxLoss : float;
  MaxProfit : float;
  Score : float
}.

(** risk_management.go, [RiskManager]. *)
Record RiskManager : Type := {
  maxPortfolioRiskPercent : float;
  maxPositionSizePercent : float;
  maxDailyLossPercent : float;
  minProbabilityOfProfit : float;
  maxConcentrationPercent : float;
  requireManualApproval : bool
}.

(** risk_management.go, [TradeValidation]. *)
Record TradeValidation : Type := {
  IsValid : bool;
  Violations : list string;
  RiskScore : float;
  RequiresApproval : bool
}.

Definition NewRiskManager : RiskManager := {|
  maxPortfolioRiskPercent := 2.0;
  maxPositionSizePercent := 0.5;
  maxDailyLossPercent := 1.0;
  minProbabilityOfProfit := 0.65;
  maxConcentrationPercent := 10.0;
  requireManualApproval := true
|}.

(** ** Risk policy engine (risk_management.go) *)

Module Risk.
Import Float64.
Local Open Scope string_scope.
Local Open Scope float_scope.

(** [validation.IsValid = false; validation.Violations = append(...)]. *)
Definition add_violation (v : TradeValidation) (msg : string) : TradeValidation :=
  {| IsValid := false;
     Violations := (Violations v ++ [msg])%list;
     RiskScore := RiskScore v;
     RequiresApproval := RequiresApproval v |}.

Definition set_RiskScore (v : TradeValidation) (s : float) : TradeValidation :=
  {| IsValid := IsValid v;
     Violations := Violations v;
     RiskScore := s;
     RequiresApproval := RequiresApproval v |}.

(** [portfolioValue, ok := portfolio["total_value"].(float64)] followed by
    the default of 100000 when the assertion fails or the value is [<= 0]. *)
Definition portfolio_total_value (portfolio : gmap string iface) : float :=
  match portfolio !! "total_value" with
  | Some (IFloat64 portfolioValue) =>
      if portfolioValue <=? 0 then 100000 else portfolioValue
  | _ => 100000
  end.

(** [getStrategyRiskScore]: the lookup table and its default. *)
Definition strategyRiskMap : gmap string float :=
  <["covered call" := 5.0]>
  (<["cash secured put" := 7.0]>
  (<["credit spread" := 10.0]>
  (<["iron condor" := 12.0]>
  (<["butterfly" := 15.0]>
  (<["naked option" := 20.0]> ∅))))).

Definition getStrategyRiskScore (strategy : string) : float :=
  match strategyRiskMap !! strategy with
  | Some score => score
  | None => 15.0
  end.

(** [calculateRiskScore]. *)
Definition calculateRiskScore (rm : RiskManager) (trade : TradeRecommendation)
    (positionRiskPercent : float) : float :=
  let score := 0.0 in
  let popScore := (1 - POP trade) * 30 in
  let score := score + popScore in
  let sizeScore := (positionRiskPercent / maxPositionSizePercent rm) * 30 in
  let score := score + math_Min sizeScore 30 in
  let rrRatio := MaxProfit trade / math_Abs (MaxLoss trade) in
  let rrScore := (1 / (rrRatio + 1)) * 20 in
  let score := score + rrScore in
  let strategyScore := getStrategyRiskScore (Strategy trade) in
  let score := score + strategyScore in
  math_Min score 100.

Section Formatting.
(** [fmt.Sprintf("%.2f", x)]: the decimal rendering of a float64 with two
    fractional digits. *)
Variable sprintf_f2 : float -> string.

Definition position_risk_msg (positionRiskPercent limit : float) : string :=
  "Position risk " ++ sprintf_f2 positionRiskPercent ++ "% exceeds limit "
    ++ sprintf_f2 limit ++ "%".

Definition pop_msg (pop100 min100 : float) : string :=
  "POP " ++ sprintf_f2 pop100 ++ "% below minimum " ++ sprintf_f2 min100 ++ "%".

Definition risk_reward_msg (riskRewardRatio : float) : string :=
  "Risk/reward ratio " ++ sprintf_f2 riskRewardRatio ++ " below minimum 0.33".

Definition total_risk_msg (totalRiskPercent limit : float) : string :=
  "Total portfolio risk " ++ sprintf_f2 totalRiskPercent ++ "% exceeds limit "
    ++ sprintf_f2 limit ++ "%".

Definition concentration_msg (symbol : string) (concentrationPercent limit : float)
    : string :=
  "Concentration in " ++ symbol ++ " (" ++ sprintf_f2 concentrationPercent
    ++ "%) exceeds limit " ++ sprintf_f2 limit ++ "%".

(** [ValidateTrade]. *)
Definition ValidateTrade (rm : RiskManager) (trade : TradeRecommendation)
    (portfolio : gmap string iface) : TradeValidation :=
  let validation :=
    {| IsValid := true;
       Violations := [];
       RiskScore := 0;
       RequiresApproval := requireManualApproval rm |} in
  let portfolioValue := portfolio_total_value portfolio in
  let positionRisk := math_Abs (MaxLoss trade) in
  let positionRiskPercent := (positionRisk / portfolioValue) * 100 in
  let validation :=
    if gtb positionRiskPercent (maxPositionSizePercent rm)
    then add_violation validation
           (position_risk_msg positionRiskPercent (maxPositionSizePercent rm))
    else validation in
  let validation :=
    if POP trade <? minProbabilityOfProfit rm
    then add_violation validation
           (pop_msg (POP trade * 100) (minProbabilityOfProfit rm * 100))
    else validation in
  let riskRewardRatio := MaxProfit trade / math_Abs (MaxLoss trade) in
  let validation :=
    if riskRewardRatio <? 0.33
    then add_violation validation (risk_reward_msg riskRewardRatio)
    else validation in
  set_RiskScore validation (calculateRiskScore rm trade positionRiskPercent).

(** The first loop of [ValidatePortfolio]: [totalRisk] and [symbolRisk]. *)
Definition accumulate_risk (acc : float * gmap string float)
    (trade : TradeRecommendation) : float * gmap string float :=
  let '(totalRisk, symbolRisk) := acc in
  let risk := math_Abs (MaxLoss trade) in
  (totalRisk + risk,
   <[Ticker trade := default 0 (symbolRisk !! Ticker trade) + risk]> symbolRisk).

(** One iteration of the concentration loop. *)
Definition check_concentration (rm : RiskManager) (portfolioValue : float)
    (validation : TradeValidation) (entry : string * float) : TradeValidation :=
  let '(symbol, risk) := entry in
  let concentrationPercent := (risk / portfolioValue) * 100 in
  if gtb concentrationPercent (maxConcentrationPercent rm)
  then add_violation validation
         (concentration_msg symbol concentrationPercent (maxConcentrationPercent rm))
  else validation.

(** [for symbol, risk := range symbolRisk]: Go visits the entries of a map
    in an unspecified order, [range_order] picks it. *)
Variable range_order : list (string * float) -> list (string * float).

(** [ValidatePortfolio].  The struct literal does not mention
    [RequiresApproval], which therefore holds Go's zero value. *)
Definition ValidatePortfolio (rm : RiskManager) (trades : list TradeRecommendation)
    (portfolio : gmap string iface) : TradeValidation :=
  let validation :=
    {| IsValid := true;
       Violations := [];
       RiskScore := 0;
       RequiresApproval := false |} in
  let portfolioValue := portfolio_total_value portfolio in
  let '(totalRisk, symbolRisk) := fold_left accumulate_risk trades (0, ∅) in
  let totalRiskPercent := (totalRisk / portfolioValue) * 100 in
  let validation :=
    if gtb totalRiskPercent (maxPortfolioRiskPercent rm)
    then add_violation validation
           (total_risk_msg totalRiskPercent (maxPortfolioRiskPercent rm))
    else validation in
  fold_left (check_concentration rm portfolioValue)
            (range_order (map_to_list symbolRisk)) validation.
End Formatting.
End Risk.

(** ** Performance ledger (performance tracker) *)

(** [StrategyMetrics]. *)
Module StrategyMetrics.
Record t : Type := {
  Count : Z;
  WinRate : float;
  AvgReturn : float;
  TotalReturn : float
}.
(** The zero value [&StrategyMetrics{}]. *)
Definition zero : t :=
  {| Count := 0; WinRate := 0%float; AvgReturn := 0%float; TotalReturn := 0%float |}.
End StrategyMetrics.

(** *** What [encoding/json] keeps of a Go string

    [json.Marshal] writes a string byte by byte and replaces every byte that
    does not start a valid UTF-8 encoding by U+FFFD; [json.Unmarshal] does
    the same to the bytes of a string literal. *)

Module UTF8.
(** A byte between two bounds. *)
Definition between (lo hi : nat) (c : ascii) : bool :=
  let n := nat_of_ascii c in ((lo <=? n) && (n <=? hi))%nat.

Definition continuation (c : ascii) : bool := between 128 191 c.

(** The accept ranges of [unicode/utf8] for the second byte, by first
    byte. *)
Definition second_of_three (c0 c1 : ascii) : bool :=
  between 224 224 c0 && between 160 191 c1
  || between 225 236 c0 && continuation c1
  || between 237 237 c0 && between 128 159 c1
  || between 238 239 c0 && continuation c1.

Definition second_of_four (c0 c1 : ascii) : bool :=
  between 240 240 c0 && between 144 191 c1
  || between 241 243 c0 && continuation c1
  || between 244 244 c0 && between 128 143 c1.

(** The size that [utf8.DecodeRune] reports for the encoding that starts
    [bs]; 0 stands for [RuneError] with size 1, an invalid or truncated
    encoding. *)
Definition rune_width (bs : list ascii) : nat :=
  match bs with
  | [] => 0
  | c0 :: bs1 =>
      if between 0 127 c0 then 1
      else match bs1 with
           | [] => 0
           | c1 :: bs2 =>
               if between 194 223 c0 then (if continuation c1 then 2 else 0)
               else match bs2 with
                    | [] => 0
                    | c2 :: bs3 =>
                        if second_of_three c0 c1
                        then (if continuation c2 then 3 else 0)
                        else match bs3 with
                             | [] => 0
                             | c3 :: _ =>
                                 if second_of_four c0 c1 && continuation c2
                                    && continuation c3
                                 then 4 else 0
                             end
                    end
           end
  end.

(** U+FFFD in UTF-8. *)
Definition replacement : list ascii := ["239"; "191"; "189"]%char.

(** The loop of the encoder over the bytes: a byte that starts no valid
    encoding becomes U+FFFD, a valid encoding is copied ([skip] counts the
    bytes of the current encoding that are still to copy). *)
Fixpoint coerce (skip : nat) (bs : list ascii) : list ascii :=
  match bs with
  | [] => []
  | c :: rest =>
      match skip with
      | S k => c :: coerce k rest
      | O =>
          match rune_width bs with
          | O => replacement ++ coerce 0 rest
          | S w => c :: coerce w rest
          end
      end
  end.

(** [utf8.Valid]. *)
Fixpoint valid (skip : nat) (bs : list ascii) : bool :=
  match bs with
  | [] => true
  | c :: rest =>
      match skip with
      | S k => valid k rest
      | O =>
          match rune_width bs with
          | O => false
          | S w => valid w rest
          end
      end
  end.
End UTF8.

(** A string as it comes back from a JSON file. *)
Definition json_string (s : string) : string :=
  string_of_list_ascii (UTF8.coerce 0 (list_ascii_of_string s)).

(** [utf8.ValidString]. *)
Definition utf8_ValidString (s : string) : bool :=
  UTF8.valid 0 (list_ascii_of_string s).

Module Ledger.
Import Float64.
Local Open Scope string_scope.

(** [time.Time], as the wall-clock instant in nanoseconds since the Unix
    epoch (what survives the JSON encoding of a record; the instants are
    taken within the years that [time.Time] can marshal). *)
Definition Time : Type := Z.

(** [RecommendationRecord]; the three pointer fields are options. *)
Record RecommendationRecord : Type := {
  ID : string;
  Timestamp : Time;
  Recommendation : TradeRecommendation;
  Executed : bool;
  ExecutionTime : option Time;
  ExitTime : option Time;
  ActualProfit : option float;
  Status : string
}.

(** [PerformanceMetrics] (the [ByTimeframe] breakdown, which only depends on
    the calendar, is left out of the embedding). *)
Record PerformanceMetrics : Type := {
  TotalRecommendations : Z;
  ExecutedTrades : Z;
  WinningTrades : Z;
  LosingTrades : Z;
  WinRate : float;
  AverageReturn : float;
  TotalReturn : float;
  SharpeRatio : float;
  MaxDrawdown : float;
  ByStrategy : gmap string StrategyMetrics.t
}.

(** *** The store: one JSON file, and the clock *)

(** A candidate and a record as they come back from the file: the numbers,
    booleans and instants as written, the strings through [json_string]. *)
Definition json_trade (rec : TradeRecommendation) : TradeRecommendation :=
  {| Ticker := json_string (Ticker rec);
     Strategy := json_string (Strategy rec);
     Legs := json_string (Legs rec);
     Thesis := json_string (Thesis rec);
     POP := POP rec;
     MaxLoss := MaxLoss rec;
     MaxProfit := MaxProfit rec;
     Score := Score rec |}.

(** The text fields of a candidate are valid UTF-8. *)
Definition utf8_trade (rec : TradeRecommendation) : bool :=
  utf8_ValidString (Ticker rec) && utf8_ValidString (Strategy rec)
  && utf8_ValidString (Legs rec) && utf8_ValidString (Thesis rec).

Definition json_record (r : RecommendationRecord) : RecommendationRecord :=
  {| ID := json_string (ID r);
     Timestamp := Timestamp r;
     Recommendation := json_trade (Recommendation r);
     Executed := Executed r;
     ExecutionTime := ExecutionTime r;
     ExitTime := ExitTime r;
     ActualProfit := ActualProfit r;
     Status := json_string (Status r) |}.

(** An element of [[]*RecommendationRecord] is a record or the nil pointer
    that a JSON [null] decodes to: an [option]. *)
Definition json_entry (e : option RecommendationRecord) : option RecommendationRecord :=
  match e with
  | Some r => Some (json_record r)
  | None => None
  end.

(** What [os.ReadFile] followed by [json.Unmarshal] finds at [currentFile]. *)
Inductive file_state : Type :=
| FileAbsent                          (* os.IsNotExist *)
| FileJSON (entries : list (option RecommendationRecord))     (* a JSON array of records and nulls *)
| FileUnreadable                      (* any other read error *)
| FileMalformed.                      (* rejected by json.Unmarshal *)

Record world : Type := {
  file : file_state;
  ticks : nat            (* number of clock readings taken so far *)
}.

Inductive error : Type :=
| ErrRead
| ErrUnmarshal
| ErrMarshal.

(** The outcome of a call: a value, a returned error, or a run-time panic
    (a nil pointer dereference). *)
Inductive result (A : Type) : Type :=
| Ok (a : A)
| Err (e : error)
| Panic.
Arguments Ok {A} a.
Arguments Err {A} e.
Arguments Panic {A}.

(** Computations over the world that may fail; a failure keeps the world
    reached so far. *)
Definition M (A : Type) : Type := world -> result A * world.

Definition ret {A} (a : A) : M A := fun w => (Ok a, w).

Definition bind {A B} (m : M A) (k : A -> M B) : M B :=
  fun w =>
    match m w with
    | (Ok a, w') => k a w'
    | (Err e, w') => (Err e, w')
    | (Panic, w') => (Panic, w')
    end.

Declare Scope ledger_scope.
Delimit Scope ledger_scope with ledger.
Notation "x <- m ;; k" := (bind m (fun x => k))
  (at level 100, m at next level, right associativity) : ledger_scope.
Local Open Scope ledger_scope.

Definition fail {A} (e : error) : M A := fun w => (Err e, w).

Definition panic {A} : M A := fun w => (Panic, w).

(** [json.MarshalIndent] of a record fails exactly on a float64 that is NaN
    or infinite; a nil pointer is written as [null]. *)
Definition trade_encodable (rec : TradeRecommendation) : bool :=
  json_encodable (POP rec) && json_encodable (MaxLoss rec)
  && json_encodable (MaxProfit rec) && json_encodable (Score rec).

Definition record_encodable (r : RecommendationRecord) : bool :=
  trade_encodable (Recommendation r)
  && match ActualProfit r with
     | Some p => json_encodable p
     | None => true
     end.

Definition entry_encodable (e : option RecommendationRecord) : bool :=
  match e with
  | Some r => record_encodable r
  | None => true
  end.

(** Where [for i, rec := range records { if rec.ID == recordID { ...; break } }]
    stops: at the first entry that is nil, on which [rec.ID] panics, or that
    carries the id. *)
Definition stops_at (recordID : string) (e : option RecommendationRecord) : Prop :=
  match e with
  | Some rec => ID rec = recordID
  | None => True
  end.

#[global] Instance stops_at_dec (recordID : string) (e : option RecommendationRecord)
    : Decision (stops_at recordID e) :=
  match e with
  | Some rec => decide (ID rec = recordID)
  | None => left I
  end.

Definition find_entry (recordID : string) (entries : list (option RecommendationRecord))
    : option (nat * option RecommendationRecord) :=
  list_find (stops_at recordID) entries.

Section Clock.
(** The readings that successive calls of [time.Now()] return. *)
Variable clock : nat -> Time.

Definition time_Now : M Time :=
  fun w => (Ok (clock (ticks w)), {| file := file w; ticks := S (ticks w) |}).

(** [t.Unix()] and [t.Nanosecond()]. *)
Definition Unix (t : Time) : Z := t / 1000000000.
Definition Nanosecond (t : Time) : Z := t mod 1000000000.

(** [generateRecordID]: [fmt.Sprintf("rec_%d_%d", time.Now().Unix(),
    time.Now().Nanosecond())], two readings of the clock. *)
Definition generateRecordID : M string :=
  t1 <- time_Now ;;
  t2 <- time_Now ;;
  ret ("rec_" ++ pretty (Unix t1) ++ "_" ++ pretty (Nanosecond t2)).

(** [loadRecords]: a missing file is an empty ledger; the strings are
    decoded by [json.Unmarshal]. *)
Definition loadRecords : M (list (option RecommendationRecord)) :=
  fun w =>
    match file w with
    | FileAbsent => (Ok [], w)
    | FileJSON entries => (Ok (map json_entry entries), w)
    | FileUnreadable => (Err ErrRead, w)
    | FileMalformed => (Err ErrUnmarshal, w)
    end.

(** [saveRecords]: marshal, then rewrite the whole file ([os.WriteFile] is
    taken to succeed); the strings are encoded by [json.MarshalIndent]. *)
Definition saveRecords (records : list (option RecommendationRecord)) : M unit :=
  fun w =>
    if forallb entry_encodable records
    then (Ok tt, {| file := FileJSON (map json_entry records); ticks := ticks w |})
    else (Err ErrMarshal, w).

(** [RecordRecommendation]. *)
Definition RecordRecommendation (rec : TradeRecommendation) : M RecommendationRecord :=
  id <- generateRecordID ;;
  now <- time_Now ;;
  let record :=
    {| ID := id;
       Timestamp := now;
       Recommendation := rec;
       Executed := false;
       ExecutionTime := None;
       ExitTime := None;
       ActualProfit := None;
       Status := "pending" |} in
  records <- loadRecords ;;
  let records := (records ++ [Some record])%list in
  _ <- saveRecords records ;;
  ret record.

(** The index of the first record with the given id in a list of records
    (the view of a file without nil entries). *)
Definition find_record (recordID : string) (records : list RecommendationRecord)
    : option (nat * RecommendationRecord) :=
  list_find (fun rec => ID rec = recordID) records.

(** [UpdateExecution]. *)
Definition UpdateExecution (recordID : string) (executed : bool) : M unit :=
  records <- loadRecords ;;
  records <-
    match find_entry recordID records with
    | Some (i, Some rec) =>
        if executed then
          now <- time_Now ;;
          ret (<[i := Some {| ID := ID rec;
                              Timestamp := Timestamp rec;
                              Recommendation := Recommendation rec;
                              Executed := executed;
                              ExecutionTime := Some now;
                              ExitTime := ExitTime rec;
                              ActualProfit := ActualProfit rec;
                              Status := "executed" |}]> records)
        else
          ret (<[i := Some {| ID := ID rec;
                              Timestamp := Timestamp rec;
                              Recommendation := Recommendation rec;
                              Executed := executed;
                              ExecutionTime := ExecutionTime rec;
                              ExitTime := ExitTime rec;
                              ActualProfit := ActualProfit rec;
                              Status := Status rec |}]> records)
    | Some (_, None) => panic
    | None => ret records
    end ;;
  saveRecords records.

(** [UpdateTradeResult]. *)
Definition UpdateTradeResult (recordID : string) (profit : float) : M unit :=
  records <- loadRecords ;;
  records <-
    match find_entry recordID records with
    | Some (i, Some rec) =>
        now <- time_Now ;;
        ret (<[i := Some {| ID := ID rec;
                            Timestamp := Timestamp rec;
                            Recommendation := Recommendation rec;
                            Executed := Executed rec;
                            ExecutionTime := ExecutionTime rec;
                            ExitTime := Some now;
                            ActualProfit := Some profit;
                            Status := "closed" |}]> records)
    | Some (_, None) => panic
    | None => ret records
    end ;;
  saveRecords records.

(** [GetRecommendationHistory]: [records[len(records)-limit:]] when
    [0 < limit < len(records)], all the entries otherwise. *)
Definition GetRecommendationHistory (limit : Z) : M (list (option RecommendationRecord)) :=
  records <- loadRecords ;;
  if ((0 <? limit) && (limit <? Z.of_nat (length records)))%Z
  then ret (drop (Z.to_nat (Z.of_nat (length records) - limit)) records)
  else ret records.
End Clock.
End Ledger.

(** ** Aggregated statistics ([GetMetrics] and its numeric helpers) *)

Module Metrics.
Import Float64 Ledger.
Local Open Scope float_scope.

(** [len(xs)] as a Go [int]. *)
Definition len {A} (xs : list A) : Z := Z.of_nat (length xs).

(** [riskFreeRate := 0.05 / 252]: Go evaluates the untyped constant exactly
    (1/5040) and rounds it once; the float64 quotient is the same number
    ([riskFreeRate_exact] below). *)
Definition riskFreeRate : float := 0.05 / 252.

(** [calculateSharpeRatio]. *)

Definition calculateSharpeRatio (returns : list float) : float :=
  if (len returns <? 2)%Z then 0
  else
    let sum := fold_left (fun sum r => sum + r) returns 0.0 in
    let avgReturn := sum / of_int (len returns) in
    let variance :=
      fold_left (fun variance r => variance + (r - avgReturn) * (r - avgReturn))
                returns 0.0 in
    let stdDev := math_Sqrt (variance / of_int (len returns - 1)) in
    if stdDev =? 0 then 0
    else (avgReturn - riskFreeRate) / stdDev * math_Sqrt 252.

(** [calculateMaxDrawdown]: the loop state is
    [(cumulative, peak, maxDrawdown)]. *)
Definition drawdown_step (st : float * float * float) (r : float)
    : float * float * float :=
  let '(cumulative, peak, maxDrawdown) := st in
  let cumulative := cumulative + r in
  let peak := if gtb cumulative peak then cumulative else peak in
  let drawdown := (peak - cumulative) / peak in
  let maxDrawdown := if gtb drawdown maxDrawdown then drawdown else maxDrawdown in
  (cumulative, peak, maxDrawdown).

Definition calculateMaxDrawdown (returns : list float) : float :=
  if (len returns =? 0)%Z then 0
  else
    let '(_, _, maxDrawdown) := fold_left drawdown_step returns (0.0, 0.0, 0.0) in
    maxDrawdown * 100.

(** The state of the main loop of [GetMetrics]: the counters and sums of
    [metrics] that the loop updates, and the slice [returns]. *)
Record tally : Type := {
  t_ExecutedTrades : Z;
  t_WinningTrades : Z;
  t_LosingTrades : Z;
  t_TotalReturn : float;
  t_ByStrategy : gmap string StrategyMetrics.t;
  t_returns : list float
}.

Definition tally_zero : tally :=
  {| t_ExecutedTrades := 0; t_WinningTrades := 0; t_LosingTrades := 0;
     t_TotalReturn := 0; t_ByStrategy := ∅; t_returns := [] |}.

(** [metrics.ByStrategy[strategy].Count++] and
    [metrics.ByStrategy[strategy].TotalReturn += profit], after the entry
    was created when missing. *)
Definition track_strategy (strategy : string) (profit : float)
    (by_strategy : gmap string StrategyMetrics.t) : gmap string StrategyMetrics.t :=
  let by_strategy :=
    match by_strategy !! strategy with
    | Some _ => by_strategy
    | None => <[strategy := StrategyMetrics.zero]> by_strategy
    end in
  alter (fun sm =>
           {| StrategyMetrics.Count := (StrategyMetrics.Count sm + 1)%Z;
              StrategyMetrics.WinRate := StrategyMetrics.WinRate sm;
              StrategyMetrics.AvgReturn := StrategyMetrics.AvgReturn sm;
              StrategyMetrics.TotalReturn := StrategyMetrics.TotalReturn sm + profit |})
        strategy by_strategy.

(** The body of [for _, rec := range records]. *)
Definition count_record (t : tally) (rec : RecommendationRecord) : tally :=
  if Executed rec then
    let executed := (t_ExecutedTrades t + 1)%Z in
    match ActualProfit rec with
    | Some profit =>
        {| t_ExecutedTrades := executed;
           t_WinningTrades :=
             if gtb profit 0 then (t_WinningTrades t + 1)%Z else t_WinningTrades t;
           t_LosingTrades :=
             if gtb profit 0 then t_LosingTrades t
             else if profit <? 0 then (t_LosingTrades t + 1)%Z else t_LosingTrades t;
           t_TotalReturn := t_TotalReturn t + profit;
           t_ByStrategy :=
             track_strategy (Strategy (Recommendation rec)) profit (t_ByStrategy t);
           t_returns := (t_returns t ++ [profit])%list |}
    | None =>
        {| t_ExecutedTrades := executed;
           t_WinningTrades := t_WinningTrades t;
           t_LosingTrades := t_LosingTrades t;
           t_TotalReturn := t_TotalReturn t;
           t_ByStrategy := t_ByStrategy t;
           t_returns := t_returns t |}
    end
  else t.

(** The inner loop of the per-strategy pass: [(wins, total)] over the
    records of one strategy that are executed and carry a profit. *)
Definition strategy_wins (strategy : string) (acc : Z * Z) (rec : RecommendationRecord)
    : Z * Z :=
  let '(wins, total) := acc in
  match ActualProfit rec with
  | Some profit =>
      if String.eqb (Strategy (Recommendation rec)) strategy && Executed rec
      then (if gtb profit 0 then (wins + 1)%Z else wins, (total + 1)%Z)
      else acc
  | None => acc
  end.

(** The body of [for strategy, stratMetrics := range metrics.ByStrategy];
    every entry is updated on its own, so the order of the visit is
    immaterial. *)
Definition finish_strategy (records : list RecommendationRecord) (strategy : string)
    (sm : StrategyMetrics.t) : StrategyMetrics.t :=
  if (0 <? StrategyMetrics.Count sm)%Z then
    let avg := StrategyMetrics.TotalReturn sm / of_int (StrategyMetrics.Count sm) in
    let '(wins, total) := fold_left (strategy_wins strategy) records (0%Z, 0%Z) in
    {| StrategyMetrics.Count := StrategyMetrics.Count sm;
       StrategyMetrics.WinRate :=
         if (0 <? total)%Z then of_int wins / of_int total * 100
         else StrategyMetrics.WinRate sm;
       StrategyMetrics.AvgReturn := avg;
       StrategyMetrics.TotalReturn := StrategyMetrics.TotalReturn sm |}
  else sm.

(** [GetMetrics], from the point where [loadRecordsForPeriod] has returned
    [records] (that loader never reports an error). *)
Definition GetMetrics (records : list RecommendationRecord) : PerformanceMetrics :=
  let t := fold_left count_record records tally_zero in
  let returns := t_returns t in
  {| TotalRecommendations := len records;
     ExecutedTrades := t_ExecutedTrades t;
     WinningTrades := t_WinningTrades t;
     LosingTrades := t_LosingTrades t;
     WinRate :=
       if (0 <? t_ExecutedTrades t)%Z
       then of_int (t_WinningTrades t) / of_int (t_ExecutedTrades t) * 100
       else 0;
     AverageReturn :=
       if (0 <? t_ExecutedTrades t)%Z
       then t_TotalReturn t / of_int (t_ExecutedTrades t)
       else 0;
     TotalReturn := t_TotalReturn t;
     SharpeRatio := if (1 <? len returns)%Z then calculateSharpeRatio returns else 0;
     MaxDrawdown := calculateMaxDrawdown returns;
     ByStrategy := map_imap (fun strategy sm => Some (finish_strategy records strategy sm))
                            (t_ByStrategy t) |}.

(** *** The statistics as the specification words them *)

(** Left-to-right float64 sum. *)
Definition fsum (xs : list float) : float := fold_left add xs 0.

(** The rational number that a finite binary64 value denotes. *)
Definition exact (x : float) : option QArith_base.Q :=
  match Prim2SF x with
  | S754_zero _ => Some (QArith_base.inject_Z 0)
  | S754_finite s m e =>
      Some (QArith_base.Qmult (QArith_base.inject_Z (if s then Zneg m else Zpos m))
                              (QArith_base.Qpower (QArith_base.inject_Z 2) e))
  | _ => None
  end.

Definition exact_all (xs : list float) : option (list QArith_base.Q) := mapM exact xs.

(** Sample mean and sample variance (denominator [n - 1]) of a sequence of
    rationals, in exact arithmetic; the sample standard deviation is the
    square root of the variance, and is 0 exactly when the variance is. *)
Definition Qsum (qs : list QArith_base.Q) : QArith_base.Q :=
  fold_right QArith_base.Qplus (QArith_base.inject_Z 0) qs.

Definition exact_mean (qs : list QArith_base.Q) : QArith_base.Q :=
  QArith_base.Qdiv (Qsum qs) (QArith_base.inject_Z (len qs)).

Definition exact_sample_variance (qs : list QArith_base.Q) : QArith_base.Q :=
  let mean := exact_mean qs in
  QArith_base.Qdiv
    (Qsum (map (fun q => QArith_base.Qmult (QArith_base.Qminus q mean)
                                           (QArith_base.Qminus q mean)) qs))
    (QArith_base.inject_Z (len qs - 1)).

(** "The Sharpe ratio is 0 when the sample standard deviation is 0". *)
Definition zero_deviation_gives_zero : Prop :=
  forall returns qs,
    (2 <= len returns)%Z ->
    exact_all returns = Some qs ->
    QArith_base.Qeq (exact_sample_variance qs) (QArith_base.inject_Z 0) ->
    calculateSharpeRatio returns = 0.

(** Running cumulative sums of a sequence, started from [c]. *)
Fixpoint running_sums (c : float) (xs : list float) : list float :=
  match xs with
  | [] => []
  | r :: xs' => (c + r) :: running_sums (c + r) xs'
  end.

(** Running peak of a sequence, started from [p]. *)
Fixpoint running_peaks (p : float) (cs : list float) : list float :=
  match cs with
  | [] => []
  | c :: cs' =>
      let p' := if gtb c p then c else p in
      p' :: running_peaks p' cs'
  end.

(** Drawdown at one step. *)
Definition drawdown_at (peak cumulative : float) : float :=
  (peak - cumulative) / peak.

(** Largest element of a sequence, none below [m]. *)
Definition fmax_from (m : float) (ds : list float) : float :=
  fold_left (fun m d => if gtb d m then d else m) ds m.

Definition drawdowns (xs : list float) : list float :=
  let cumulative := running_sums 0 xs in
  let peak := running_peaks 0 cumulative in
  zip_with drawdown_at peak cumulative.

Definition max_drawdown_spec (xs : list float) : float :=
  fmax_from 0 (drawdowns xs) * 100.

(** The realized profits that [GetMetrics] feeds to the two helpers. *)
Definition realized (rec : RecommendationRecord) : option float :=
  if Executed rec then ActualProfit rec else None.

Definition realized_profits (records : list RecommendationRecord) : list float :=
  omap realized records.

(** Number of records that satisfy a test. *)
Definition count_where (p : RecommendationRecord -> bool)
    (records : list RecommendationRecord) : Z :=
  len (List.filter p records).

Definition is_closed (rec : RecommendationRecord) : bool :=
  String.eqb (Status rec) "closed".

Definition has_profit (rec : RecommendationRecord) : bool :=
  match ActualProfit rec with Some _ => true | None => false end.

Definition is_win (rec : RecommendationRecord) : bool :=
  match ActualProfit rec with Some profit => gtb profit 0 | None => false end.

Definition is_loss (rec : RecommendationRecord) : bool :=
  match ActualProfit rec with Some profit => profit <? 0 | None => false end.

(** Sum of [actualProfit] over the records that satisfy a test, in the
    order of the records. *)
Definition profit_sum (p : RecommendationRecord -> bool)
    (records : list RecommendationRecord) : float :=
  fsum (omap ActualProfit (List.filter p records)).

(** The data model's reading of the optional profit: present exactly on the
    closed records. *)
Definition profit_iff_closed (records : list RecommendationRecord) : Prop :=
  Forall (fun rec => has_profit rec = is_closed rec) records.

(** The counts worded over all closed records, whether or not a record is
    marked executed. *)
Definition closed_counts (records : list RecommendationRecord) : Prop :=
  WinningTrades (GetMetrics records)
    = count_where (fun rec => is_closed rec && is_win rec) records
  /\ LosingTrades (GetMetrics records)
    = count_where (fun rec => is_closed rec && is_loss rec) records
  /\ TotalReturn (GetMetrics records) = profit_sum is_closed records.
End Metrics.

(** ** Candidate normalizer (trading_assistant.go) *)

Module Normalizer.
Local Open Scope string_scope.

(** *** The functions of package [strings] that the parser calls *)

(** [strings.Index]: byte index of the first occurrence, or -1. *)
Definition strings_Index (s substr : string) : Z :=
  match String.index 0 substr s with
  | Some i => Z.of_nat i
  | None => -1
  end.

(** [strings.LastIndex]: byte index of the last occurrence, or -1. *)
Fixpoint last_index_from (i : nat) (s substr : string) (found : Z) : Z :=
  let found := if String.prefix substr s then Z.of_nat i else found in
  match s with
  | EmptyString => found
  | String _ s' => last_index_from (S i) s' substr found
  end.

Definition strings_LastIndex (s substr : string) : Z :=
  last_index_from 0 s substr (-1).

(** [strings.Contains]. *)
Definition strings_Contains (s substr : string) : bool :=
  (0 <=? strings_Index s substr)%Z.

(** The slice expression [s[lo:hi]]. *)
Definition slice (s : string) (lo hi : Z) : string :=
  String.substring (Z.to_nat lo) (Z.to_nat (hi - lo)) s.

(** [strings.Split] with a one-byte separator (both call sites). *)
Fixpoint split_on (sep : ascii) (s : string) (cur : string) : list string :=
  match s with
  | EmptyString => [cur]
  | String c s' =>
      if Ascii.eqb c sep then cur :: split_on sep s' EmptyString
      else split_on sep s' (cur ++ String c EmptyString)
  end.

Definition strings_Split (s : string) (sep : ascii) : list string :=
  split_on sep s EmptyString.

(** [strings.HasSuffix] and [strings.TrimSuffix]. *)
Definition strings_HasSuffix (s suffix : string) : bool :=
  (String.length suffix <=? String.length s)%nat
  && String.eqb (String.substring (String.length s - String.length suffix)
                                  (String.length suffix) s) suffix.

Definition strings_TrimSuffix (s suffix : string) : string :=
  if strings_HasSuffix s suffix
  then String.substring 0 (String.length s - String.length suffix) s
  else s.

(** [strings.TrimSpace] removes the leading and trailing runes that
    [unicode.IsSpace] accepts.  On the UTF-8 bytes these are the six ASCII
    spaces, U+0085 and U+00A0 (two bytes), and U+1680, U+2000..U+200A,
    U+2028, U+2029, U+202F, U+205F and U+3000 (three bytes). *)
Definition is_space1 (c : ascii) : bool :=
  let n := nat_of_ascii c in
  ((9 <=? n) && (n <=? 13) || (n =? 32))%nat.

Definition is_space2 (c1 c2 : ascii) : bool :=
  let n1 := nat_of_ascii c1 in
  let n2 := nat_of_ascii c2 in
  ((n1 =? 194) && ((n2 =? 133) || (n2 =? 160)))%nat.

Definition is_space3 (c1 c2 c3 : ascii) : bool :=
  let n1 := nat_of_ascii c1 in
  let n2 := nat_of_ascii c2 in
  let n3 := nat_of_ascii c3 in
  ((n1 =? 225) && (n2 =? 154) && (n3 =? 128)
   || (n1 =? 226) && (n2 =? 128)
      && ((128 <=? n3) && (n3 <=? 138) || (n3 =? 168) || (n3 =? 169) || (n3 =? 175))
   || (n1 =? 226) && (n2 =? 129) && (n3 =? 159)
   || (n1 =? 227) && (n2 =? 128) && (n3 =? 128))%nat.

(** Byte width of the white-space rune that starts [bs], 0 when there is
    none. *)
Definition leading_space_width (bs : list ascii) : nat :=
  match bs with
  | c1 :: rest =>
      if is_space1 c1 then 1%nat
      else match rest with
           | c2 :: rest' =>
               if is_space2 c1 c2 then 2%nat
               else match rest' with
                    | c3 :: _ => if is_space3 c1 c2 c3 then 3%nat else 0%nat
                    | [] => 0%nat
                    end
           | [] => 0%nat
           end
  | [] => 0%nat
  end.

(** The same for the rune that ends a string, on its reversed bytes. *)
Definition trailing_space_width (rev_bs : list ascii) : nat :=
  match rev_bs with
  | c1 :: rest =>
      if is_space1 c1 then 1%nat
      else match rest with
           | c2 :: rest' =>
               if is_space2 c2 c1 then 2%nat
               else match rest' with
                    | c3 :: _ => if is_space3 c3 c2 c1 then 3%nat else 0%nat
                    | [] => 0%nat
                    end
           | [] => 0%nat
           end
  | [] => 0%nat
  end.

Fixpoint trim_with (width : list ascii -> nat) (fuel : nat) (bs : list ascii)
    : list ascii :=
  match fuel with
  | O => bs
  | S fuel' =>
      match width bs with
      | O => bs
      | w => trim_with width fuel' (drop w bs)
      end
  end.

Definition strings_TrimSpace (s : string) : string :=
  let bs := list_ascii_of_string s in
  let bs := trim_with leading_space_width (length bs) bs in
  let bs := trim_with trailing_space_width (length bs) (rev bs) in
  string_of_list_ascii (rev bs).

(** *** The parser *)

Inductive parse_error : Type :=
| NoRecommendationsFound.   (* "no recommendations found in response" *)

Section Parser.
(** [json.Unmarshal([]byte(jsonStr), &recommendations)]: [None] is a
    non-nil error. *)
Variable json_Unmarshal : string -> option (list TradeRecommendation).

(** [fmt.Sscanf(popStr, "%f", &pop)]: [None] when the scan fails, which
    leaves [pop] at zero. *)
Variable Sscanf_f : string -> option float.

(** One round of the loop over the lines; the state is
    [(inTable, recommendations)]. *)
Definition parse_line (st : bool * list TradeRecommendation) (line : string)
    : bool * list TradeRecommendation :=
  let '(inTable, recommendations) := st in
  let line := strings_TrimSpace line in
  if String.eqb line "" || strings_Contains line "Ticker" || strings_Contains line "---"
  then (if strings_Contains line "Ticker" then true else inTable, recommendations)
  else if negb inTable then (inTable, recommendations)
  else
    let parts := strings_Split line "|"%char in
    if (5 <=? length parts)%nat then
      let part i := nth i parts "" in
      let popStr := strings_TrimSpace (strings_TrimSuffix (part 4%nat) "%") in
      let pop := default 0%float (Sscanf_f popStr) in
      let rec :=
        {| Ticker := strings_TrimSpace (part 0%nat);
           Strategy := strings_TrimSpace (part 1%nat);
           Legs := strings_TrimSpace (part 2%nat);
           Thesis := strings_TrimSpace (part 3%nat);
           POP := (pop / 100.0)%float;
           MaxLoss := 0%float;
           MaxProfit := 0%float;
           Score := 0%float |} in
      (inTable, (recommendations ++ [rec])%list)
    else (inTable, recommendations).

(** [parseTableFormat]. *)
Definition parseTableFormat (response : string)
    : list TradeRecommendation + parse_error :=
  let lines := strings_Split response "010"%char in
  let '(_, recommendations) := fold_left parse_line lines (false, []) in
  if (length recommendations =? 0)%nat then inr NoRecommendationsFound
  else inl recommendations.

(** [parseRecommendations]. *)
Definition parseRecommendations (response : string)
    : list TradeRecommendation + parse_error :=
  let startIdx := strings_Index response "[" in
  let endIdx := strings_LastIndex response "]" in
  if negb (startIdx =? -1)%Z && negb (endIdx =? -1)%Z && (startIdx <? endIdx)%Z then
    let jsonStr := slice response startIdx (endIdx + 1) in
    match json_Unmarshal jsonStr with
    | None => parseTableFormat response
    | Some recommendations => inl recommendations
    end
  else parseTableFormat response.
End Parser.

(** A scanner for the witnesses: unsigned decimal integers, which
    [Sscanf] reads exactly while they stay below 2^53. *)
Fixpoint decimal_value (s : string) (acc : Z) : option Z :=
  match s with
  | EmptyString => Some acc
  | String c s' =>
      match Ascii.is_nat c with
      | Some d => decimal_value s' (10 * acc + Z.of_nat d)
      | None => None
      end
  end.

Definition scan_decimal (s : string) : option float :=
  match s with
  | EmptyString => None
  | _ =>
      match decimal_value s 0 with
      | Some n => if (n <? 2 ^ 53)%Z then Some (Float64.of_int n) else None
      | None => None
      end
  end.
End Normalizer.

(** ** Histories of the ledger *)

Module History.
Import Ledger.

(** The three mutating calls. *)
Inductive op : Type :=
| OpRecordRecommendation (rec : TradeRecommendation)
| OpUpdateExecution (recordID : string) (executed : bool)
| OpUpdateTradeResult (recordID : string) (profit : float).

(** The world after a call, whether it returned an error or not. *)
Definition exec (clock : nat -> Time) (o : op) (w : world) : world :=
  match o with
  | OpRecordRecommendation rec => snd (RecordRecommendation clock rec w)
  | OpUpdateExecution recordID executed => snd (UpdateExecution clock recordID executed w)
  | OpUpdateTradeResult recordID profit => snd (UpdateTradeResult clock recordID profit w)
  end.

(** A tracker on a fresh data directory. *)
Definition init : world := {| file := FileAbsent; ticks := 0 |}.

Inductive reachable (clock : nat -> Time) : world -> Prop :=
| reach_init : reachable clock init
| reach_exec w o : reachable clock w -> reachable clock (exec clock o w).

(** The entries that [loadRecords] reads from the file of a world: none
    when the file is missing or does not load. *)
Definition entries_of (w : world) : list (option RecommendationRecord) :=
  match file w with
  | FileJSON entries => map json_entry entries
  | _ => []
  end.

(** The records among them. *)
Definition records_of (w : world) : list RecommendationRecord :=
  omap id (entries_of w).

(** "Record, then history(1), returns exactly the just-created record". *)
Definition history_round_trip (clock : nat -> Time) : Prop :=
  forall rec w record w',
    RecordRecommendation clock rec w = (Ok record, w') ->
    GetRecommendationHistory 1 w' = (Ok [Some record], w').

Definition is_update (o : op) : bool :=
  match o with
  | OpRecordRecommendation _ => false
  | _ => true
  end.

(** "Closed and expired are terminal": no update call changes the status
    of a record that is closed or expired. *)
Definition terminal_statuses (clock : nat -> Time) : Prop :=
  forall w o i r r',
    reachable clock w -> is_update o = true ->
    records_of w !! i = Some r ->
    Status r = "closed"%string \/ Status r = "expired"%string ->
    records_of (exec clock o w) !! i = Some r' ->
    Status r' = Status r.

(** A world on which [loadRecords] succeeds. *)
Definition loads (w : world) : bool :=
  match file w with
  | FileAbsent | FileJSON _ => true
  | _ => false
  end.

(** A world on which [loadRecords] succeeds and whose entries can all be
    marshalled again. *)
Definition storable (w : world) : bool :=
  match file w with
  | FileAbsent => true
  | FileJSON entries => forallb entry_encodable entries
  | _ => false
  end.

(** The same, with no nil entry. *)
Definition healthy (w : world) : bool :=
  match file w with
  | FileAbsent => true
  | FileJSON entries =>
      forallb (fun e => match e with
                        | Some r => record_encodable r
                        | None => false
                        end) entries
  | _ => false
  end.

(** The statuses that the three calls ever write. *)
Definition known_status (rec : RecommendationRecord) : Prop :=
  Status rec = "pending"%string \/ Status rec = "executed"%string
  \/ Status rec = "closed"%string.

(** What every state reached from a fresh ledger satisfies. *)
Definition well_formed (w : world) : Prop :=
  healthy w = true /\ Forall known_status (records_of w).

(** The records that the update calls write back, named. *)
Definition mark_executed (now : Time) (rec : RecommendationRecord) : RecommendationRecord :=
  {| ID := ID rec; Timestamp := Timestamp rec; Recommendation := Recommendation rec;
     Executed := true; ExecutionTime := Some now; ExitTime := ExitTime rec;
     ActualProfit := ActualProfit rec; Status := "executed" |}.

Definition mark_unexecuted (rec : RecommendationRecord) : RecommendationRecord :=
  {| ID := ID rec; Timestamp := Timestamp rec; Recommendation := Recommendation rec;
     Executed := false; ExecutionTime := ExecutionTime rec; ExitTime := ExitTime rec;
     ActualProfit := ActualProfit rec; Status := Status rec |}.

Definition mark_closed (now : Time) (profit : float) (rec : RecommendationRecord)
    : RecommendationRecord :=
  {| ID := ID rec; Timestamp := Timestamp rec; Recommendation := Recommendation rec;
     Executed := Executed rec; ExecutionTime := ExecutionTime rec; ExitTime := Some now;
     ActualProfit := Some profit; Status := "closed" |}.
End History.

(** ** Lower bounds on binary64 values, read on the IEEE-754 specification *)

Module Bounds.
(** [sf_at_least M E x]: [x] is [+Inf], or a positive finite number whose
    exponent exceeds [E], or one with exponent [E] and mantissa at least
    [M]; for a normalized [x] this is [M * 2^E <= x]. *)
Definition sf_at_least (M E : Z) (x : spec_float) : Prop :=
  match x with
  | S754_infinity false => True
  | S754_finite false m e => E < e \/ (e = E /\ M <= Zpos m)
  | _ => False
  end.

Definition at_least (M E : Z) (x : float) : Prop := sf_at_least M E (Prim2SF x).

(** Mantissas of the constants involved: [300 = M300 * 2^-44],
    [100 = m100 * 2^-46], [10000 = m10000 * 2^-39], [2 = m2 * 2^-51],
    [0.0234375 = Mq * 2^-58] and [2.25 = Mp * 2^-51]. *)
Definition M300 : Z := 5277655813324800.
Definition m100 : positive := 7036874417766400.
Definition m10000 : positive := 5497558138880000.
Definition m2 : positive := 4503599627370496.
Definition Mq : Z := 6755399441055744.
Definition Mp : Z := 5066549580791808.
End Bounds.

(** ** Sample inputs *)

Module Samples.
Local Open Scope string_scope.

(** A candidate as the table parser produces it: no loss and no profit. *)
Definition table_candidate : TradeRecommendation :=
  {| Ticker := "SPY"; Strategy := "Bull Put Spread"; Legs := "Sell 440P/Buy 435P";
     Thesis := "strong support"; POP := 0.72; MaxLoss := 0; MaxProfit := 0; Score := 0 |}.

(** A candidate with a POP of 0.5, below the default minimum of 0.65. *)
Definition low_pop_candidate : TradeRecommendation :=
  {| Ticker := "SPY"; Strategy := "iron condor"; Legs := ""; Thesis := "";
     POP := 0.5; MaxLoss := -100; MaxProfit := 50; Score := 0 |}.

(** A candidate whose ticker ends in the byte 0xFF, which is not valid
    UTF-8. *)
Definition invalid_ticker_candidate : TradeRecommendation :=
  {| Ticker := String "S" (String "P" (String "255" EmptyString));
     Strategy := "iron condor"; Legs := ""; Thesis := "";
     POP := 0.7; MaxLoss := -100; MaxProfit := 50; Score := 0 |}.

(** A candidate that risks 100. *)
Definition hundred_loss (ticker : string) : TradeRecommendation :=
  {| Ticker := ticker; Strategy := "credit spread"; Legs := ""; Thesis := "";
     POP := 0.7; MaxLoss := -100; MaxProfit := 50; Score := 0 |}.

(** A snapshot worth 10,000. *)
Definition portfolio_10000 : gmap string iface :=
  {[ "total_value" := IFloat64 10000 ]}.

(** A clock that ticks one nanosecond per reading, from the epoch. *)
Definition sample_clock (n : nat) : Ledger.Time := Z.of_nat n.

(** The id that [generateRecordID] builds first under [sample_clock]. *)
Definition first_id : string := "rec_0_1".

(** A fresh ledger after [RecordRecommendation(low_pop_candidate)] and
    [UpdateTradeResult(first_id, 10)], with no [UpdateExecution] between. *)
Definition closed_world : Ledger.world :=
  History.exec sample_clock (History.OpUpdateTradeResult first_id 10)
    (History.exec sample_clock (History.OpRecordRecommendation low_pop_candidate)
       History.init).

(** The record that [closed_world] holds: closed, with a profit, never
    marked executed. *)
Definition closed_unexecuted : Ledger.RecommendationRecord :=
  {| Ledger.ID := first_id; Ledger.Timestamp := 2;
     Ledger.Recommendation := low_pop_candidate;
     Ledger.Executed := false; Ledger.ExecutionTime := None; Ledger.ExitTime := Some 3;
     Ledger.ActualProfit := Some 10%float; Ledger.Status := "closed" |}.

(** Two executed and closed records, one win and one loss. *)
Definition win_and_loss : list Ledger.RecommendationRecord :=
  [ {| Ledger.ID := "rec_1_0"; Ledger.Timestamp := 1000000000;
       Ledger.Recommendation := low_pop_candidate;
       Ledger.Executed := true; Ledger.ExecutionTime := Some 1000000001;
       Ledger.ExitTime := Some 1000000002;
       Ledger.ActualProfit := Some 10%float; Ledger.Status := "closed" |};
    {| Ledger.ID := "rec_2_0"; Ledger.Timestamp := 2000000000;
       Ledger.Recommendation := low_pop_candidate;
       Ledger.Executed := true; Ledger.ExecutionTime := Some 2000000001;
       Ledger.ExitTime := Some 2000000002;
       Ledger.ActualProfit := Some (-5)%float; Ledger.Status := "closed" |} ].

(** Three executed and closed records with a profit of 0.1 each. *)
Definition tenth (id : string) : Ledger.RecommendationRecord :=
  {| Ledger.ID := id; Ledger.Timestamp := 1000000000;
     Ledger.Recommendation := low_pop_candidate;
     Ledger.Executed := true; Ledger.ExecutionTime := Some 1000000001;
     Ledger.ExitTime := Some 1000000002;
     Ledger.ActualProfit := Some 0.1%float; Ledger.Status := "closed" |}.

Definition three_tenths : list Ledger.RecommendationRecord :=
  [tenth "rec_1_0"; tenth "rec_1_1"; tenth "rec_1_2"].

(** The tabular response of the normalizer scenario; [nl] is the line feed. *)
Definition nl : string := String "010"%char EmptyString.

Definition scenario_text : string :=
  "Ticker | Strategy | Legs | Thesis | 72%" ++ nl ++ "---" ++ nl
  ++ "SPY | Bull Put Spread | Sell 440P/Buy 435P | strong support | 72%".
End Samples.

(** ** Portfolio risk metrics (risk_management.go) *)

Module Portfolio.
Import Float64.
Local Open Scope string_scope.
Local Open Scope float_scope.

(** [PortfolioRiskMetrics]. *)
Record PortfolioRiskMetrics : Type := {
  TotalDelta : float;
  TotalGamma : float;
  TotalVega : float;
  TotalTheta : float;
  ValueAtRisk : float;
  MaxDrawdown : float;
  Concentrations : gmap string float;
  CorrelationRisk : float
}.

(** The type assertions [pos[key].(float64)] and [pos[key].(string)]. *)
Definition float_field (pos : gmap string iface) (key : string) : option float :=
  match pos !! key with
  | Some (IFloat64 v) => Some v
  | _ => None
  end.

Definition string_field (pos : gmap string iface) (key : string) : option string :=
  match pos !! key with
  | Some (IString s) => Some s
  | _ => None
  end.

(** [total += x] when the field is present. *)
Definition add_field (total : float) (field : option float) : float :=
  match field with
  | Some x => total + x
  | None => total
  end.

(** The state of the first loop of [CalculatePortfolioMetrics]. *)
Record aggregate : Type := {
  a_totalValue : float;
  a_symbolValues : gmap string float;
  a_delta : float;
  a_gamma : float;
  a_vega : float;
  a_theta : float
}.

Definition aggregate_zero : aggregate :=
  {| a_totalValue := 0; a_symbolValues := ∅;
     a_delta := 0; a_gamma := 0; a_vega := 0; a_theta := 0 |}.

(** The body of [for _, pos := range positions]: a position without a string
    ["symbol"] is skipped as a whole. *)
Definition aggregate_position (a : aggregate) (pos : gmap string iface) : aggregate :=
  match string_field pos "symbol" with
  | Some symbol =>
      {| a_totalValue := add_field (a_totalValue a) (float_field pos "market_value");
         a_symbolValues :=
           match float_field pos "market_value" with
           | Some value =>
               <[symbol := default 0 (a_symbolValues a !! symbol) + value]>
                 (a_symbolValues a)
           | None => a_symbolValues a
           end;
         a_delta := add_field (a_delta a) (float_field pos "delta");
         a_gamma := add_field (a_gamma a) (float_field pos "gamma");
         a_vega := add_field (a_vega a) (float_field pos "vega");
         a_theta := add_field (a_theta a) (float_field pos "theta") |}
  | None => a
  end.

(** [estimateMaxDrawdown]. *)
Definition estimateMaxDrawdown (positions : list (gmap string iface)) : float :=
  let totalRisk :=
    fold_left (fun totalRisk pos =>
                 match float_field pos "max_loss" with
                 | Some maxLoss => totalRisk + math_Abs maxLoss
                 | None => totalRisk
                 end) positions 0.0 in
  totalRisk * 1.5.

Definition techSymbols : list string :=
  ["AAPL"; "MSFT"; "NVDA"; "AMD"; "META"; "GOOGL"].

(** The inner loop over [techSymbols], with its [break]. *)
Definition is_tech (symbol : string) : bool :=
  existsb (String.eqb symbol) techSymbols.

(** The body of [for symbol, value := range symbolValues]; the state is
    [(techConcentration, totalValue)]. *)
Definition correlation_step (st : float * float) (entry : string * float)
    : float * float :=
  let '(techConcentration, totalValue) := st in
  let '(symbol, value) := entry in
  (if is_tech symbol then techConcentration + value else techConcentration,
   totalValue + value).

Section Range.
(** The order in which Go ranges over [symbolValues]. *)
Variable range_order : list (string * float) -> list (string * float).

(** [calculateCorrelationRisk]. *)
Definition calculateCorrelationRisk (symbolValues : gmap string float) : float :=
  let '(techConcentration, totalValue) :=
    fold_left correlation_step (range_order (map_to_list symbolValues)) (0.0, 0.0) in
  if gtb totalValue 0 then
    let techPercent := techConcentration / totalValue in
    math_Min (techPercent * 100) 100
  else 0.

(** [CalculatePortfolioMetrics]. *)
Definition CalculatePortfolioMetrics (positions : list (gmap string iface))
    : PortfolioRiskMetrics :=
  let a := fold_left aggregate_position positions aggregate_zero in
  let totalValue := a_totalValue a in
  let symbolValues := a_symbolValues a in
  {| TotalDelta := a_delta a;
     TotalGamma := a_gamma a;
     TotalVega := a_vega a;
     TotalTheta := a_theta a;
     ValueAtRisk := totalValue * 0.02;
     MaxDrawdown := estimateMaxDrawdown positions;
     Concentrations :=
       if gtb totalValue 0
       then (fun value => (value / totalValue) * 100) <$> symbolValues
       else ∅;
     CorrelationRisk := calculateCorrelationRisk symbolValues |}.
End Range.

(** A position that carries a string ["symbol"]. *)
Definition has_symbol (pos : gmap string iface) : bool :=
  match string_field pos "symbol" with Some _ => true | None => false end.

(** The market value of a position that the first loop adds up: a float64
    ["market_value"] beside a string ["symbol"]. *)
Definition counted_value (pos : gmap string iface) : option float :=
  match string_field pos "symbol" with
  | Some _ => float_field pos "market_value"
  | None => None
  end.
End Portfolio.

(** ** Signs of binary64 values, read on the IEEE-754 specification *)

Module Signs.
(** [+0], a positive finite number or [+Inf]: neither NaN nor below zero. *)
Definition sf_nonneg (x : spec_float) : Prop :=
  match x with
  | S754_zero false | S754_infinity false | S754_finite false _ _ => True
  | _ => False
  end.

Definition nonneg (x : float) : Prop := sf_nonneg (Prim2SF x).

(** A positive finite number. *)
Definition sf_positive_finite (x : spec_float) : Prop :=
  match x with
  | S754_finite false _ _ => True
  | _ => False
  end.

Definition positive_finite (x : float) : Prop := sf_positive_finite (Prim2SF x).
End Signs.

(** ** The basket sums, worded on the candidates *)

Module BasketSums.
Import Float64.

(** Left-to-right float64 sum, from 0. *)
Definition fsum (xs : list float) : float := fold_left add xs 0%float.

(** The risk of a candidate: [|maxLoss|]. *)
Definition risk (trade : TradeRecommendation) : float := math_Abs (MaxLoss trade).

(** The risks of the candidates on one ticker, in basket order. *)
Definition ticker_risks (ticker : string) (trades : list TradeRecommendation) : list float :=
  map risk (List.filter (fun trade => String.eqb (Ticker trade) ticker) trades).

(** Percent of the portfolio value. *)
Definition percent_of (portfolioValue x : float) : float :=
  (x / portfolioValue * 100)%float.

(** The float64 under ["total_value"] when it is above zero (or NaN). *)
Definition usable_total_value (portfolio : gmap string iface) : option float :=
  match portfolio !! "total_value"%string with
  | Some (IFloat64 v) => if (v <=? 0)%float then None else Some v
  | _ => None
  end.

(** The snapshot that [getUserPortfolio] of the HTTP handlers builds: a cash
    balance (an [int]), positions and options, and no ["total_value"]. *)
Definition mock_portfolio : gmap string iface :=
  {[ "cash_balance"%string := IOther; "positions"%string := IOther;
     "options"%string := IOther ]}.

(** A position with Greeks and a market value but no ["symbol"]. *)
Definition unnamed_position : gmap string iface :=
  {[ "market_value"%string := IFloat64 5000; "delta"%string := IFloat64 0.5;
     "max_loss"%string := IFloat64 (-250) ]}.

(** The strategy names of the lookup table. *)
Definition known_strategies : list string :=
  ["covered call"; "cash secured put"; "credit spread"; "iron condor"; "butterfly";
   "naked option"]%string.
End BasketSums.

(** ** Ledger histories, continued *)

Module LedgerSpec.
Import Ledger History.

(** What identifies a recommendation once recorded: its id, its creation
    instant and the candidate. *)
Definition identity (r : RecommendationRecord) : string * Time * TradeRecommendation :=
  (ID r, Timestamp r, Recommendation r).

(** The world after a sequence of calls. *)
Definition run (clock : nat -> Time) (ops : list op) (w : world) : world :=
  fold_left (fun w o => exec clock o w) ops w.

(** The record id that an update call looks for. *)
Definition target (o : op) : option string :=
  match o with
  | OpRecordRecommendation _ => None
  | OpUpdateExecution recordID _ => Some recordID
  | OpUpdateTradeResult recordID _ => Some recordID
  end.

(** The fields of a record agree with each other. *)
Definition coherent (r : RecommendationRecord) : Prop :=
  (Status r = "pending"%string ->
   Executed r = false /\ ExecutionTime r = None /\ ExitTime r = None
   /\ ActualProfit r = None)
  /\ (Status r = "closed"%string -> is_Some (ActualProfit r) /\ is_Some (ExitTime r))
  /\ (Executed r = true -> is_Some (ExecutionTime r))
  /\ (is_Some (ActualProfit r) <-> is_Some (ExitTime r))
  /\ (forall profit, ActualProfit r = Some profit -> is_finite profit = true).

(** The array on file holds a nil entry. *)
Definition has_nil (w : world) : bool :=
  existsb (fun e : option RecommendationRecord =>
             match e with None => true | Some _ => false end) (entries_of w).

(** A ledger file that holds the one-element array [[null]]. *)
Definition nil_ledger : world := {| file := FileJSON [None]; ticks := 0 |}.

(** A clock too coarse to tell two readings apart. *)
Definition coarse_clock (n : nat) : Time := 0%Z.

(** A candidate whose POP is NaN. *)
Definition nan_candidate : TradeRecommendation :=
  {| Ticker := "SPY"; Strategy := "iron condor"; Legs := ""; Thesis := "";
     POP := nan; MaxLoss := -100; MaxProfit := 50; Score := 0 |}.

(** A fresh ledger after one [RecordRecommendation], under either clock. *)
Definition one_record : world :=
  exec Samples.sample_clock (OpRecordRecommendation Samples.low_pop_candidate) init.

Definition one_coarse_record : world :=
  exec coarse_clock (OpRecordRecommendation Samples.low_pop_candidate) init.
End LedgerSpec.

(** ** The per-strategy breakdown, worded on the records *)

Module MetricsSpec.
Import Float64 Ledger Metrics.
Local Open Scope float_scope.

(** The records of one strategy that are marked executed and carry a
    profit. *)
Definition strategy_realized (strategy : string) (records : list RecommendationRecord)
    : list RecommendationRecord :=
  List.filter (fun rec => String.eqb (Strategy (Recommendation rec)) strategy
                          && Executed rec && has_profit rec) records.

(** The entry of a strategy: none without such a record; otherwise their
    number, the percentage of those with a profit above zero, and the sum
    and the mean of their profits. *)
Definition strategy_entry (strategy : string) (records : list RecommendationRecord)
    : option StrategyMetrics.t :=
  match strategy_realized strategy records with
  | [] => None
  | rs =>
      let total := fsum (omap ActualProfit rs) in
      Some {| StrategyMetrics.Count := len rs;
              StrategyMetrics.WinRate :=
                of_int (count_where is_win rs) / of_int (len rs) * 100;
              StrategyMetrics.AvgReturn := total / of_int (len rs);
              StrategyMetrics.TotalReturn := total |}
  end.

(** The metrics without [TotalRecommendations]. *)
Definition figures (m : PerformanceMetrics)
    : Z * Z * Z * float * float * float * float * float * gmap string StrategyMetrics.t :=
  (ExecutedTrades m, WinningTrades m, LosingTrades m, WinRate m, AverageReturn m,
   TotalReturn m, SharpeRatio m, MaxDrawdown m, ByStrategy m).

(** Two closed records, the loss first. *)
Definition loss_and_win : list RecommendationRecord := rev Samples.win_and_loss.
End MetricsSpec.

(** ** What the table parser leaves out *)

Module NormalizerSpec.
Local Open Scope float_scope.

(** A candidate without loss, profit and score. *)
Definition without_amounts (trade : TradeRecommendation) : Prop :=
  MaxLoss trade = 0 /\ MaxProfit trade = 0 /\ Score trade = 0.

(** A table row that no header line precedes. *)
Definition headerless_row : string :=
  "SPY | Bull Put Spread | Sell 440P/Buy 435P | strong support | 72%"%string.
End NormalizerSpec.

(** ** Bearer authentication (cmd/unified_oauth_server/main_ai_routes.go) *)

Module Auth.
Local Open Scope string_scope.

(** What the middleware does with a request: answer 401 with a message, or
    call the next handler with the user id in the request context. *)
Inductive outcome : Type :=
| Unauthorized (message : string)
| Next (userID : string).

(** [validateToken]: the user id, or the error. *)
Definition validateToken (token : string) : string + string :=
  if String.eqb token "" then inr "empty token"
  else inl "anonymous-user-123".

Definition bearerPrefix : string := "Bearer ".

(** [authenticateMiddleware], on the value of [r.Header.Get("Authorization")]
    (empty when the header is missing). *)
Definition authenticateMiddleware (authHeader : string) : outcome :=
  if String.eqb authHeader "" then Unauthorized "Missing authorization header"
  else if negb (String.prefix bearerPrefix authHeader)
  then Unauthorized "Invalid authorization format"
  else
    let token := String.substring (String.length bearerPrefix)
                                  (String.length authHeader - String.length bearerPrefix)
                                  authHeader in
    match validateToken token with
    | inr _ => Unauthorized "Invalid token"
    | inl userID => Next userID
    end.
End Auth.

(* ===================================================================== *)
(** * Part II: properties                                                 *)
(* ===================================================================== *)

(** ** Rounding never falls below a representable lower bound

    The facts about binary64 arithmetic that the basket check needs, proved
    on the specification [SpecFloat] that the primitive operations satisfy. *)

Module Rounding.
Import Bounds.
Local Open Scope Z_scope.

(** *** Digits, shifts and rounding of mantissas *)

(** A mantissa of [d] binary digits lies in [[2^(d-1), 2^d)]. *)
Lemma digits2_pos_bounds (p : positive) :
  2 ^ (Zpos (digits2_pos p) - 1) <= Zpos p < 2 ^ Zpos (digits2_pos p).
Proof.
  induction p as [p IH | p IH |]; cbn [digits2_pos].
  - rewrite Pos2Z.inj_succ, (Pos2Z.inj_xI p).
    replace (Z.succ (Zpos (digits2_pos p)) - 1) with (Z.succ (Zpos (digits2_pos p) - 1)) by lia.
    rewrite !Z.pow_succ_r by lia.
    revert IH. generalize (2 ^ (Zpos (digits2_pos p) - 1)) (2 ^ Zpos (digits2_pos p)). intros; lia.
  - rewrite Pos2Z.inj_succ, (Pos2Z.inj_xO p).
    replace (Z.succ (Zpos (digits2_pos p)) - 1) with (Z.succ (Zpos (digits2_pos p) - 1)) by lia.
    rewrite !Z.pow_succ_r by lia.
    revert IH. generalize (2 ^ (Zpos (digits2_pos p) - 1)) (2 ^ Zpos (digits2_pos p)). intros; lia.
  - cbn. lia.
Qed.

(** One step of [shr] halves the mantissa. *)
Lemma shr_1_m (mrs : shr_record) :
  0 <= shr_m mrs -> shr_m (shr_1 mrs) = shr_m mrs / 2.
Proof.
  destruct mrs as [m r s]; cbn [shr_m]; intros Hm.
  rewrite <- Z.div2_div.
  destruct m as [|[p|p|]|p]; cbn; try reflexivity; lia.
Qed.

Lemma iter_pos_shr_1_m (p : positive) :
  forall mrs, 0 <= shr_m mrs ->
    shr_m (SpecFloat.iter_pos shr_1 p mrs) = shr_m mrs / 2 ^ Zpos p.
Proof.
  induction p as [p IH | p IH |]; intros mrs Hm; cbn [SpecFloat.iter_pos].
  - assert (H1 : 0 <= shr_m (shr_1 mrs)) by (rewrite shr_1_m by lia; apply Z.div_pos; lia).
    assert (H2 : 0 <= shr_m (SpecFloat.iter_pos shr_1 p (shr_1 mrs)))
      by (rewrite IH by lia; apply Z.div_pos; lia).
    rewrite IH, IH, shr_1_m by lia.
    rewrite !Z.div_div by lia.
    f_equal. rewrite (Pos2Z.inj_xI p).
    replace (2 * Zpos p + 1) with (1 + Zpos p + Zpos p) by lia.
    rewrite !Z.pow_add_r by lia. lia.
  - assert (H2 : 0 <= shr_m (SpecFloat.iter_pos shr_1 p mrs))
      by (rewrite IH by lia; apply Z.div_pos; lia).
    rewrite IH, IH by lia.
    rewrite !Z.div_div by lia.
    f_equal. rewrite (Pos2Z.inj_xO p).
    replace (2 * Zpos p) with (Zpos p + Zpos p) by lia.
    rewrite !Z.pow_add_r by lia. lia.
  - rewrite shr_1_m by lia. reflexivity.
Qed.

Lemma shr_m_of_loc m l : shr_m (shr_record_of_loc m l) = m.
Proof. destruct l as [|[]]; reflexivity. Qed.

(** The mantissa and exponent that [shr] produces. *)
Lemma shr_spec m l e n :
  0 <= m ->
  shr_m (fst (shr (shr_record_of_loc m l) e n)) = (if 0 <? n then m / 2 ^ n else m)
  /\ snd (shr (shr_record_of_loc m l) e n) = (if 0 <? n then e + n else e).
Proof.
  intros Hm. destruct n as [|p|p]; cbn [shr fst snd Z.ltb Z.compare].
  - now rewrite shr_m_of_loc.
  - rewrite iter_pos_shr_1_m by (rewrite shr_m_of_loc; lia).
    now rewrite shr_m_of_loc.
  - now rewrite shr_m_of_loc.
Qed.

(** Rounding to nearest even moves a truncated mantissa up by at most one. *)
Lemma round_nearest_even_range m l :
  m <= round_nearest_even m l <= m + 1.
Proof.
  unfold round_nearest_even. destruct l as [|[]]; try lia.
  destruct (Z.even m); lia.
Qed.

Lemma Zdigits2_bounds m : 0 < m ->
  2 ^ (Zdigits2 m - 1) <= m < 2 ^ Zdigits2 m /\ 0 < Zdigits2 m.
Proof.
  destruct m as [|p|p]; try lia. intros _. cbn [Zdigits2].
  split; [apply digits2_pos_bounds | lia].
Qed.

Lemma pow2_pos k : 0 <= k -> 0 < 2 ^ k.
Proof. intros; apply Z.pow_pos_nonneg; lia. Qed.

(** *** The rounding step of every operation

    If the exact value [mx * 2^ex] (or anything above it, whatever the
    location says) is at least the normal number [M * 2^E], so is its
    rounding; [K] only serves to state the comparison on integers. *)
Lemma binary_round_aux_at_least M E K mx ex lx :
  2 ^ 52 <= M < 2 ^ 53 -> -1074 <= E -> 0 < mx ->
  0 <= E + K -> 0 <= ex + K ->
  M * 2 ^ (E + K) <= mx * 2 ^ (ex + K) ->
  sf_at_least M E (binary_round_aux prec emax false mx ex lx).
Proof.
  intros HM HE Hmx HEK HexK Hval.
  destruct (Zdigits2_bounds mx Hmx) as [Hd Hdpos].
  set (d := Zdigits2 mx) in *.
  assert (Hde : 53 + E <= d + ex).
  { assert (H1 : 2 ^ (52 + E + K) < 2 ^ (d + ex + K)).
    { replace (52 + E + K) with (52 + (E + K)) by lia.
      replace (d + ex + K) with (d + (ex + K)) by lia.
      rewrite (Z.pow_add_r 2 52 (E + K)), (Z.pow_add_r 2 d (ex + K)) by lia.
      pose proof (pow2_pos (E + K) HEK) as Ha. pose proof (pow2_pos (ex + K) HexK) as Hb.
      assert (H2 : 2 ^ 52 * 2 ^ (E + K) <= M * 2 ^ (E + K))
        by (apply Z.mul_le_mono_nonneg_r; lia).
      assert (H3 : mx * 2 ^ (ex + K) < 2 ^ d * 2 ^ (ex + K))
        by (apply Z.mul_lt_mono_pos_r; lia).
      lia. }
    apply Z.pow_lt_mono_r_iff in H1; lia. }
  unfold binary_round_aux, shr_fexp.
  fold d.
  assert (Hfexp : fexp prec emax (d + ex) = d + ex - 53)
    by (unfold fexp, SpecFloat.emin, prec, emax; lia).
  rewrite Hfexp.
  destruct (shr_spec mx lx ex (d + ex - 53 - ex) ltac:(lia)) as [Hm1 He1].
  destruct (shr (shr_record_of_loc mx lx) ex (d + ex - 53 - ex)) as [mrs1 e1].
  cbn [fst snd] in Hm1, He1.
  set (m1 := shr_m mrs1) in *.
  assert (HA : 0 < m1 < 2 ^ 53 /\ E <= e1 /\ (e1 = E -> M <= m1)).
  { destruct (Z.ltb_spec 0 (d + ex - 53 - ex)) as [Hn | Hn].
    - set (n := d + ex - 53 - ex) in *.
      assert (Hpn : 0 < 2 ^ n) by (apply pow2_pos; lia).
      assert (Hd1 : 2 ^ (d - 1) = 2 ^ 52 * 2 ^ n)
        by (rewrite <- Z.pow_add_r by lia; f_equal; lia).
      assert (Hd2 : 2 ^ d = 2 ^ 53 * 2 ^ n)
        by (rewrite <- Z.pow_add_r by lia; f_equal; lia).
      assert (Hlo : 2 ^ 52 <= mx / 2 ^ n) by (apply Z.div_le_lower_bound; lia).
      assert (Hhi : mx / 2 ^ n < 2 ^ 53) by (apply Z.div_lt_upper_bound; lia).
      rewrite Hm1, He1. repeat split; try lia.
      intros HeE.
      apply Z.div_le_lower_bound; [lia|].
      assert (HEK2 : 2 ^ (E + K) = 2 ^ n * 2 ^ (ex + K))
        by (rewrite <- Z.pow_add_r by lia; f_equal; lia).
      rewrite HEK2 in Hval.
      pose proof (pow2_pos (ex + K) HexK).
      nia.
    - rewrite Hm1, He1.
      assert (Hd53 : 2 ^ d <= 2 ^ 53) by (apply Z.pow_le_mono_r; lia).
      repeat split; try lia.
      intros HeE. rewrite HeE in Hval.
      apply (Z.mul_le_mono_pos_r _ _ (2 ^ (E + K))); [apply pow2_pos|]; lia. }
  destruct HA as (Hm1r & HEe1 & HM1).
  pose proof (round_nearest_even_range m1 (loc_of_shr_record mrs1)) as Hr.
  set (r := round_nearest_even m1 (loc_of_shr_record mrs1)) in *.
  assert (Hr0 : 0 < r) by lia.
  destruct (Zdigits2_bounds r Hr0) as [Hd2 Hd2pos].
  set (d2 := Zdigits2 r) in *.
  destruct (shr_spec r loc_Exact e1 (fexp prec emax (d2 + e1) - e1) ltac:(lia)) as [Hm2 He2].
  destruct (shr (shr_record_of_loc r loc_Exact) e1 (fexp prec emax (d2 + e1) - e1))
    as [mrs2 e2].
  cbn [fst snd] in Hm2, He2.
  assert (HB : 0 < shr_m mrs2 /\ (E < e2 \/ (e2 = E /\ M <= shr_m mrs2))).
  { destruct (Z.eq_dec r (2 ^ 53)) as [Hr53 | Hr53].
    - assert (Hd54 : d2 = 54) by (unfold d2; rewrite Hr53; reflexivity).
      assert (Hn2 : fexp prec emax (d2 + e1) - e1 = 1)
        by (unfold fexp, SpecFloat.emin, prec, emax; lia).
      rewrite Hn2 in Hm2, He2. cbn [Z.ltb Z.compare] in Hm2, He2.
      rewrite Hm2, He2, Hr53. change (2 ^ 53 / 2 ^ 1) with (2 ^ 52). lia.
    - assert (Hd53 : d2 <= 53).
      { assert (H1 : 2 ^ (d2 - 1) < 2 ^ 53) by lia.
        apply Z.pow_lt_mono_r_iff in H1; lia. }
      assert (Hn2 : fexp prec emax (d2 + e1) - e1 <= 0)
        by (unfold fexp, SpecFloat.emin, prec, emax; lia).
      destruct (Z.ltb_spec 0 (fexp prec emax (d2 + e1) - e1)); [lia|].
      rewrite Hm2, He2. lia. }
  destruct HB as [Hpos Hge].
  destruct (shr_m mrs2) as [|m2|m2]; try lia.
  destruct (e2 <=? emax - prec); cbn; auto.
Qed.

(** A valid finite number above the subnormal range has a 53-bit mantissa. *)
Lemma valid_finite_normal s m e :
  valid_binary (S754_finite s m e) = true -> -1074 < e ->
  2 ^ 52 <= Zpos m < 2 ^ 53 /\ Zpos (digits2_pos m) = 53 /\ e <= 971.
Proof.
  cbn [SpecFloat.valid_binary]. unfold bounded, canonical_mantissa.
  rewrite andb_true_iff, Z.eqb_eq, Z.leb_le.
  unfold fexp, SpecFloat.emin, prec, emax. intros [Hc He] Hlo.
  assert (Hd : Zpos (digits2_pos m) = 53) by lia.
  pose proof (digits2_pos_bounds m) as Hb. rewrite Hd in Hb.
  change (53 - 1) with 52 in Hb. lia.
Qed.

Lemma shl_align_shift mx ex ex' :
  ex' < ex ->
  Zpos (fst (shl_align mx ex ex')) = Zpos mx * 2 ^ (ex - ex')
  /\ snd (shl_align mx ex ex') = ex'.
Proof.
  intros Hlt. unfold shl_align.
  destruct (ex' - ex) as [|d|d] eqn:Hd; try lia.
  cbn [fst snd]. split; [|reflexivity].
  change (Pos.iter xO mx d) with (shift_pos d mx).
  rewrite shift_pos_correct.
  replace (ex - ex') with (Zpos d) by lia.
  change (2 ^ Zpos d) with (Z.pow_pos 2 d). unfold Zpower_pos. apply Z.mul_comm.
Qed.

Lemma shl_align_keep mx ex ex' :
  ex <= ex' -> shl_align mx ex ex' = (mx, ex).
Proof.
  intros Hle. unfold shl_align.
  destruct (ex' - ex) as [|d|d] eqn:Hd; try lia; reflexivity.
Qed.

(** The same for [binary_round], which first aligns the mantissa. *)
Lemma binary_round_at_least M E K (mx : positive) ex :
  2 ^ 52 <= M < 2 ^ 53 -> -1074 <= E -> 1074 <= K -> 0 <= ex + K ->
  M * 2 ^ (E + K) <= Zpos mx * 2 ^ (ex + K) ->
  sf_at_least M E (binary_round prec emax false mx ex).
Proof.
  intros HM HE HK HexK Hval. unfold binary_round.
  set (ez := fexp prec emax (Zpos (digits2_pos mx) + ex)).
  assert (Hez : -1074 <= ez) by (unfold ez, fexp, SpecFloat.emin, prec, emax; lia).
  destruct (Z.lt_ge_cases ez ex) as [Hlt | Hge].
  - destruct (shl_align_shift mx ex ez Hlt) as [Hm He].
    destruct (shl_align mx ex ez) as [mz ez']. cbn [fst snd] in Hm, He. subst ez'.
    apply (binary_round_aux_at_least M E K); try lia.
    rewrite Hm, <- Z.mul_assoc, <- Z.pow_add_r by lia.
    replace (ex - ez + (ez + K)) with (ex + K) by lia. exact Hval.
  - rewrite shl_align_keep by lia.
    apply (binary_round_aux_at_least M E K); try lia.
Qed.

(** *** The three operations of the portfolio-risk check

    Adding 100 to a number that is at least 300 gives at least 300. *)
Lemma SFadd_100_at_least x :
  valid_binary x = true ->
  sf_at_least M300 (-44) x ->
  sf_at_least M300 (-44) (SF64add x (S754_finite false m100 (-46))).
Proof.
  intros Hv Hx. destruct x as [s|[]|  |[] m e]; cbn [sf_at_least] in Hx; try contradiction.
  - exact I.
  - destruct (valid_finite_normal _ _ _ Hv ltac:(lia)) as (Hm & _ & _).
    unfold SF64add, SFadd. rewrite Z.min_r by lia.
    destruct (shl_align_shift m e (-46) ltac:(lia)) as [Hs _].
    rewrite (shl_align_keep m100 (-46) (-46)) by lia.
    cbn [fst cond_Zopp].
    set (a := fst (shl_align m e (-46))) in *.
    change (Zpos a + Zpos m100) with (Zpos (a + m100)).
    cbn [binary_normalize].
    apply (binary_round_at_least M300 (-44) 1074); try (unfold M300; lia).
    rewrite Pos2Z.inj_add, Hs.
    change (2 ^ (-44 + 1074)) with (4 * 2 ^ (-46 + 1074)).
    assert (H4 : 4 * M300 <= Zpos m * 2 ^ (e - -46) + Zpos m100).
    { destruct Hx as [He | [He HM]].
      - assert (H8 : 2 ^ 3 <= 2 ^ (e - -46)) by (apply Z.pow_le_mono_r; lia).
        change (2 ^ 3) with 8 in H8. unfold M300. nia.
      - subst e. change (2 ^ (-44 - -46)) with 4. lia. }
    assert (0 < 2 ^ (-46 + 1074)) by (apply pow2_pos; lia).
    nia.
Qed.

(** Dividing a number that is at least 300 by 10000 gives at least 0.0234375. *)
Lemma SFdiv_10000_at_least x :
  valid_binary x = true ->
  sf_at_least M300 (-44) x ->
  sf_at_least Mq (-58) (SF64div x (S754_finite false m10000 (-39))).
Proof.
  intros Hv Hx. destruct x as [s|[]|  |[] m e]; cbn [sf_at_least] in Hx; try contradiction.
  - exact I.
  - destruct (valid_finite_normal _ _ _ Hv ltac:(lia)) as (Hm & Hd & Hhi).
    unfold SF64div, SFdiv, SFdiv_core_binary.
    cbn [Zdigits2]. rewrite Hd.
    change (Zpos (digits2_pos m10000)) with 53.
    assert (He' : Z.min (fexp prec emax (53 + e - (53 + -39))) (e - -39) = e - 14)
      by (unfold fexp, SpecFloat.emin, prec, emax; lia).
    rewrite He'.
    replace (e - -39 - (e - 14)) with 53 by lia.
    rewrite Z.shiftl_mul_pow2 by lia.
    pose proof (Z_div_mod (Zpos m * 2 ^ 53) (Zpos m10000) ltac:(lia)) as Hqr.
    destruct (Z.div_eucl (Zpos m * 2 ^ 53) (Zpos m10000)) as [q r].
    destruct Hqr as [Hq Hr].
    cbn [xorb].
    assert (Hq52 : 2 ^ 52 <= q) by (clear - Hq Hr Hm; unfold m10000 in *; lia).
    apply (binary_round_aux_at_least Mq (-58) 1074); try (unfold Mq; lia).
    replace (e - 14 + 1074) with ((e + 44) + (-58 + 1074)) by lia.
    rewrite (Z.pow_add_r 2 (e + 44) (-58 + 1074)) by lia.
    assert (0 < 2 ^ (-58 + 1074)) by (apply pow2_pos; lia).
    assert (Hgoal : Mq <= q * 2 ^ (e + 44)).
    { destruct Hx as [He | [He HM]].
      - assert (H2 : 2 ^ 1 <= 2 ^ (e + 44)) by (apply Z.pow_le_mono_r; lia).
        change (2 ^ 1) with 2 in H2. unfold Mq. nia.
      - subst e. change (2 ^ (-44 + 44)) with 1. unfold Mq, M300, m10000 in *. lia. }
    nia.
Qed.

(** Multiplying a number that is at least 0.0234375 by 100 gives at least 2.25. *)
Lemma SFmul_100_at_least y :
  valid_binary y = true ->
  sf_at_least Mq (-58) y ->
  sf_at_least Mp (-51) (SF64mul y (S754_finite false m100 (-46))).
Proof.
  intros Hv Hy. destruct y as [s|[]|  |[] m e]; cbn [sf_at_least] in Hy; try contradiction.
  - exact I.
  - destruct (valid_finite_normal _ _ _ Hv ltac:(lia)) as (Hm & Hd & Hhi).
    unfold SF64mul, SFmul. cbn [xorb].
    apply (binary_round_aux_at_least Mp (-51) 1120); try (unfold Mp; lia).
    replace (e + -46 + 1120) with ((e + 58) + 1016) by lia.
    change (-51 + 1120) with (53 + 1016).
    rewrite (Z.pow_add_r 2 (e + 58) 1016), (Z.pow_add_r 2 53 1016) by lia.
    assert (0 < 2 ^ 1016) by (apply pow2_pos; lia).
    assert (Hgoal : Mp * 2 ^ 53 <= Zpos (m * m100) * 2 ^ (e + 58)).
    { rewrite Pos2Z.inj_mul.
      destruct Hy as [He | [He HM]].
      - assert (H2 : 2 ^ 1 <= 2 ^ (e + 58)) by (apply Z.pow_le_mono_r; lia).
        change (2 ^ 1) with 2 in H2. unfold Mp, m100. nia.
      - subst e. change (2 ^ (-58 + 58)) with 1. unfold Mp, Mq, m100 in *. lia. }
    nia.
Qed.

(** A number that is at least 2.25 is above 2. *)
Lemma SFltb_2_at_least z :
  sf_at_least Mp (-51) z ->
  SFltb (S754_finite false m2 (-51)) z = true.
Proof.
  intros Hz. destruct z as [s|[]|  |[] m e]; cbn [sf_at_least] in Hz; try contradiction.
  - reflexivity.
  - unfold SFltb, SFcompare.
    destruct Hz as [He | [He HM]].
    + destruct (Z.compare_spec (-51) e); first [reflexivity | lia].
    + subst e. cbn [Z.compare Pos.compare]. 
      assert (Hlt : (m2 < m)%positive) by (unfold Mp, m2 in *; lia).
      apply Pos.compare_lt_iff in Hlt. unfold Pos.compare in Hlt. now rewrite Hlt.
Qed.

(** *** The same bounds on primitive floats *)

Local Open Scope float_scope.

Lemma at_least_300 : at_least M300 (-44) 300.
Proof. unfold at_least. vm_compute. right. split; [reflexivity | discriminate]. Qed.

Lemma add_100_at_least x : at_least M300 (-44) x -> at_least M300 (-44) (x + 100).
Proof.
  unfold at_least. intros Hx. rewrite add_spec.
  change (Prim2SF 100) with (S754_finite false m100 (-46)).
  apply SFadd_100_at_least; [apply Prim2SF_valid | exact Hx].
Qed.

Lemma percent_of_10000_gt_2 x :
  at_least M300 (-44) x -> (2 <? x / 10000 * 100) = true.
Proof.
  unfold at_least. intros Hx.
  rewrite ltb_spec, mul_spec.
  change (Prim2SF 100) with (S754_finite false m100 (-46)).
  change (Prim2SF 2) with (S754_finite false m2 (-51)).
  apply SFltb_2_at_least.
  apply SFmul_100_at_least; [apply Prim2SF_valid|].
  rewrite div_spec.
  change (Prim2SF 10000) with (S754_finite false m10000 (-39)).
  apply SFdiv_10000_at_least; [apply Prim2SF_valid | exact Hx].
Qed.

End Rounding.

(** ** The risk policy engine *)

Import Float64 Risk Samples.

Section RiskEngine.
Variable sprintf_f2 : float -> string.
Local Open Scope float_scope.

(** C1.  The validation of one candidate runs its three checks (position
    risk above [maxPositionSizePercent], POP below [minProbabilityOfProfit],
    reward to risk below 0.33) one after the other, none skipping the next:
    [Violations] holds the reason of every check that fires, in that order,
    [IsValid] is true exactly when [Violations] is empty, and a candidate
    whose POP is below the minimum is invalid and carries the POP reason. *)
Theorem ValidateTrade_reports_every_violation
    (rm : RiskManager) (trade : TradeRecommendation) (portfolio : gmap string iface) :
  let v := ValidateTrade sprintf_f2 rm trade portfolio in
  let positionRiskPercent :=
    math_Abs (MaxLoss trade) / portfolio_total_value portfolio * 100 in
  let riskRewardRatio := MaxProfit trade / math_Abs (MaxLoss trade) in
  let position_reason :=
    position_risk_msg sprintf_f2 positionRiskPercent (maxPositionSizePercent rm) in
  let pop_reason :=
    pop_msg sprintf_f2 (POP trade * 100) (minProbabilityOfProfit rm * 100) in
  let ratio_reason := risk_reward_msg sprintf_f2 riskRewardRatio in
  Violations v =
    ((if gtb positionRiskPercent (maxPositionSizePercent rm) then [position_reason] else [])
     ++ (if POP trade <? minProbabilityOfProfit rm then [pop_reason] else [])
     ++ (if riskRewardRatio <? 0.33 then [ratio_reason] else []))%list
  /\ (IsValid v = true <-> Violations v = [])
  /\ ((POP trade <? minProbabilityOfProfit rm) = true ->
      IsValid v = false /\ In pop_reason (Violations v)).
Proof.
  cbv zeta. unfold ValidateTrade.
  destruct (gtb _ (maxPositionSizePercent rm));
    destruct (POP trade <? minProbabilityOfProfit rm);
    destruct (_ <? 0.33);
    cbn; (split; [reflexivity | split; [split; intros; congruence |]]);
    intros H; try discriminate H; split; auto.
Qed.

(** C9.  [ValidateTrade] copies [requireManualApproval] into
    [RequiresApproval]; [ValidatePortfolio] never sets the field, so a basket
    validation reports [RequiresApproval = false] even under the default
    configuration, whose flag is true. *)
Theorem RequiresApproval_basket_unset
    (range_order : list (string * float) -> list (string * float)) :
  (forall rm trade portfolio,
      RequiresApproval (ValidateTrade sprintf_f2 rm trade portfolio)
      = requireManualApproval rm)
  /\ (forall rm trades portfolio,
      RequiresApproval (ValidatePortfolio sprintf_f2 range_order rm trades portfolio)
      = false)
  /\ requireManualApproval NewRiskManager = true
  /\ RequiresApproval (ValidatePortfolio sprintf_f2 range_order NewRiskManager [] ∅)
     <> requireManualApproval NewRiskManager.
Proof.
  assert (Hfold : forall rm pv entries v,
             RequiresApproval (fold_left (check_concentration sprintf_f2 rm pv) entries v)
             = RequiresApproval v).
  { intros rm pv entries. induction entries as [|[symbol risk] entries IH]; intros v.
    - reflexivity.
    - cbn [fold_left]. rewrite IH. unfold check_concentration.
      destruct (gtb _ _); reflexivity. }
  assert (Hbasket : forall rm trades portfolio,
             RequiresApproval (ValidatePortfolio sprintf_f2 range_order rm trades portfolio)
             = false).
  { intros rm trades portfolio. unfold ValidatePortfolio.
    destruct (fold_left _ trades _) as [totalRisk symbolRisk].
    rewrite Hfold. destruct (gtb _ _); reflexivity. }
  repeat split.
  - intros rm trade portfolio. unfold ValidateTrade.
    destruct (gtb _ _); destruct (POP trade <? _); destruct (_ <? 0.33); reflexivity.
  - exact Hbasket.
  - rewrite Hbasket. discriminate.
Qed.

End RiskEngine.

Local Open Scope float_scope.

(** NaN absorbs every addition. *)
Lemma add_nan_r x : x + nan = nan.
Proof.
  apply Prim2SF_inj. rewrite add_spec. change (Prim2SF nan) with S754_nan.
  unfold SF64add, SFadd. destruct (Prim2SF x) as [| | |]; reflexivity.
Qed.

Lemma add_nan_l y : nan + y = nan.
Proof.
  apply Prim2SF_inj. rewrite add_spec. change (Prim2SF nan) with S754_nan. reflexivity.
Qed.

(** Without a loss and without a profit the reward to risk ratio is 0/0 and
    the score is NaN, whatever the other fields, limits and snapshot. *)
Lemma calculateRiskScore_nan rm trade positionRiskPercent :
  MaxLoss trade = 0 -> MaxProfit trade = 0 ->
  calculateRiskScore rm trade positionRiskPercent = nan.
Proof.
  intros Hloss Hprofit. unfold calculateRiskScore. rewrite Hloss, Hprofit.
  change (1 / (0 / math_Abs 0 + 1) * 20) with nan.
  rewrite add_nan_r, add_nan_l. reflexivity.
Qed.

(** C2.  The risk score is not clamped from below and not guarded against
    NaN: on a candidate with [MaxLoss = 0] and [MaxProfit = 0] the reward to
    risk ratio is 0/0, and the score that [ValidateTrade] returns is NaN,
    which is neither [>= 0] nor [<= 100]. *)
Theorem RiskScore_nan_without_loss (sprintf_f2 : float -> string) :
  let score := RiskScore (ValidateTrade sprintf_f2 NewRiskManager table_candidate ∅) in
  score = nan /\ (0 <=? score)%float = false /\ (score <=? 100)%float = false.
Proof. cbv zeta. unfold ValidateTrade. vm_compute. repeat split. Qed.

Lemma ValidateTrade_reports_every_violation_witness :
  IsValid (ValidateTrade (fun _ => EmptyString) NewRiskManager low_pop_candidate ∅) = false.
Proof.
  exact (proj1 (proj2 (proj2 (ValidateTrade_reports_every_violation
                                (fun _ => EmptyString) NewRiskManager low_pop_candidate ∅))
                 eq_refl)).
Defined.

(** ** Basket validation *)

Import Bounds Rounding.

Section Basket.
Variable sprintf_f2 : float -> string.
Variable range_order : list (string * float) -> list (string * float).
Hypothesis range_order_perm : forall entries, range_order entries ≡ₚ entries.
Local Open Scope float_scope.

Lemma concentration_pass rm pv entries v :
  Forall (fun entry => gtb (snd entry / pv * 100) (maxConcentrationPercent rm) = false)
         entries ->
  fold_left (check_concentration sprintf_f2 rm pv) entries v = v.
Proof.
  induction 1 as [|[symbol risk] entries Hhd _ IH] in v |- *; cbn [fold_left].
  - reflexivity.
  - unfold check_concentration at 2. cbn [snd] in Hhd. rewrite Hhd. apply IH.
Qed.

Lemma concentration_keeps rm pv entries v msg :
  IsValid v = false -> In msg (Violations v) ->
  let v' := fold_left (check_concentration sprintf_f2 rm pv) entries v in
  IsValid v' = false /\ In msg (Violations v').
Proof.
  cbv zeta. induction entries as [|[symbol risk] entries IH] in v |- *; cbn [fold_left].
  - auto.
  - intros Hv Hin. apply IH; unfold check_concentration; destruct (gtb _ _); auto.
    cbn. apply in_or_app. auto.
Qed.

Lemma accumulate_risk_total trades totalRisk symbolRisk :
  fst (fold_left accumulate_risk trades (totalRisk, symbolRisk))
  = fold_left (fun total trade => total + math_Abs (MaxLoss trade)) trades totalRisk.
Proof.
  induction trades as [|trade trades IH] in totalRisk, symbolRisk |- *; cbn [fold_left].
  - reflexivity.
  - unfold accumulate_risk at 2. apply IH.
Qed.

Lemma total_of_hundreds_at_least trades total :
  Forall (fun trade => MaxLoss trade = -100) trades ->
  at_least M300 (-44) total ->
  at_least M300 (-44)
    (fold_left (fun total trade => total + math_Abs (MaxLoss trade)) trades total).
Proof.
  induction 1 as [|trade trades Hhd _ IH] in total |- *; cbn [fold_left]; intros Htotal.
  - exact Htotal.
  - apply IH. rewrite Hhd. change (math_Abs (-100)) with 100.
    now apply add_100_at_least.
Qed.

Lemma total_value_10000 (portfolio : gmap string iface) :
  portfolio !! "total_value"%string = Some (IFloat64 10000) ->
  portfolio_total_value portfolio = 10000.
Proof. unfold portfolio_total_value. intros ->. reflexivity. Qed.

(** C8.  A basket of N candidates that each risk 100 ([MaxLoss = -100]),
    validated against a snapshot worth 10,000 under a portfolio-risk limit
    of 2.0 (and the default concentration limit of 10.0): for N <= 2 the
    basket is valid and has no violation (exactly 2% is not above the
    limit); for every N >= 3 it is invalid and carries the portfolio-risk
    reason.  The order in which Go ranges over [symbolRisk] is any
    permutation. *)
Theorem basket_of_hundreds rm trades (portfolio : gmap string iface) :
  maxPortfolioRiskPercent rm = 2 ->
  maxConcentrationPercent rm = 10 ->
  portfolio !! "total_value"%string = Some (IFloat64 10000) ->
  Forall (fun trade => MaxLoss trade = -100) trades ->
  let v := ValidatePortfolio sprintf_f2 range_order rm trades portfolio in
  ((length trades <= 2)%nat -> IsValid v = true /\ Violations v = [])
  /\ ((3 <= length trades)%nat ->
      IsValid v = false
      /\ exists totalRiskPercent,
           gtb totalRiskPercent 2 = true
           /\ In (total_risk_msg sprintf_f2 totalRiskPercent 2) (Violations v)).
Proof.
  intros Hrisk Hconc Hpv Hloss. cbv zeta. unfold ValidatePortfolio.
  rewrite (total_value_10000 _ Hpv), Hrisk.
  split; intros Hlen.
  - assert (Hfold : exists totalRisk symbolRisk,
               fold_left accumulate_risk trades (0, ∅) = (totalRisk, symbolRisk)
               /\ gtb (totalRisk / 10000 * 100) 2 = false
               /\ map_Forall (fun _ risk => gtb (risk / 10000 * 100) 10 = false) symbolRisk).
    { destruct trades as [|t1 [|t2 [|t3 rest]]]; cbn [length] in Hlen; try lia.
      - eexists _, _. split; [reflexivity|]. split; [reflexivity|].
        apply map_Forall_empty.
      - inversion_clear Hloss as [|? ? H1 _].
        cbn [fold_left accumulate_risk]. rewrite H1.
        eexists _, _. split; [reflexivity|]. split; [reflexivity|].
        apply map_Forall_insert_2; [|apply map_Forall_empty].
        rewrite lookup_empty. reflexivity.
      - inversion_clear Hloss as [|? ? H1 Hloss']. inversion_clear Hloss' as [|? ? H2 _].
        cbn [fold_left accumulate_risk]. rewrite H1, H2.
        eexists _, _. split; [reflexivity|]. split; [reflexivity|].
        apply map_Forall_insert_2.
        + rewrite lookup_insert. case_decide; reflexivity.
        + apply map_Forall_insert_2; [|apply map_Forall_empty].
          rewrite lookup_empty. reflexivity. }
    destruct Hfold as (totalRisk & symbolRisk & -> & -> & Hall).
    rewrite concentration_pass; [split; reflexivity|].
    rewrite range_order_perm, Hconc.
    apply map_Forall_to_list in Hall.
    eapply Forall_impl; [exact Hall|]. intros [symbol risk]. auto.
  - pose proof (accumulate_risk_total trades 0 ∅) as Htotal.
    destruct (fold_left accumulate_risk trades (0, ∅)) as [totalRisk symbolRisk].
    cbn [fst] in Htotal.
    assert (Hbig : gtb (totalRisk / 10000 * 100) 2 = true).
    { apply percent_of_10000_gt_2. rewrite Htotal.
      destruct trades as [|t1 [|t2 [|t3 rest]]]; cbn [length] in Hlen; try lia.
      inversion_clear Hloss as [|? ? H1 Hloss']. inversion_clear Hloss' as [|? ? H2 Hloss].
      inversion_clear Hloss as [|? ? H3 Hrest].
      cbn [fold_left]. rewrite H1, H2, H3.
      apply total_of_hundreds_at_least; [exact Hrest|].
      exact at_least_300. }
    rewrite Hbig.
    destruct (concentration_keeps rm 10000 (range_order (map_to_list symbolRisk))
                (add_violation {| IsValid := true; Violations := []; RiskScore := 0;
                                  RequiresApproval := false |}
                   (total_risk_msg sprintf_f2 (totalRisk / 10000 * 100) 2))
                (total_risk_msg sprintf_f2 (totalRisk / 10000 * 100) 2))
      as [Hinvalid Hin]; [reflexivity | cbn; auto |].
    split; [exact Hinvalid|]. eauto.
Qed.
End Basket.

Lemma basket_of_hundreds_witness :
  IsValid (ValidatePortfolio (fun _ => EmptyString) (fun entries => entries) NewRiskManager
             [hundred_loss "SPY"; hundred_loss "QQQ"; hundred_loss "SPY"] portfolio_10000)
  = false
  /\ IsValid (ValidatePortfolio (fun _ => EmptyString) (fun entries => entries) NewRiskManager
                [hundred_loss "SPY"; hundred_loss "SPY"] portfolio_10000)
     = true.
Proof.
  split.
  - apply (basket_of_hundreds (fun _ => EmptyString) (fun entries => entries)
             (fun entries => Permutation_refl entries) NewRiskManager
             [hundred_loss "SPY"; hundred_loss "QQQ"; hundred_loss "SPY"] portfolio_10000);
      [reflexivity | reflexivity | reflexivity | repeat constructor | simpl; lia].
  - apply (basket_of_hundreds (fun _ => EmptyString) (fun entries => entries)
             (fun entries => Permutation_refl entries) NewRiskManager
             [hundred_loss "SPY"; hundred_loss "SPY"] portfolio_10000);
      [reflexivity | reflexivity | reflexivity | repeat constructor | simpl; lia].
Defined.

(** ** Strings through [encoding/json] *)

Section JSONStrings.
Import UTF8.

(** Valid UTF-8 is written and read back as it is. *)
Lemma coerce_valid bs : forall skip, valid skip bs = true -> coerce skip bs = bs.
Proof.
  induction bs as [|c rest IH]; intros skip Hv; [reflexivity|].
  cbn [coerce valid] in *. destruct skip as [|k].
  - destruct (rune_width (c :: rest)) as [|w]; [discriminate|]. now rewrite IH.
  - now rewrite IH.
Qed.

(** A valid encoding is decided by its own bytes, which are all there. *)
Lemma rune_width_prefix bs w :
  rune_width bs = S w ->
  length (firstn (S w) bs) = S w
  /\ forall rest, rune_width (firstn (S w) bs ++ rest) = S w.
Proof.
  unfold rune_width.
  destruct bs as [|c0 [|c1 [|c2 [|c3 bs]]]]; try discriminate;
    repeat match goal with
           | |- context [if ?b then _ else _] => destruct b eqn:?
           end;
    intros [= <-]; try discriminate; (split; [reflexivity|]); intros rest;
    cbn [firstn app];
    repeat match goal with
           | H : ?b = _ |- context [?b] => rewrite H
           end; try reflexivity; cbn [andb]; try reflexivity;
    destruct rest; reflexivity.
Qed.

Lemma coerce_skip bs : forall skip,
  coerce skip bs = (firstn skip bs ++ coerce 0 (skipn skip bs))%list.
Proof.
  induction bs as [|c rest IH]; intros [|k]; try reflexivity.
  cbn [coerce firstn skipn app]. now rewrite IH.
Qed.

Lemma valid_skip bs : forall skip, valid skip bs = valid 0 (skipn skip bs).
Proof.
  induction bs as [|c rest IH]; intros [|k]; try reflexivity.
  cbn [valid skipn]. now rewrite IH.
Qed.

(** What the encoder writes is valid UTF-8. *)
Lemma coerce_is_valid n : forall bs,
  (length bs <= n)%nat -> valid 0 (coerce 0 bs) = true.
Proof.
  induction n as [|n IH]; intros bs Hlen.
  - destruct bs; [reflexivity | cbn in Hlen; lia].
  - destruct bs as [|c rest]; [reflexivity|].
    cbn [coerce]. destruct (rune_width (c :: rest)) as [|w] eqn:Hw.
    + cbn. apply IH. cbn in Hlen; lia.
    + destruct (rune_width_prefix _ _ Hw) as [Hfirst Hsame].
      rewrite coerce_skip.
      set (out := coerce 0 (skipn w rest)).
      assert (Hout : valid 0 out = true).
      { apply IH. rewrite length_skipn. cbn in Hlen. lia. }
      specialize (Hsame out). cbn [firstn app] in *.
      cbn [valid]. rewrite Hsame, valid_skip.
      assert (Hlenw : length (firstn w rest) = w) by (cbn in Hfirst; lia).
      rewrite skipn_app, <- Hlenw at 1.
      rewrite skipn_all. cbn [app].
      replace (w - length (firstn w rest))%nat with 0%nat by lia. exact Hout.
Qed.

Lemma coerce_idempotent bs : coerce 0 (coerce 0 bs) = coerce 0 bs.
Proof. apply coerce_valid. now apply (coerce_is_valid (length bs)). Qed.

Lemma json_string_idempotent s : json_string (json_string s) = json_string s.
Proof.
  unfold json_string.
  now rewrite list_ascii_of_string_of_list_ascii, coerce_idempotent.
Qed.

Lemma json_string_valid s : utf8_ValidString s = true -> json_string s = s.
Proof.
  unfold json_string, utf8_ValidString. intros Hv.
  now rewrite coerce_valid, string_of_list_ascii_of_string.
Qed.

(** Bytes below 128 are valid on their own. *)
Lemma ascii_valid bs :
  forallb (between 0 127) bs = true -> valid 0 bs = true.
Proof.
  induction bs as [|c rest IH]; [reflexivity|].
  cbn [forallb valid rune_width]. intros [Hc Hrest]%andb_true_iff.
  rewrite Hc. cbn [valid]. auto.
Qed.
End JSONStrings.

(** Strings of bytes below 128. *)
Lemma ascii_string_valid s :
  forallb (UTF8.between 0 127) (list_ascii_of_string s) = true ->
  json_string s = s.
Proof. intros Hs. apply json_string_valid, ascii_valid, Hs. Qed.

Lemma ascii_app s t :
  forallb (UTF8.between 0 127) (list_ascii_of_string s) = true ->
  forallb (UTF8.between 0 127) (list_ascii_of_string t) = true ->
  forallb (UTF8.between 0 127) (list_ascii_of_string (s ++ t)) = true.
Proof.
  intros Hs Ht. induction s as [|c s IH]; [exact Ht|].
  change (String c s ++ t)%string with (String c (s ++ t)).
  cbn [list_ascii_of_string forallb] in *.
  apply andb_true_iff in Hs as [Hc Hs]. rewrite Hc. cbn [andb]. auto.
Qed.

Lemma pretty_N_go_ascii x : forall s,
  forallb (UTF8.between 0 127) (list_ascii_of_string s) = true ->
  forallb (UTF8.between 0 127) (list_ascii_of_string (pretty_N_go x s)) = true.
Proof.
  induction (N.lt_wf_0 x) as [x _ IH]; intros s Hs.
  assert (x = 0 \/ 0 < x)%N as [-> | Hpos] by lia.
  - now rewrite pretty_N_go_0.
  - rewrite pretty_N_go_step by exact Hpos.
    apply IH; [now apply N.div_lt|].
    cbn [list_ascii_of_string forallb]. rewrite Hs, andb_true_r.
    unfold pretty_N_char. repeat case_match; reflexivity.
Qed.

Lemma pretty_Z_ascii (z : Z) :
  forallb (UTF8.between 0 127) (list_ascii_of_string (pretty z)) = true.
Proof.
  assert (HN : forall n : N,
             forallb (UTF8.between 0 127) (list_ascii_of_string (pretty n)) = true).
  { intros n. unfold pretty, pretty_N. case_decide; [reflexivity|].
    now apply pretty_N_go_ascii. }
  destruct z as [|p|p]; [reflexivity | apply HN |].
  unfold pretty, pretty_Z. apply (ascii_app "-"); [reflexivity | apply HN].
Qed.

(** ** The performance ledger *)

Import Ledger History.

(** *** Records through [encoding/json] *)

Lemma json_trade_idempotent rec : json_trade (json_trade rec) = json_trade rec.
Proof. unfold json_trade. cbn [Ticker Strategy Legs Thesis POP MaxLoss MaxProfit Score].
  now rewrite !json_string_idempotent.
Qed.

Lemma json_record_idempotent r : json_record (json_record r) = json_record r.
Proof.
  unfold json_record. cbn [ID Timestamp Recommendation Executed ExecutionTime ExitTime ActualProfit Status].
  now rewrite !json_string_idempotent, json_trade_idempotent.
Qed.

Lemma json_entry_idempotent e : json_entry (json_entry e) = json_entry e.
Proof. destruct e as [r|]; [|reflexivity]. cbn [json_entry]. now rewrite json_record_idempotent. Qed.

Lemma json_entries_idempotent es :
  map json_entry (map json_entry es) = map json_entry es.
Proof. rewrite map_map. apply map_ext. intros e. apply json_entry_idempotent. Qed.

Lemma entries_of_fixed w : map json_entry (entries_of w) = entries_of w.
Proof.
  unfold entries_of. destruct (file w); try reflexivity. apply json_entries_idempotent.
Qed.

Lemma fixed_lookup es i r :
  map json_entry es = es -> es !! i = Some (Some r) -> json_record r = r.
Proof.
  intros Hfixed Hi. rewrite <- Hfixed in Hi.
  change (map json_entry es) with (json_entry <$> es) in Hi.
  rewrite list_lookup_fmap in Hi.
  destruct (es !! i) as [[r0|]|] eqn:Hr0; try discriminate.
  cbn [fmap option_fmap option_map json_entry] in Hi. injection Hi as <-.
  apply json_record_idempotent.
Qed.

Lemma fixed_insert es i r :
  map json_entry es = es -> json_record r = r ->
  map json_entry (<[i := Some r]> es) = <[i := Some r]> es.
Proof.
  intros Hes Hr. change (map json_entry) with (fmap (M := list) json_entry).
  rewrite list_fmap_insert. cbn [json_entry]. rewrite Hr. f_equal. exact Hes.
Qed.

Lemma fixed_snoc es r :
  map json_entry es = es ->
  map json_entry (es ++ [Some r]) = (es ++ [Some (json_record r)])%list.
Proof. intros Hes. now rewrite map_app, Hes. Qed.

Lemma entry_encodable_json e : entry_encodable (json_entry e) = entry_encodable e.
Proof. now destruct e. Qed.

Lemma entries_encodable_json es :
  forallb entry_encodable (map json_entry es) = forallb entry_encodable es.
Proof.
  induction es as [|e es IH]; [reflexivity|].
  cbn [map forallb]. now rewrite entry_encodable_json, IH.
Qed.

(** The records that the update calls write read back as they are. *)
Lemma json_mark_executed now r :
  json_record r = r -> json_record (mark_executed now r) = mark_executed now r.
Proof.
  intros Hr. pose proof (f_equal ID Hr) as Hid.
  pose proof (f_equal Recommendation Hr) as Hrec.
  unfold json_record in Hid, Hrec. cbn [ID Timestamp Recommendation Executed ExecutionTime ExitTime ActualProfit Status] in Hid, Hrec.
  unfold json_record, mark_executed. cbn [ID Timestamp Recommendation Executed ExecutionTime ExitTime ActualProfit Status].
  now rewrite Hid, Hrec.
Qed.

Lemma json_mark_unexecuted r :
  json_record r = r -> json_record (mark_unexecuted r) = mark_unexecuted r.
Proof.
  intros Hr. pose proof (f_equal ID Hr) as Hid.
  pose proof (f_equal Recommendation Hr) as Hrec.
  pose proof (f_equal Status Hr) as Hst.
  unfold json_record in Hid, Hrec, Hst. cbn [ID Timestamp Recommendation Executed ExecutionTime ExitTime ActualProfit Status] in Hid, Hrec, Hst.
  unfold json_record, mark_unexecuted. cbn [ID Timestamp Recommendation Executed ExecutionTime ExitTime ActualProfit Status].
  now rewrite Hid, Hrec, Hst.
Qed.

Lemma json_mark_closed now profit r :
  json_record r = r -> json_record (mark_closed now profit r) = mark_closed now profit r.
Proof.
  intros Hr. pose proof (f_equal ID Hr) as Hid.
  pose proof (f_equal Recommendation Hr) as Hrec.
  unfold json_record in Hid, Hrec. cbn [ID Timestamp Recommendation Executed ExecutionTime ExitTime ActualProfit Status] in Hid, Hrec.
  unfold json_record, mark_closed. cbn [ID Timestamp Recommendation Executed ExecutionTime ExitTime ActualProfit Status].
  now rewrite Hid, Hrec.
Qed.

(** *** Where the scan of an update call stops *)

Lemma list_find_cons {A} (P : A -> Prop) `{forall x, Decision (P x)} (x : A) (l : list A) :
  list_find P (x :: l)
  = if decide (P x) then Some (0%nat, x) else prod_map S id <$> list_find P l.
Proof. reflexivity. Qed.

Lemma find_entry_cons recordID (e : option RecommendationRecord) es :
  find_entry recordID (e :: es)
  = match e with
    | None => Some (0%nat, None)
    | Some r =>
        if decide (ID r = recordID) then Some (0%nat, Some r)
        else prod_map S id <$> find_entry recordID es
    end.
Proof. unfold find_entry. rewrite list_find_cons. now destruct e. Qed.

Lemma find_record_cons recordID r records :
  find_record recordID (r :: records)
  = if decide (ID r = recordID) then Some (0%nat, r)
    else prod_map S id <$> find_record recordID records.
Proof. reflexivity. Qed.

Lemma find_entry_found recordID es : forall i rec,
  find_entry recordID es = Some (i, Some rec) ->
  es !! i = Some (Some rec)
  /\ find_record recordID (omap id es) = Some (i, rec)
  /\ forall r, omap id (<[i := Some r]> es) = <[i := r]> (omap id es).
Proof.
  induction es as [|e es IH]; intros i rec; [discriminate|].
  rewrite find_entry_cons. destruct e as [r0|]; [|discriminate].
  change (omap id (Some r0 :: es)) with (r0 :: omap id es).
  rewrite find_record_cons.
  destruct (decide (ID r0 = recordID)) as [Hid | Hid].
  - intros [= <- <-]. auto.
  - destruct (find_entry recordID es) as [[j e]|] eqn:Hfind; [|discriminate].
    cbn [fmap option_fmap option_map prod_map id]. intros [= <- ->].
    destruct (IH j rec eq_refl) as (Hj & Hrec & Hins).
    split; [exact Hj|]. rewrite Hrec. split; [reflexivity|].
    intros r. cbn [insert list_insert].
    change (omap id (Some r0 :: <[j := Some r]> es)) with (r0 :: omap id (<[j := Some r]> es)).
    now rewrite Hins.
Qed.

Lemma find_entry_missing recordID es :
  find_entry recordID es = None ->
  es = map Some (omap id es) /\ find_record recordID (omap id es) = None.
Proof.
  induction es as [|e es IH]; [auto|].
  rewrite find_entry_cons. destruct e as [r0|]; [|discriminate].
  change (omap id (Some r0 :: es)) with (r0 :: omap id es).
  rewrite find_record_cons.
  destruct (decide (ID r0 = recordID)) as [Hid | Hid]; [discriminate|].
  destruct (find_entry recordID es) as [[j e]|] eqn:Hfind; [discriminate|].
  intros _. destruct (IH eq_refl) as [Hes Hnone].
  rewrite Hnone. cbn [map]. split; [now rewrite <- Hes | reflexivity].
Qed.

Lemma find_entry_nil recordID es : forall i,
  find_entry recordID es = Some (i, None) -> es !! i = Some None.
Proof.
  induction es as [|e es IH]; intros i; [discriminate|].
  rewrite find_entry_cons. destruct e as [r0|]; [|now intros [= <-]].
  destruct (decide (ID r0 = recordID)); [discriminate|].
  destruct (find_entry recordID es) as [[j e]|] eqn:Hfind; [|discriminate].
  cbn [fmap option_fmap option_map prod_map id]. intros [= <- ->]. now apply IH.
Qed.

Lemma find_entry_records recordID records :
  find_entry recordID (map Some records)
  = prod_map id Some <$> find_record recordID records.
Proof.
  induction records as [|r records IH]; [reflexivity|].
  cbn [map]. rewrite find_entry_cons, find_record_cons.
  destruct (decide (ID r = recordID)); [reflexivity|].
  rewrite IH. now destruct (find_record recordID records) as [[j r']|].
Qed.

Lemma omap_Some {A} (xs : list A) : omap id (map Some xs) = xs.
Proof. induction xs as [|x xs IH]; [reflexivity|]. cbn. now rewrite IH. Qed.

Lemma forallb_insert {A} (p : A -> bool) (xs : list A) (i : nat) (x : A) :
  forallb p xs = true -> p x = true -> forallb p (<[i := x]> xs) = true.
Proof.
  revert i. induction xs as [|y xs IH]; intros i Hxs Hx; [reflexivity|].
  cbn [forallb] in Hxs. apply andb_true_iff in Hxs as [Hy Hxs].
  destruct i as [|i]; cbn; apply andb_true_iff; auto.
Qed.

Lemma forallb_lookup {A} (p : A -> bool) (xs : list A) (i : nat) (x : A) :
  forallb p xs = true -> xs !! i = Some x -> p x = true.
Proof.
  revert i. induction xs as [|y xs IH]; intros i Hxs Hi; [discriminate|].
  cbn [forallb] in Hxs. apply andb_true_iff in Hxs as [Hy Hxs].
  destruct i as [|i]; cbn in Hi; [congruence | eauto].
Qed.

Section LedgerFacts.
Variable clock : nat -> Time.

(** *** The calls, on the entries that the file reads as *)

Lemma loadRecords_loads w :
  loads w = true -> loadRecords w = (Ok (entries_of w), w).
Proof. unfold loads, loadRecords, entries_of. now destruct (file w). Qed.

Lemma loadRecords_fails w :
  loads w = false -> exists e, loadRecords w = (Err e, w) /\ entries_of w = [].
Proof. unfold loads, loadRecords, entries_of. destruct (file w); try discriminate; eauto. Qed.

Lemma saveRecords_fixed es w :
  map json_entry es = es ->
  saveRecords es w
  = if forallb entry_encodable es
    then (Ok tt, {| file := FileJSON es; ticks := ticks w |})
    else (Err ErrMarshal, w).
Proof. intros Hes. unfold saveRecords. now rewrite Hes. Qed.

Lemma entries_of_saved es t :
  map json_entry es = es -> entries_of {| file := FileJSON es; ticks := t |} = es.
Proof. intros Hes. exact Hes. Qed.

Lemma UpdateExecution_eq recordID executed w :
  loads w = true ->
  UpdateExecution clock recordID executed w
  = match find_entry recordID (entries_of w) with
    | Some (i, Some rec) =>
        if executed
        then saveRecords (<[i := Some (mark_executed (clock (ticks w)) rec)]> (entries_of w))
               {| file := file w; ticks := S (ticks w) |}
        else saveRecords (<[i := Some (mark_unexecuted rec)]> (entries_of w)) w
    | Some (_, None) => (Panic, w)
    | None => saveRecords (entries_of w) w
    end.
Proof.
  intros Hw. unfold UpdateExecution, bind. rewrite (loadRecords_loads w Hw).
  destruct (find_entry recordID (entries_of w)) as [[i [rec|]]|]; try reflexivity.
  now destruct executed.
Qed.

Lemma UpdateTradeResult_eq recordID profit w :
  loads w = true ->
  UpdateTradeResult clock recordID profit w
  = match find_entry recordID (entries_of w) with
    | Some (i, Some rec) =>
        saveRecords (<[i := Some (mark_closed (clock (ticks w)) profit rec)]> (entries_of w))
          {| file := file w; ticks := S (ticks w) |}
    | Some (_, None) => (Panic, w)
    | None => saveRecords (entries_of w) w
    end.
Proof.
  intros Hw. unfold UpdateTradeResult, bind. rewrite (loadRecords_loads w Hw).
  now destruct (find_entry recordID (entries_of w)) as [[i [rec|]]|].
Qed.

Lemma RecordRecommendation_eq rec w :
  loads w = true ->
  let record :=
    {| ID := ("rec_" ++ pretty (Unix (clock (ticks w))) ++ "_"
              ++ pretty (Nanosecond (clock (S (ticks w)))))%string;
       Timestamp := clock (S (S (ticks w)));
       Recommendation := rec;
       Executed := false; ExecutionTime := None; ExitTime := None;
       ActualProfit := None; Status := "pending" |} in
  let w3 := {| file := file w; ticks := S (S (S (ticks w))) |} in
  RecordRecommendation clock rec w
  = if forallb entry_encodable (entries_of w) && trade_encodable rec
    then (Ok record,
          {| file := FileJSON (entries_of w ++ [Some (json_record record)]);
             ticks := S (S (S (ticks w))) |})
    else (Err ErrMarshal, w3).
Proof.
  intros Hw. cbv zeta.
  unfold RecordRecommendation, generateRecordID, bind, time_Now, ret. cbn [file ticks].
  set (w3 := {| file := file w; ticks := S (S (S (ticks w))) |}).
  assert (Hload : loadRecords w3 = (Ok (entries_of w), w3))
    by exact (loadRecords_loads w3 Hw).
  rewrite Hload. unfold saveRecords.
  rewrite forallb_app. cbn [forallb entry_encodable]. unfold record_encodable at 1.
  cbn [Recommendation ActualProfit]. rewrite !andb_true_r.
  destruct (forallb entry_encodable (entries_of w) && trade_encodable rec); [|reflexivity].
  now rewrite fixed_snoc by apply entries_of_fixed.
Qed.
(** *** What the calls leave on file *)

Lemma entries_of_save es w :
  entries_of (snd (saveRecords es w))
  = if forallb entry_encodable es then map json_entry es else entries_of w.
Proof.
  unfold saveRecords. destruct (forallb entry_encodable es); [|reflexivity].
  apply json_entries_idempotent.
Qed.

Lemma loads_save es w : loads w = true -> loads (snd (saveRecords es w)) = true.
Proof. unfold saveRecords. now destruct (forallb entry_encodable es). Qed.

Lemma found_fixed recordID w i rec :
  find_entry recordID (entries_of w) = Some (i, Some rec) -> json_record rec = rec.
Proof.
  intros Hfind. apply find_entry_found in Hfind as (Hi & _).
  exact (fixed_lookup _ _ _ (entries_of_fixed w) Hi).
Qed.

(** The entries on file after each call, on any world: as they were, or
    with the one change of the call. *)
Lemma UpdateExecution_any recordID executed w :
  entries_of (exec clock (OpUpdateExecution recordID executed) w) = entries_of w
  \/ exists i rec,
       find_entry recordID (entries_of w) = Some (i, Some rec)
       /\ entries_of (exec clock (OpUpdateExecution recordID executed) w)
          = <[i := Some (if executed then mark_executed (clock (ticks w)) rec
                         else mark_unexecuted rec)]> (entries_of w).
Proof.
  cbn [exec]. destruct (loads w) eqn:Hw.
  - rewrite (UpdateExecution_eq _ _ _ Hw).
    destruct (find_entry recordID (entries_of w)) as [[i [rec|]]|] eqn:Hfind.
    + pose proof (found_fixed _ _ _ _ Hfind) as Hrec.
      destruct executed; rewrite entries_of_save;
        match goal with |- context [forallb entry_encodable ?l] =>
          destruct (forallb entry_encodable l) end; auto;
        right; exists i, rec; (split; [reflexivity|]);
        apply fixed_insert; auto using entries_of_fixed, json_mark_executed,
          json_mark_unexecuted.
    + now left.
    + left. rewrite entries_of_save.
      destruct (forallb _ _); [apply entries_of_fixed | reflexivity].
  - left. destruct (loadRecords_fails w Hw) as (e & Hload & _).
    unfold UpdateExecution, bind. now rewrite Hload.
Qed.

Lemma UpdateTradeResult_any recordID profit w :
  entries_of (exec clock (OpUpdateTradeResult recordID profit) w) = entries_of w
  \/ exists i rec,
       find_entry recordID (entries_of w) = Some (i, Some rec)
       /\ json_encodable profit = true
       /\ entries_of (exec clock (OpUpdateTradeResult recordID profit) w)
          = <[i := Some (mark_closed (clock (ticks w)) profit rec)]> (entries_of w).
Proof.
  cbn [exec]. destruct (loads w) eqn:Hw.
  - rewrite (UpdateTradeResult_eq _ _ _ Hw).
    destruct (find_entry recordID (entries_of w)) as [[i [rec|]]|] eqn:Hfind.
    + pose proof (found_fixed _ _ _ _ Hfind) as Hrec.
      apply find_entry_found in Hfind as (Hi & _).
      rewrite entries_of_save.
      match goal with |- context [forallb entry_encodable ?l] =>
        destruct (forallb entry_encodable l) eqn:Hall end; auto.
      right. exists i, rec. split; [reflexivity|]. split.
      * apply (forallb_lookup _ _ i (Some (mark_closed (clock (ticks w)) profit rec)))
          in Hall; [|apply list_lookup_insert_eq; eapply lookup_lt_Some; eauto].
        unfold entry_encodable, record_encodable in Hall.
        cbn [mark_closed ActualProfit] in Hall. now apply andb_true_iff in Hall as [_ ?].
      * apply fixed_insert; auto using entries_of_fixed, json_mark_closed.
    + now left.
    + left. rewrite entries_of_save.
      destruct (forallb _ _); [apply entries_of_fixed | reflexivity].
  - left. destruct (loadRecords_fails w Hw) as (e & Hload & _).
    unfold UpdateTradeResult, bind. now rewrite Hload.
Qed.

Lemma RecordRecommendation_any rec w :
  entries_of (exec clock (OpRecordRecommendation rec) w) = entries_of w
  \/ exists record,
       entries_of (exec clock (OpRecordRecommendation rec) w)
       = (entries_of w ++ [Some record])%list
       /\ record_encodable record = true /\ json_record record = record
       /\ Recommendation record = json_trade rec /\ Status record = "pending"%string
       /\ Executed record = false /\ ExecutionTime record = None
       /\ ExitTime record = None /\ ActualProfit record = None.
Proof.
  cbn [exec]. destruct (loads w) eqn:Hw.
  - pose proof (RecordRecommendation_eq rec w Hw) as Heq. cbv zeta in Heq. rewrite Heq.
    destruct (forallb entry_encodable (entries_of w) && trade_encodable rec) eqn:Hall;
      [|now left].
    right. eexists. split.
    + cbn [snd]. apply entries_of_saved. rewrite fixed_snoc by apply entries_of_fixed.
      now rewrite json_record_idempotent.
    + apply andb_true_iff in Hall as [_ Hrec].
      split.
      { change (record_encodable (json_record ?r)) with (record_encodable r).
        unfold record_encodable. cbn [Recommendation ActualProfit].
        now rewrite Hrec. }
      split; [apply json_record_idempotent|].
      unfold json_record.
      cbn [ID Timestamp Recommendation Executed ExecutionTime ExitTime ActualProfit Status].
      auto 10.
  - left. destruct (loadRecords_fails w Hw) as (e & Hload & _).
    unfold RecordRecommendation, generateRecordID, bind, time_Now, ret.
    cbn [file ticks].
    assert (Hload3 : loadRecords {| file := file w; ticks := S (S (S (ticks w))) |}
                     = (Err e, {| file := file w; ticks := S (S (S (ticks w))) |})).
    { unfold loadRecords in *. cbn [file]. destruct (file w); congruence. }
    now rewrite Hload3.
Qed.

(** The same on the records. *)
Lemma UpdateExecution_records_any recordID executed w :
  records_of (exec clock (OpUpdateExecution recordID executed) w) = records_of w
  \/ exists i rec,
       find_record recordID (records_of w) = Some (i, rec)
       /\ records_of (exec clock (OpUpdateExecution recordID executed) w)
          = <[i := if executed then mark_executed (clock (ticks w)) rec
                   else mark_unexecuted rec]> (records_of w).
Proof.
  unfold records_of.
  destruct (UpdateExecution_any recordID executed w) as [-> | (i & rec & Hfind & ->)];
    [now left|].
  right. exists i, rec. apply find_entry_found in Hfind as (_ & Hrec & Hins). auto.
Qed.

Lemma UpdateTradeResult_records_any recordID profit w :
  records_of (exec clock (OpUpdateTradeResult recordID profit) w) = records_of w
  \/ exists i rec,
       find_record recordID (records_of w) = Some (i, rec)
       /\ json_encodable profit = true
       /\ records_of (exec clock (OpUpdateTradeResult recordID profit) w)
          = <[i := mark_closed (clock (ticks w)) profit rec]> (records_of w).
Proof.
  unfold records_of.
  destruct (UpdateTradeResult_any recordID profit w)
    as [-> | (i & rec & Hfind & Hp & ->)]; [now left|].
  right. exists i, rec. apply find_entry_found in Hfind as (_ & Hrec & Hins). auto.
Qed.

Lemma omap_snoc (es : list (option RecommendationRecord)) r : omap id (es ++ [Some r]) = (omap id es ++ [r])%list.
Proof. induction es as [|[r0|] es IH]; cbn; [reflexivity | now rewrite IH | exact IH]. Qed.

Lemma RecordRecommendation_records_any rec w :
  records_of (exec clock (OpRecordRecommendation rec) w) = records_of w
  \/ exists record,
       records_of (exec clock (OpRecordRecommendation rec) w)
       = (records_of w ++ [record])%list
       /\ record_encodable record = true /\ json_record record = record
       /\ Recommendation record = json_trade rec /\ Status record = "pending"%string
       /\ Executed record = false /\ ExecutionTime record = None
       /\ ExitTime record = None /\ ActualProfit record = None.
Proof.
  unfold records_of.
  destruct (RecordRecommendation_any rec w) as [-> | (record & -> & Hrest)]; [now left|].
  right. exists record. split; [apply omap_snoc | exact Hrest].
Qed.

(** *** Ledgers without nil entries *)

Lemma healthy_spec w :
  healthy w = true ->
  loads w = true
  /\ entries_of w = map Some (records_of w)
  /\ forallb record_encodable (records_of w) = true
  /\ forallb entry_encodable (entries_of w) = true.
Proof.
  unfold healthy, loads, records_of, entries_of.
  destruct (file w) as [|es| |]; try discriminate; [intros _; cbn; auto|].
  intros Hes. split; [reflexivity|].
  induction es as [|[r|] es IH]; cbn in *; [auto | | discriminate].
  apply andb_true_iff in Hes as [Hr Hes]. destruct (IH Hes) as (H1 & H2 & H3).
  rewrite <- H1, H2, H3.
  change (record_encodable (json_record r)) with (record_encodable r). rewrite Hr. auto.
Qed.

Lemma records_of_fixed w : map json_record (records_of w) = records_of w.
Proof.
  unfold records_of. pose proof (entries_of_fixed w) as Hfixed.
  induction (entries_of w) as [|[r|] es IH]; cbn in *; [reflexivity | |].
  - injection Hfixed as Hr Hes. now rewrite Hr, IH.
  - injection Hfixed as Hes. auto.
Qed.

Lemma entries_of_records records t :
  map json_record records = records ->
  entries_of {| file := FileJSON (map Some records); ticks := t |} = map Some records.
Proof.
  intros Hfixed. unfold entries_of. cbn [file]. rewrite map_map. cbn [json_entry].
  rewrite <- Hfixed at 2. now rewrite map_map.
Qed.

Lemma records_of_records records t :
  map json_record records = records ->
  records_of {| file := FileJSON (map Some records); ticks := t |} = records.
Proof.
  intros Hfixed. unfold records_of. rewrite entries_of_records by exact Hfixed.
  apply omap_Some.
Qed.

Lemma healthy_records records t :
  forallb record_encodable records = true ->
  healthy {| file := FileJSON (map Some records); ticks := t |} = true.
Proof.
  unfold healthy. cbn [file]. induction records as [|r records IH]; [reflexivity|].
  cbn [map forallb]. intros [Hr Hrest]%andb_true_iff. now rewrite Hr, IH.
Qed.

Lemma insert_Some {A} (xs : list A) i x :
  <[i := Some x]> (map Some xs) = map Some (<[i := x]> xs).
Proof.
  change (map Some) with (fmap (M := list) (@Some A)). now rewrite list_fmap_insert.
Qed.

Lemma fixed_records_insert records i r :
  map json_record records = records -> json_record r = r ->
  map json_record (<[i := r]> records) = <[i := r]> records.
Proof.
  intros Hfixed Hr. change (map json_record) with (fmap (M := list) json_record).
  rewrite list_fmap_insert, Hr. f_equal. exact Hfixed.
Qed.

Lemma fixed_records_lookup records i r :
  map json_record records = records -> records !! i = Some r -> json_record r = r.
Proof.
  intros Hfixed Hi. rewrite <- Hfixed in Hi.
  change (map json_record records) with (json_record <$> records) in Hi.
  rewrite list_lookup_fmap in Hi. destruct (records !! i) eqn:Hr; [|discriminate].
  cbn in Hi. injection Hi as <-. apply json_record_idempotent.
Qed.

(** What the two update calls return and leave on disk, on a ledger that
    loads without nil entries and marshals. *)
Lemma UpdateExecution_healthy recordID executed w :
  healthy w = true ->
  UpdateExecution clock recordID executed w
  = match find_record recordID (records_of w) with
    | Some (i, rec) =>
        (Ok tt,
         {| file := FileJSON (map Some (<[i := if executed
                                               then mark_executed (clock (ticks w)) rec
                                               else mark_unexecuted rec]> (records_of w)));
            ticks := if executed then S (ticks w) else ticks w |})
    | None => (Ok tt, {| file := FileJSON (map Some (records_of w)); ticks := ticks w |})
    end.
Proof.
  intros Hw. destruct (healthy_spec w Hw) as (Hloads & Hes & Henc & Henc').
  rewrite (UpdateExecution_eq _ _ _ Hloads), Hes, find_entry_records.
  pose proof (records_of_fixed w) as Hfixed.
  destruct (find_record recordID (records_of w)) as [[i rec]|] eqn:Hfind;
    cbn [fmap option_fmap option_map prod_map id fst snd].
  - apply list_find_Some in Hfind as (Hi & _ & _).
    pose proof (forallb_lookup _ _ _ _ Henc Hi) as Hrec.
    pose proof (fixed_records_lookup _ _ _ Hfixed Hi) as Hfix.
    destruct executed; rewrite insert_Some, saveRecords_fixed.
    + rewrite <- insert_Some, forallb_insert; [reflexivity | now rewrite <- Hes |exact Hrec].
    + rewrite <- insert_Some, <- Hes. apply fixed_insert;
        [apply entries_of_fixed | now apply json_mark_executed].
    + rewrite <- insert_Some, forallb_insert; [reflexivity | now rewrite <- Hes |exact Hrec].
    + rewrite <- insert_Some, <- Hes. apply fixed_insert;
        [apply entries_of_fixed | now apply json_mark_unexecuted].
  - rewrite <- Hes, saveRecords_fixed by apply entries_of_fixed. now rewrite Henc'.
Qed.

Lemma UpdateTradeResult_healthy recordID profit w :
  healthy w = true ->
  UpdateTradeResult clock recordID profit w
  = match find_record recordID (records_of w) with
    | Some (i, rec) =>
        if json_encodable profit
        then (Ok tt,
              {| file := FileJSON (map Some (<[i := mark_closed (clock (ticks w)) profit rec]>
                                               (records_of w)));
                 ticks := S (ticks w) |})
        else (Err ErrMarshal, {| file := file w; ticks := S (ticks w) |})
    | None => (Ok tt, {| file := FileJSON (map Some (records_of w)); ticks := ticks w |})
    end.
Proof.
  intros Hw. destruct (healthy_spec w Hw) as (Hloads & Hes & Henc & Henc').
  rewrite (UpdateTradeResult_eq _ _ _ Hloads), Hes, find_entry_records.
  pose proof (records_of_fixed w) as Hfixed.
  destruct (find_record recordID (records_of w)) as [[i rec]|] eqn:Hfind;
    cbn [fmap option_fmap option_map prod_map id fst snd].
  - apply list_find_Some in Hfind as (Hi & _ & _).
    pose proof (forallb_lookup _ _ _ _ Henc Hi) as Hrec.
    pose proof (fixed_records_lookup _ _ _ Hfixed Hi) as Hfix.
    rewrite insert_Some, saveRecords_fixed.
    + rewrite <- insert_Some.
      destruct (json_encodable profit) eqn:Hp.
      * rewrite forallb_insert; [reflexivity | now rewrite <- Hes |].
        unfold entry_encodable, record_encodable in *.
        cbn [mark_closed Recommendation ActualProfit].
        apply andb_true_iff in Hrec as [-> _]. exact Hp.
      * destruct (forallb entry_encodable (<[i := _]> (map Some (records_of w))))
          eqn:Hall; [|reflexivity].
        exfalso.
        apply (forallb_lookup _ _ i (Some (mark_closed (clock (ticks w)) profit rec)))
          in Hall.
        -- unfold entry_encodable, record_encodable in Hall.
           cbn [mark_closed Recommendation ActualProfit] in Hall.
           apply andb_true_iff in Hall as [_ Hall]. congruence.
        -- apply list_lookup_insert_eq. rewrite length_map. eapply lookup_lt_Some; eauto.
    + rewrite <- insert_Some, <- Hes. apply fixed_insert;
        [apply entries_of_fixed | now apply json_mark_closed].
  - rewrite <- Hes, saveRecords_fixed by apply entries_of_fixed. now rewrite Henc'.
Qed.
Lemma UpdateExecution_records recordID executed w :
  healthy w = true ->
  records_of (exec clock (OpUpdateExecution recordID executed) w)
  = match find_record recordID (records_of w) with
    | Some (i, rec) =>
        <[i := if executed then mark_executed (clock (ticks w)) rec
               else mark_unexecuted rec]> (records_of w)
    | None => records_of w
    end.
Proof.
  intros Hw. cbn [exec]. rewrite (UpdateExecution_healthy _ _ _ Hw).
  pose proof (records_of_fixed w) as Hfixed.
  destruct (find_record recordID (records_of w)) as [[i rec]|] eqn:Hfind; cbn [snd].
  - apply list_find_Some in Hfind as (Hi & _ & _).
    pose proof (fixed_records_lookup _ _ _ Hfixed Hi) as Hfix.
    apply records_of_records, fixed_records_insert; [exact Hfixed|].
    destruct executed; [now apply json_mark_executed | now apply json_mark_unexecuted].
  - now apply records_of_records.
Qed.

Lemma UpdateTradeResult_records recordID profit w :
  healthy w = true ->
  records_of (exec clock (OpUpdateTradeResult recordID profit) w)
  = match find_record recordID (records_of w) with
    | Some (i, rec) =>
        if json_encodable profit
        then <[i := mark_closed (clock (ticks w)) profit rec]> (records_of w)
        else records_of w
    | None => records_of w
    end.
Proof.
  intros Hw. cbn [exec]. rewrite (UpdateTradeResult_healthy _ _ _ Hw).
  pose proof (records_of_fixed w) as Hfixed.
  destruct (find_record recordID (records_of w)) as [[i rec]|] eqn:Hfind; cbn [snd].
  - apply list_find_Some in Hfind as (Hi & _ & _).
    pose proof (fixed_records_lookup _ _ _ Hfixed Hi) as Hfix.
    destruct (json_encodable profit); cbn [snd]; [|reflexivity].
    apply records_of_records, fixed_records_insert; [exact Hfixed|].
    now apply json_mark_closed.
  - now apply records_of_records.
Qed.

Lemma healthy_exec_update o w :
  is_update o = true -> healthy w = true -> healthy (exec clock o w) = true.
Proof.
  intros Ho Hw. destruct (healthy_spec w Hw) as (_ & _ & Henc & _).
  destruct o as [rec | recordID executed | recordID profit]; [discriminate| |];
    cbn [exec].
  - rewrite (UpdateExecution_healthy _ _ _ Hw).
    destruct (find_record recordID (records_of w)) as [[i rec]|] eqn:Hfind; cbn [snd];
      apply healthy_records; [|exact Henc].
    apply list_find_Some in Hfind as (Hi & _ & _).
    apply forallb_insert; [exact Henc|].
    pose proof (forallb_lookup _ _ _ _ Henc Hi) as Hrec. now destruct executed.
  - rewrite (UpdateTradeResult_healthy _ _ _ Hw).
    destruct (find_record recordID (records_of w)) as [[i rec]|] eqn:Hfind; cbn [snd];
      [|now apply healthy_records].
    apply list_find_Some in Hfind as (Hi & _ & _).
    destruct (json_encodable profit) eqn:Hp; cbn [snd]; [|exact Hw].
    apply healthy_records, forallb_insert; [exact Henc|].
    pose proof (forallb_lookup _ _ _ _ Henc Hi) as Hrec.
    unfold record_encodable in *. cbn [mark_closed Recommendation ActualProfit].
    apply andb_true_iff in Hrec as [-> _]. exact Hp.
Qed.

Lemma healthy_exec_record rec w :
  healthy w = true -> healthy (exec clock (OpRecordRecommendation rec) w) = true.
Proof.
  intros Hw. destruct (healthy_spec w Hw) as (Hloads & Hes & Henc & Henc').
  cbn [exec]. pose proof (RecordRecommendation_eq rec w Hloads) as Heq.
  cbv zeta in Heq. rewrite Heq, Henc'. cbn [andb].
  destruct (trade_encodable rec) eqn:Hrec; cbn [snd]; [|exact Hw].
  rewrite Hes.
  change [Some (json_record ?r)] with (map Some [json_record r]).
  rewrite <- map_app. apply healthy_records.
  rewrite forallb_app, Henc. cbn [forallb].
  change (record_encodable (json_record ?r)) with (record_encodable r).
  unfold record_encodable. cbn [Recommendation ActualProfit]. now rewrite Hrec.
Qed.

Lemma reachable_well_formed w : reachable clock w -> well_formed w.
Proof.
  induction 1 as [|w o _ [Hw Hst]]; [split; [reflexivity | constructor]|].
  split.
  - destruct o; [now apply healthy_exec_record | now apply healthy_exec_update..].
  - destruct o as [rec | recordID executed | recordID profit].
    + destruct (RecordRecommendation_records_any rec w)
        as [-> | (record & -> & _ & _ & _ & Hs & _)]; [exact Hst|].
      apply Forall_app. split; [exact Hst|]. repeat constructor. exact Hs.
    + destruct (UpdateExecution_records_any recordID executed w)
        as [-> | (i & rec & Hfind & ->)]; [exact Hst|].
      apply list_find_Some in Hfind as (Hi & _ & _).
      apply Forall_insert; [exact Hst|].
      destruct executed; [right; left; reflexivity|].
      apply (proj1 (Forall_lookup _ _) Hst i rec Hi).
    + destruct (UpdateTradeResult_records_any recordID profit w)
        as [-> | (i & rec & Hfind & _ & ->)]; [exact Hst|].
      apply Forall_insert; [exact Hst|]. right; right; reflexivity.
Qed.

(** *** Record, then history *)

Lemma RecordRecommendation_ok rec w record w' :
  RecordRecommendation clock rec w = (Ok record, w') ->
  loads w = true
  /\ file w' = FileJSON (entries_of w ++ [Some (json_record record)])
  /\ record
     = {| ID := ("rec_" ++ pretty (Unix (clock (ticks w))) ++ "_"
                 ++ pretty (Nanosecond (clock (S (ticks w)))))%string;
          Timestamp := clock (S (S (ticks w)));
          Recommendation := rec;
          Executed := false; ExecutionTime := None; ExitTime := None;
          ActualProfit := None; Status := "pending" |}.
Proof.
  destruct (loads w) eqn:Hw.
  - pose proof (RecordRecommendation_eq rec w Hw) as Heq. cbv zeta in Heq. rewrite Heq.
    destruct (_ && _); [|discriminate]. intros [= <- <-]. auto.
  - destruct (loadRecords_fails w Hw) as (e & Hload & _).
    unfold RecordRecommendation, generateRecordID, bind, time_Now, ret.
    cbn [file ticks].
    assert (Hload3 : loadRecords {| file := file w; ticks := S (S (S (ticks w))) |}
                     = (Err e, {| file := file w; ticks := S (S (S (ticks w))) |})).
    { unfold loadRecords in *. cbn [file]. destruct (file w); congruence. }
    rewrite Hload3. discriminate.
Qed.

Lemma history_last es r w :
  file w = FileJSON (es ++ [Some r]) ->
  map json_entry es = es -> json_record r = r ->
  GetRecommendationHistory 1 w = (Ok [Some r], w).
Proof.
  intros Hfile Hes Hr. unfold GetRecommendationHistory, bind, loadRecords, ret.
  rewrite Hfile, map_app, Hes. cbn [map json_entry]. rewrite Hr.
  rewrite length_app. cbn [length].
  destruct es as [|e es'].
  - reflexivity.
  - replace ((0 <? 1) && (1 <? Z.of_nat (length (e :: es') + 1)))%Z with true
      by (symmetry; apply andb_true_iff; split; apply Z.ltb_lt; cbn [length]; lia).
    replace (Z.to_nat (Z.of_nat (length (e :: es') + 1) - 1))
      with (length (e :: es')) by lia.
    now rewrite drop_app_length.
Qed.

(** The ids that [generateRecordID] builds are ASCII. *)
Lemma record_id_ascii (t1 t2 : Time) :
  json_string ("rec_" ++ pretty (Unix t1) ++ "_" ++ pretty (Nanosecond t2))%string
  = ("rec_" ++ pretty (Unix t1) ++ "_" ++ pretty (Nanosecond t2))%string.
Proof.
  apply ascii_string_valid.
  apply (ascii_app "rec_"); [reflexivity|].
  apply ascii_app; [apply pretty_Z_ascii|].
  apply (ascii_app "_"); [reflexivity | apply pretty_Z_ascii].
Qed.

Lemma json_trade_valid rec : utf8_trade rec = true -> json_trade rec = rec.
Proof.
  unfold utf8_trade. intros Hv.
  apply andb_true_iff in Hv as [Hv Hthesis]. apply andb_true_iff in Hv as [Hv Hlegs].
  apply andb_true_iff in Hv as [Hticker Hstrategy].
  unfold json_trade. rewrite !json_string_valid by assumption. now destruct rec.
Qed.

(** C7, as amended.  Whenever [RecordRecommendation] returns a record, an
    immediate [GetRecommendationHistory(1)] on the ledger it left returns
    exactly one entry: that record as [encoding/json] stores it, with status
    "pending", [Executed] false and the candidate recorded, every invalid
    UTF-8 byte of its text fields replaced by U+FFFD; this is exactly the
    record returned when the text fields of the candidate are valid UTF-8.
    The call does return a record on every ledger that loads and marshals,
    for every candidate that marshals. *)
Theorem record_then_history rec w :
  (forall record w',
      RecordRecommendation clock rec w = (Ok record, w') ->
      GetRecommendationHistory 1 w' = (Ok [Some (json_record record)], w')
      /\ Status record = "pending"%string
      /\ Executed record = false
      /\ Recommendation record = rec
      /\ (utf8_trade rec = true -> json_record record = record))
  /\ (storable w = true -> trade_encodable rec = true ->
      exists record w', RecordRecommendation clock rec w = (Ok record, w')).
Proof.
  split.
  - intros record w' Hrec.
    destruct (RecordRecommendation_ok _ _ _ _ Hrec) as (Hloads & Hfile & Hshape).
    split.
    { eapply history_last; [exact Hfile | apply entries_of_fixed
                           | apply json_record_idempotent]. }
    rewrite Hshape. cbn [Status Executed Recommendation]. repeat split.
    intros Hvalid. unfold json_record.
    cbn [ID Timestamp Recommendation Executed ExecutionTime ExitTime ActualProfit Status].
    rewrite record_id_ascii, (json_trade_valid _ Hvalid). reflexivity.
  - intros Hw Hrec.
    assert (Hloads : loads w = true /\ forallb entry_encodable (entries_of w) = true).
    { unfold storable, loads, entries_of in *. destruct (file w); try discriminate; auto.
      now rewrite entries_encodable_json. }
    destruct Hloads as [Hloads Henc].
    pose proof (RecordRecommendation_eq rec w Hloads) as Heq. cbv zeta in Heq.
    rewrite Henc, Hrec in Heq. cbn [andb] in Heq. eauto.
Qed.

(** C3, as amended.  In every state reachable from a fresh ledger, no
    record is "expired"; a "closed" record is still "closed" after any
    [UpdateTradeResult] and after any [UpdateExecution] with
    [executed = false], and after [UpdateExecution(id, true)] it is
    "executed" when it is the first record carrying [id] and "closed"
    otherwise. *)
Theorem closed_status_transitions w i r :
  reachable clock w ->
  records_of w !! i = Some r ->
  Status r <> "expired"
  /\ (Status r = "closed" ->
      (forall recordID profit,
          exists r', records_of (exec clock (OpUpdateTradeResult recordID profit) w) !! i
                     = Some r'
                     /\ Status r' = "closed")
      /\ (forall recordID,
          exists r', records_of (exec clock (OpUpdateExecution recordID false) w) !! i
                     = Some r'
                     /\ Status r' = "closed")
      /\ (forall recordID,
          exists r', records_of (exec clock (OpUpdateExecution recordID true) w) !! i
                     = Some r'
                     /\ Status r' =
                        if decide (fst <$> find_record recordID (records_of w) = Some i)
                        then "executed" else "closed")).
Proof.
  intros Hreach Hi.
  destruct (reachable_well_formed w Hreach) as [Hw Hst].
  set (records := records_of w) in *.
  split.
  { destruct (proj1 (Forall_lookup _ _) Hst i r Hi) as [H | [H | H]]; rewrite H; discriminate. }
  intros Hclosed. repeat split.
  - intros recordID profit.
    rewrite (UpdateTradeResult_records recordID profit w Hw). fold records.
    destruct (find_record recordID records) as [[j rec]|] eqn:Hfind; [|eauto].
    destruct (json_encodable profit); [|eauto].
    apply list_find_Some in Hfind as (Hj & _ & _).
    destruct (decide (j = i)) as [-> | Hne].
    + eexists. split; [apply list_lookup_insert_eq; eapply lookup_lt_Some; eauto|].
      reflexivity.
    + exists r. split; [rewrite list_lookup_insert_ne by exact Hne; exact Hi | exact Hclosed].
  - intros recordID.
    rewrite (UpdateExecution_records recordID false w Hw). fold records.
    destruct (find_record recordID records) as [[j rec]|] eqn:Hfind; [|eauto].
    apply list_find_Some in Hfind as (Hj & _ & _).
    destruct (decide (j = i)) as [-> | Hne].
    + eexists. split; [apply list_lookup_insert_eq; eapply lookup_lt_Some; eauto|].
      cbn. congruence.
    + exists r. split; [rewrite list_lookup_insert_ne by exact Hne; exact Hi | exact Hclosed].
  - intros recordID.
    rewrite (UpdateExecution_records recordID true w Hw). fold records.
    destruct (find_record recordID records) as [[j rec]|] eqn:Hfind; cbn [fmap option_fmap option_map fst].
    + apply list_find_Some in Hfind as (Hj & _ & _).
      case_decide as Hji.
      * injection Hji as ->.
        eexists. split; [apply list_lookup_insert_eq; eapply lookup_lt_Some; eauto|].
        reflexivity.
      * exists r. split; [|exact Hclosed].
        rewrite list_lookup_insert_ne; [exact Hi | congruence].
    + case_decide; [discriminate|]. eauto.
Qed.
End LedgerFacts.

(** C3 as stated fails: on [closed_world], [UpdateExecution(first_id, true)]
    turns the closed record into an executed one. *)
Lemma closed_record_reopened : ~ (forall clock, terminal_statuses clock).
Proof.
  intros Hclaim.
  set (w := closed_world).
  assert (Hreach : reachable sample_clock w) by (repeat constructor).
  destruct (records_of w !! 0%nat) as [r|] eqn:Hr; [|vm_compute in Hr; discriminate].
  destruct (records_of (exec sample_clock (OpUpdateExecution first_id true) w) !! 0%nat)
    as [r'|] eqn:Hr'; [|vm_compute in Hr'; discriminate].
  assert (Hclosed : Status r = "closed") by (vm_compute in Hr; now injection Hr as <-).
  assert (Hexecuted : Status r' = "executed") by (vm_compute in Hr'; now injection Hr' as <-).
  pose proof (Hclaim sample_clock w (OpUpdateExecution first_id true) 0%nat r r'
                Hreach eq_refl Hr (or_introl Hclosed) Hr') as Hsame.
  rewrite Hclosed, Hexecuted in Hsame. discriminate.
Qed.

Lemma closed_status_transitions_witness :
  Status closed_unexecuted <> "expired"%string
  /\ exists r',
       records_of (exec sample_clock (OpUpdateExecution first_id true) closed_world) !! 0%nat
       = Some r'
       /\ Status r' = "executed"%string.
Proof.
  destruct (closed_status_transitions sample_clock closed_world 0%nat closed_unexecuted)
    as [Hexpired Hclosed]; [repeat constructor | vm_compute; reflexivity |].
  split; [exact Hexpired|].
  destruct (Hclosed eq_refl) as (_ & _ & Hexec).
  destruct (Hexec first_id) as (r' & Hr' & Hstatus).
  exists r'. split; [exact Hr'|].
  rewrite Hstatus. vm_compute. reflexivity.
Defined.

(** C7 as stated fails: the ticker of [invalid_ticker_candidate] ends in
    the byte 0xFF, which the file holds as U+FFFD, so the entry that the
    history returns is not the record that was returned. *)
Lemma invalid_utf8_not_returned : ~ (forall clock, history_round_trip clock).
Proof.
  intros Hclaim.
  destruct (RecordRecommendation sample_clock invalid_ticker_candidate init)
    as [[record| |] w'] eqn:Hcall; try (vm_compute in Hcall; discriminate).
  pose proof (Hclaim sample_clock invalid_ticker_candidate init record w' Hcall) as Hsame.
  vm_compute in Hcall. injection Hcall as <- <-.
  vm_compute in Hsame. discriminate.
Qed.

Lemma record_then_history_witness :
  exists record w',
    RecordRecommendation sample_clock low_pop_candidate init = (Ok record, w')
    /\ GetRecommendationHistory 1 w' = (Ok [Some record], w').
Proof.
  destruct (record_then_history sample_clock low_pop_candidate init) as [Hhistory Hreturns].
  destruct (Hreturns eq_refl eq_refl) as (record & w' & Hrecord).
  exists record, w'. split; [exact Hrecord|].
  destruct (Hhistory record w' Hrecord) as (Hlast & _ & _ & _ & Hvalid).
  rewrite (Hvalid eq_refl) in Hlast. exact Hlast.
Defined.


(** ** Aggregated statistics *)

Import Metrics.
Local Open Scope float_scope.

Lemma negative_not_positive p : (p <? 0) = true -> gtb p 0 = false.
Proof.
  unfold gtb. rewrite !ltb_spec. change (Prim2SF 0) with (S754_zero false).
  destruct (Prim2SF p) as [s|[]| |[] m e]; cbn; congruence.
Qed.

Lemma count_where_cons p rec records :
  count_where p (rec :: records)
  = ((if p rec then 1 else 0) + count_where p records)%Z.
Proof. unfold count_where, len. cbn [List.filter]. destruct (p rec); cbn [length]; lia. Qed.

Lemma realized_profits_cons rec records :
  realized_profits (rec :: records)
  = (match realized rec with Some p => [p] | None => [] end ++ realized_profits records)%list.
Proof. unfold realized_profits. cbn [omap list_omap]. destruct (realized rec); reflexivity. Qed.

(** The loop of [GetMetrics], from any intermediate state. *)
Lemma count_record_fold records : forall t,
  let t' := fold_left count_record records t in
  t_ExecutedTrades t' = (t_ExecutedTrades t + count_where Executed records)%Z
  /\ t_WinningTrades t'
     = (t_WinningTrades t + count_where (fun rec => Executed rec && is_win rec) records)%Z
  /\ t_LosingTrades t'
     = (t_LosingTrades t + count_where (fun rec => Executed rec && is_loss rec) records)%Z
  /\ t_TotalReturn t' = fold_left add (realized_profits records) (t_TotalReturn t)
  /\ t_returns t' = (t_returns t ++ realized_profits records)%list.
Proof.
  induction records as [|rec records IH]; intros t; cbv zeta.
  - unfold count_where, len, realized_profits. cbn. rewrite app_nil_r. repeat split; lia.
  - cbn [fold_left]. specialize (IH (count_record t rec)). cbv zeta in IH.
    destruct IH as (He & Hw & Hl & Ht & Hr).
    rewrite He, Hw, Hl, Ht, Hr, !count_where_cons, realized_profits_cons.
    unfold count_record, realized, is_win, is_loss.
    destruct (Executed rec); [|cbn; repeat split; lia].
    destruct (ActualProfit rec) as [profit|]; cbn [andb t_ExecutedTrades t_WinningTrades
      t_LosingTrades t_TotalReturn t_returns fold_left app].
    + rewrite <- app_assoc. cbn [app].
      destruct (gtb profit 0) eqn:Hwin.
      * assert (Hloss : (profit <? 0) = false).
        { destruct (profit <? 0) eqn:Hlt; [|reflexivity].
          apply negative_not_positive in Hlt. congruence. }
        rewrite Hloss. repeat split; lia.
      * destruct (profit <? 0); repeat split; lia.
    + repeat split; lia.
Qed.

Lemma realized_profits_filter records :
  realized_profits records = omap ActualProfit (List.filter Executed records).
Proof.
  induction records as [|rec records IH]; [reflexivity|].
  rewrite realized_profits_cons, IH. unfold realized. cbn [List.filter].
  destruct (Executed rec); [|reflexivity].
  cbn [omap list_omap]. destruct (ActualProfit rec); reflexivity.
Qed.

Lemma count_where_ext p q records :
  Forall (fun rec => p rec = q rec) records -> count_where p records = count_where q records.
Proof.
  induction 1 as [|rec records Hhd _ IH]; [reflexivity|].
  rewrite !count_where_cons, Hhd, IH. reflexivity.
Qed.

Lemma closed_profits_filter records :
  profit_iff_closed records ->
  omap ActualProfit (List.filter Executed records)
  = omap ActualProfit (List.filter (fun rec => is_closed rec && Executed rec) records).
Proof.
  induction 1 as [|rec records Hhd _ IH]; [reflexivity|].
  cbn [List.filter]. rewrite <- Hhd. unfold has_profit in *.
  destruct (Executed rec), (ActualProfit rec) eqn:Hp; cbn [andb omap list_omap];
    rewrite ?Hp, IH; reflexivity.
Qed.

(** C4, as amended.  [GetMetrics] counts as winning (losing) the records
    that are marked executed and carry a profit above (below) zero, and adds
    up in record order the profits of the records marked executed; a record
    that is not marked executed is left out, and the status is not looked
    at.  On records whose profit is present exactly when they are closed,
    these are the closed records marked executed.  When [ExecutedTrades] is
    positive, [WinRate = WinningTrades / ExecutedTrades * 100] and
    [AverageReturn = TotalReturn / ExecutedTrades]. *)
Theorem metrics_count_executed_profits records :
  let m := GetMetrics records in
  ExecutedTrades m = count_where Executed records
  /\ WinningTrades m = count_where (fun rec => Executed rec && is_win rec) records
  /\ LosingTrades m = count_where (fun rec => Executed rec && is_loss rec) records
  /\ TotalReturn m = profit_sum Executed records
  /\ ((0 < ExecutedTrades m)%Z ->
      WinRate m = of_int (WinningTrades m) / of_int (ExecutedTrades m) * 100
      /\ AverageReturn m = TotalReturn m / of_int (ExecutedTrades m))
  /\ (profit_iff_closed records ->
      WinningTrades m
      = count_where (fun rec => is_closed rec && Executed rec && is_win rec) records
      /\ LosingTrades m
         = count_where (fun rec => is_closed rec && Executed rec && is_loss rec) records
      /\ TotalReturn m = profit_sum (fun rec => is_closed rec && Executed rec) records).
Proof.
  cbv zeta.
  destruct (count_record_fold records tally_zero) as (He & Hw & Hl & Ht & _).
  cbn [tally_zero t_ExecutedTrades t_WinningTrades t_LosingTrades t_TotalReturn Z.add] in *.
  assert (Hsum : t_TotalReturn (fold_left count_record records tally_zero)
                 = profit_sum Executed records).
  { rewrite Ht. unfold profit_sum, fsum. now rewrite realized_profits_filter. }
  unfold GetMetrics.
  cbn [ExecutedTrades WinningTrades LosingTrades TotalReturn WinRate AverageReturn].
  split; [exact He|]. split; [exact Hw|]. split; [exact Hl|]. split; [exact Hsum|].
  split.
  - intros Hpos. apply Z.ltb_lt in Hpos. rewrite Hpos. split; reflexivity.
  - intros Hinv. repeat split.
    + rewrite Hw. apply count_where_ext.
      eapply Forall_impl; [exact Hinv|]. intros rec Hrec. cbv beta in Hrec.
      rewrite <- Hrec. unfold has_profit, is_win.
      destruct (ActualProfit rec), (Executed rec); reflexivity.
    + rewrite Hl. apply count_where_ext.
      eapply Forall_impl; [exact Hinv|]. intros rec Hrec. cbv beta in Hrec.
      rewrite <- Hrec. unfold has_profit, is_loss.
      destruct (ActualProfit rec), (Executed rec); reflexivity.
    + rewrite Hsum. unfold profit_sum. now rewrite closed_profits_filter.
Qed.

(** C4 as stated fails: the record of [closed_world] is closed with a profit
    of 10 but not marked executed, and [GetMetrics] counts no win. *)
Lemma unexecuted_close_not_counted : ~ closed_counts (records_of closed_world).
Proof.
  intros (Hwins & _). vm_compute in Hwins. discriminate Hwins.
Qed.

Lemma metrics_count_executed_profits_witness :
  WinRate (GetMetrics win_and_loss) = (of_int 1 / of_int 2 * 100)%float
  /\ WinningTrades (GetMetrics win_and_loss) = 1%Z.
Proof.
  pose proof (metrics_count_executed_profits win_and_loss) as H. cbv zeta in H.
  destruct H as (_ & _ & _ & _ & Hrate & Hclosed).
  split.
  - apply Hrate. vm_compute. reflexivity.
  - destruct Hclosed as (-> & _); [repeat constructor | reflexivity].
Defined.

(** 1 and 5040 are binary64 numbers, so their quotient is 1/5040 rounded
    once, which is what the constant expression of the source denotes. *)
Lemma riskFreeRate_exact : riskFreeRate = 1 / 5040.
Proof. reflexivity. Qed.

Lemma fold_left_map_sum {A} (g : A -> float) (xs : list A) (acc : float) :
  fold_left (fun sum x => sum + g x) xs acc = fold_left add (map g xs) acc.
Proof. revert acc. induction xs as [|x xs IH]; intros acc; cbn; [reflexivity | apply IH]. Qed.

Lemma GetMetrics_returns records :
  t_returns (fold_left count_record records tally_zero) = realized_profits records.
Proof. now destruct (count_record_fold records tally_zero) as (_ & _ & _ & _ & ->). Qed.

(** C5.  The guard [stdDev == 0] of [calculateSharpeRatio] compares the
    rounded float64 result of the two-pass loop with 0, and misses sequences
    whose sample standard deviation is 0: the profits 0.1, 0.1, 0.1 have, in
    exact arithmetic, sample variance 0, but their float64 mean is not 0.1,
    the computed deviation is about 1.7e-17, and the Sharpe ratio that
    [GetMetrics] reports is about 9.3e16 instead of 0.  With fewer than two
    profits the ratio is 0, and it is 0 on 10, 10, 10. *)
Theorem sharpe_ratio_of_constant_profits :
  (exists qs,
      exact_all [0.1; 0.1; 0.1] = Some qs
      /\ QArith_base.Qeq (exact_sample_variance qs) (QArith_base.inject_Z 0))
  /\ calculateSharpeRatio [0.1; 0.1; 0.1] = 93212004326352576
  /\ realized_profits three_tenths = [0.1; 0.1; 0.1]
  /\ SharpeRatio (GetMetrics three_tenths) = 93212004326352576
  /\ ~ zero_deviation_gives_zero
  /\ (forall returns, (len returns < 2)%Z -> calculateSharpeRatio returns = 0)
  /\ calculateSharpeRatio [10; 10; 10] = 0.
Proof.
  assert (Hexact : exists qs,
             exact_all [0.1; 0.1; 0.1] = Some qs
             /\ QArith_base.Qeq (exact_sample_variance qs) (QArith_base.inject_Z 0)).
  { eexists. split; [vm_compute; reflexivity|]. vm_compute. reflexivity. }
  split; [exact Hexact|]. split; [vm_compute; reflexivity|].
  split; [reflexivity|]. split; [vm_compute; reflexivity|]. split.
  - intros Hclaim. destruct Hexact as (qs & Hqs & Hzero).
    pose proof (Hclaim [0.1; 0.1; 0.1] qs ltac:(unfold len; cbn; lia) Hqs Hzero) as H.
    vm_compute in H. discriminate.
  - split; [|vm_compute; reflexivity].
    intros returns Hlen. unfold calculateSharpeRatio.
    now replace (len returns <? 2)%Z with true by (symmetry; apply Z.ltb_lt; lia).
Qed.

Lemma drawdown_fold returns : forall cumulative peak maxDrawdown,
  snd (fold_left drawdown_step returns (cumulative, peak, maxDrawdown))
  = fmax_from maxDrawdown
      (zip_with drawdown_at (running_peaks peak (running_sums cumulative returns))
                (running_sums cumulative returns)).
Proof.
  induction returns as [|r returns IH]; intros cumulative peak maxDrawdown.
  - reflexivity.
  - cbn [fold_left running_sums running_peaks zip_with]. unfold drawdown_step at 2.
    rewrite IH. unfold fmax_from. cbn [fold_left]. reflexivity.
Qed.

Lemma calculateMaxDrawdown_spec returns :
  calculateMaxDrawdown returns = max_drawdown_spec returns.
Proof.
  unfold calculateMaxDrawdown, max_drawdown_spec, drawdowns.
  destruct returns as [|r returns]; [reflexivity|].
  change (len (r :: returns) =? 0)%Z with false.
  pose proof (drawdown_fold (r :: returns) 0 0 0) as H.
  destruct (fold_left drawdown_step (r :: returns) (0, 0, 0)) as [[c p] m].
  cbn [snd] in H. now rewrite H.
Qed.

(** C6.  The max drawdown that [GetMetrics] reports is 100 times the
    largest of the step drawdowns (peak - cumulative) / peak, over the
    running cumulative sums of the profits and their running peak (both
    started at 0); on 100, -50, 30 the sums are 100, 50, 80, the peaks
    100, 100, 100, the drawdowns 0, 0.5, 0.2 and the result 50. *)
Theorem max_drawdown_as_specified :
  (forall returns, calculateMaxDrawdown returns = max_drawdown_spec returns)
  /\ (forall records,
        MaxDrawdown (GetMetrics records) = max_drawdown_spec (realized_profits records))
  /\ running_sums 0 [100; -50; 30] = [100; 50; 80]
  /\ running_peaks 0 [100; 50; 80] = [100; 100; 100]
  /\ drawdowns [100; -50; 30] = [0; 0.5; 0.2]
  /\ calculateMaxDrawdown [100; -50; 30] = 50.
Proof.
  split; [exact calculateMaxDrawdown_spec|]. split; [|repeat split; reflexivity].
  intros records. unfold GetMetrics. cbn [MaxDrawdown].
  now rewrite GetMetrics_returns, calculateMaxDrawdown_spec.
Qed.

(** ** The candidate normalizer *)

Import Normalizer.

(** C10.  On the tabular response of the scenario (a header line that
    contains "Ticker", a separator line, one row) the normalizer succeeds
    with exactly one candidate, whose ticker is "SPY" and whose POP is 0.72;
    all that is asked of [fmt.Sscanf] is that it reads "72" as 72, and
    [json.Unmarshal] is never called, the text holding no bracket. *)
Theorem normalizer_recovers_SPY
    (json_Unmarshal : string -> option (list TradeRecommendation))
    (Sscanf_f : string -> option float) :
  Sscanf_f "72"%string = Some 72 ->
  parseRecommendations json_Unmarshal Sscanf_f scenario_text = inl [table_candidate]
  /\ Ticker table_candidate = "SPY"%string
  /\ POP table_candidate = 0.72.
Proof.
  intros Hscan. split; [|split; reflexivity].
  unfold parseRecommendations.
  replace (strings_Index scenario_text "[") with (-1)%Z by (vm_compute; reflexivity).
  cbn [Z.eqb negb andb].
  unfold parseTableFormat.
  replace (strings_Split scenario_text "010"%char)
    with ["Ticker | Strategy | Legs | Thesis | 72%"; "---";
          "SPY | Bull Put Spread | Sell 440P/Buy 435P | strong support | 72%"]%string
    by (vm_compute; reflexivity).
  cbn [fold_left].
  replace (parse_line Sscanf_f (false, []) "Ticker | Strategy | Legs | Thesis | 72%")
    with (true, @nil TradeRecommendation) by (vm_compute; reflexivity).
  replace (parse_line Sscanf_f (true, []) "---")
    with (true, @nil TradeRecommendation) by (vm_compute; reflexivity).
  unfold parse_line.
  replace (strings_TrimSpace
             "SPY | Bull Put Spread | Sell 440P/Buy 435P | strong support | 72%")
    with "SPY | Bull Put Spread | Sell 440P/Buy 435P | strong support | 72%"%string
    by (vm_compute; reflexivity).
  replace (strings_Split
             "SPY | Bull Put Spread | Sell 440P/Buy 435P | strong support | 72%" "|"%char)
    with ["SPY "; " Bull Put Spread "; " Sell 440P/Buy 435P "; " strong support ";
          " 72%"]%string
    by (vm_compute; reflexivity).
  replace (strings_TrimSpace (strings_TrimSuffix (nth 4 [
             "SPY "; " Bull Put Spread "; " Sell 440P/Buy 435P "; " strong support ";
             " 72%"]%string ""%string) "%")) with "72"%string by (vm_compute; reflexivity).
  rewrite Hscan.
  vm_compute. reflexivity.
Qed.

Lemma normalizer_recovers_SPY_witness :
  parseRecommendations (fun _ => None) scan_decimal scenario_text = inl [table_candidate].
Proof.
  apply (normalizer_recovers_SPY (fun _ => None) scan_decimal). vm_compute. reflexivity.
Defined.

(* ===================================================================== *)
(** * Part III: further properties of the code                            *)
(* ===================================================================== *)

(** ** More on the risk engine and the portfolio metrics *)

Section RiskFurther.
Import Float64 Risk Samples Bounds Rounding Signs BasketSums Portfolio.
Close Scope Z_scope.
Local Open Scope float_scope.

(** *** Order facts on binary64, read on the specification *)

Lemma ltb_leb x y : (x <? y) = true -> (x <=? y) = true.
Proof.
  rewrite FloatAxioms.ltb_spec, FloatAxioms.leb_spec. unfold SFltb, SFleb.
  destruct (SFcompare (Prim2SF x) (Prim2SF y)) as [[]|]; congruence.
Qed.

Lemma eqb_leb x y : (x =? y) = true -> (x <=? y) = true.
Proof.
  rewrite FloatAxioms.eqb_spec, FloatAxioms.leb_spec. unfold SFeqb, SFleb.
  destruct (SFcompare (Prim2SF x) (Prim2SF y)) as [[]|]; congruence.
Qed.

(** A number that is not below zero is not above a limit at or over zero... *)
Lemma nonneg_limit_not_below_zero limit : (0 <=? limit) = true -> gtb 0 limit = false.
Proof.
  unfold gtb. rewrite FloatAxioms.leb_spec, FloatAxioms.ltb_spec. change (Prim2SF 0) with (S754_zero false).
  destruct (Prim2SF limit) as [s|[]| |[] m e]; cbn; congruence.
Qed.

(** [math.Min(x, 100)] is NaN or at most 100. *)
Lemma math_Min_100 x : is_nan (math_Min x 100) = true \/ (math_Min x 100 <=? 100) = true.
Proof.
  unfold math_Min.
  destruct (Leibniz.eqb x neg_infinity); [right; reflexivity|].
  change (Leibniz.eqb 100 neg_infinity) with false.
  change (is_nan 100) with false. cbn [orb]. rewrite orb_false_r.
  destruct (is_nan x); [left; reflexivity|].
  destruct (x =? 0) eqn:H0; cbn [andb].
  - destruct (x =? 100) eqn:H100.
    + right. destruct (get_sign x); [now apply eqb_leb | reflexivity].
    + destruct (x <? 100) eqn:Hlt; right; [now apply ltb_leb | reflexivity].
  - destruct (x <? 100) eqn:Hlt; right; [now apply ltb_leb | reflexivity].
Qed.

(** *** Operations on numbers that are not below zero *)

Section SignFacts.
Local Open Scope Z_scope.

(** Rounding a mantissa that is not negative gives [+0], a positive number
    or [+Inf]. *)
Lemma binary_round_aux_nonneg mx ex lx :
  0 <= mx -> sf_nonneg (binary_round_aux prec emax false mx ex lx).
Proof.
  intros Hmx. unfold binary_round_aux, shr_fexp.
  destruct (shr_spec mx lx ex (fexp prec emax (Zdigits2 mx + ex) - ex) Hmx) as [Hm1 _].
  destruct (shr (shr_record_of_loc mx lx) ex (fexp prec emax (Zdigits2 mx + ex) - ex))
    as [mrs1 e1].
  cbn [fst] in Hm1.
  assert (H1 : 0 <= shr_m mrs1).
  { rewrite Hm1. destruct (Z.ltb_spec 0 (fexp prec emax (Zdigits2 mx + ex) - ex));
      [apply Z.div_pos; [lia | apply pow2_pos; lia] | lia]. }
  pose proof (round_nearest_even_range (shr_m mrs1) (loc_of_shr_record mrs1)) as Hr.
  set (r := round_nearest_even (shr_m mrs1) (loc_of_shr_record mrs1)) in *.
  destruct (shr_spec r loc_Exact e1 (fexp prec emax (Zdigits2 r + e1) - e1) ltac:(lia))
    as [Hm2 _].
  destruct (shr (shr_record_of_loc r loc_Exact) e1 (fexp prec emax (Zdigits2 r + e1) - e1))
    as [mrs2 e2].
  cbn [fst] in Hm2.
  assert (H2 : 0 <= shr_m mrs2).
  { rewrite Hm2. destruct (Z.ltb_spec 0 (fexp prec emax (Zdigits2 r + e1) - e1));
      [apply Z.div_pos; [lia | apply pow2_pos; lia] | lia]. }
  destruct (shr_m mrs2) as [|m2|m2]; try lia; [exact I|].
  destruct (e2 <=? emax - prec); exact I.
Qed.

Lemma SFadd_nonneg x y : sf_nonneg x -> sf_nonneg y -> sf_nonneg (SF64add x y).
Proof.
  destruct x as [[]|[]| |[] mx ex], y as [[]|[]| |[] my ey]; cbn; try tauto.
  intros _ _.
  change (Zpos (fst (shl_align mx ex (Z.min ex ey)))
          + Zpos (fst (shl_align my ey (Z.min ex ey))))
    with (Zpos (fst (shl_align mx ex (Z.min ex ey)) + fst (shl_align my ey (Z.min ex ey)))).
  cbn [binary_normalize]. unfold binary_round.
  destruct (shl_align _ _ _) as [mz ez]. apply binary_round_aux_nonneg. lia.
Qed.

Lemma SFmul_nonneg_positive x y :
  sf_nonneg x -> sf_positive_finite y -> sf_nonneg (SF64mul x y).
Proof.
  destruct x as [[]|[]| |[] mx ex], y as [[]|[]| |[] my ey]; cbn; try tauto.
  intros _ _. apply binary_round_aux_nonneg. lia.
Qed.

Lemma SFdiv_nonneg_positive x y :
  sf_nonneg x -> sf_positive_finite y -> sf_nonneg (SF64div x y).
Proof.
  destruct x as [[]|[]| |[] mx ex], y as [[]|[]| |[] my ey]; cbn; try tauto.
  intros _ _. unfold SFdiv_core_binary.
  set (m' := match _ - _ - _ with Z0 => _ | Zpos _ => _ | Zneg _ => _ end).
  assert (Hm' : 0 <= m').
  { unfold m'. destruct (_ - _ - _); try lia. rewrite Z.shiftl_mul_pow2 by lia.
    apply Z.mul_nonneg_nonneg; [lia | apply Z.lt_le_incl, pow2_pos; lia]. }
  pose proof (Z_div_mod m' (Zpos my) ltac:(lia)) as Hqr.
  destruct (Z.div_eucl m' (Zpos my)) as [q r]. destruct Hqr as [Hq Hr].
  apply binary_round_aux_nonneg. nia.
Qed.
End SignFacts.

Section SignFactsFloat.
Local Open Scope float_scope.

Lemma nonneg_leb x : nonneg x -> (0 <=? x) = true /\ is_nan x = false.
Proof.
  unfold nonneg. intros Hx. split.
  - rewrite FloatAxioms.leb_spec. change (Prim2SF 0) with (S754_zero false).
    destruct (Prim2SF x) as [[]|[]| |[] m e]; cbn in *; tauto.
  - destruct (is_nan x) eqn:Hnan; [|reflexivity].
    unfold is_nan in Hnan. 
    assert (Hx' : Prim2SF x = S754_nan).
    { unfold Prim2SF. unfold is_nan. rewrite Hnan. reflexivity. }
    rewrite Hx' in Hx. contradiction.
Qed.

Lemma add_nonneg x y : nonneg x -> nonneg y -> nonneg (x + y).
Proof. unfold nonneg. rewrite add_spec. apply SFadd_nonneg. Qed.

Lemma mul_nonneg_positive x y : nonneg x -> positive_finite y -> nonneg (x * y).
Proof. unfold nonneg, positive_finite. rewrite mul_spec. apply SFmul_nonneg_positive. Qed.

Lemma div_nonneg_positive x y : nonneg x -> positive_finite y -> nonneg (x / y).
Proof. unfold nonneg, positive_finite. rewrite div_spec. apply SFdiv_nonneg_positive. Qed.

(** [math.Abs] gives NaN or a number that is not below zero. *)
Lemma abs_nonneg x : is_nan (abs x) = true \/ nonneg (abs x).
Proof.
  unfold nonneg.
  destruct (Prim2SF x) as [s|s| |s m e] eqn:Hx.
  1, 2, 4: right; rewrite abs_spec, Hx; exact I.
  left. replace (abs x) with nan; [reflexivity|].
  apply Prim2SF_inj. rewrite abs_spec, Hx. reflexivity.
Qed.

(** NaN absorbs every operation. *)
Lemma nan_is x : is_nan x = true -> x = nan.
Proof.
  intros Hnan. apply Prim2SF_inj. unfold Prim2SF at 1. rewrite Hnan. reflexivity.
Qed.

(** What is above a number that is not below zero is not below zero. *)
Lemma above_nonneg m d : nonneg m -> (m <? d) = true -> nonneg d.
Proof.
  unfold nonneg. rewrite FloatAxioms.ltb_spec. unfold SFltb.
  destruct (Prim2SF m) as [[]|[]| |[] mm em], (Prim2SF d) as [[]|[]| |[] md ed];
    cbn; try tauto; try discriminate.
Qed.
End SignFactsFloat.

(** *** Scores, defaults and clamps *)

(** X1.  The strategy component of the risk score is one
    of the six table values or the default: it is always one of 5, 7, 10, 12, 15, 20, and a
    name that is not literally in the table (the lookup is exact, case
    included) scores the default 15. *)
Theorem getStrategyRiskScore_band (strategy : string) :
  In (getStrategyRiskScore strategy) [5; 7; 10; 12; 15; 20]
  /\ (5 <=? getStrategyRiskScore strategy) = true
  /\ (getStrategyRiskScore strategy <=? 20) = true
  /\ (~ In strategy known_strategies -> getStrategyRiskScore strategy = 15).
Proof.
  unfold getStrategyRiskScore, strategyRiskMap, known_strategies.
  destruct (decide (strategy = "covered call"%string)) as [->|H1]; [vm_compute; intuition|].
  destruct (decide (strategy = "cash secured put"%string)) as [->|H2]; [vm_compute; intuition|].
  destruct (decide (strategy = "credit spread"%string)) as [->|H3]; [vm_compute; intuition|].
  destruct (decide (strategy = "iron condor"%string)) as [->|H4]; [vm_compute; intuition|].
  destruct (decide (strategy = "butterfly"%string)) as [->|H5]; [vm_compute; intuition|].
  destruct (decide (strategy = "naked option"%string)) as [->|H6]; [vm_compute; intuition|].
  rewrite !lookup_insert_ne, lookup_empty by congruence.
  cbn. intuition.
Qed.

Lemma getStrategyRiskScore_band_witness : getStrategyRiskScore "Iron Condor" = 15.
Proof.
  apply (getStrategyRiskScore_band "Iron Condor").
  unfold known_strategies. cbn [In]. intros H. repeat destruct H as [H|H]; discriminate H || exact H.
Defined.

(** A snapshot whose ["total_value"] is missing, is not a float64, or is at
    or below zero. *)
Lemma total_value_unusable (portfolio : gmap string iface) :
  BasketSums.usable_total_value portfolio = None -> portfolio_total_value portfolio = 100000.
Proof.
  unfold usable_total_value, portfolio_total_value.
  destruct (portfolio !! "total_value"%string) as [[v| | | |]|]; try reflexivity.
  destruct (v <=? 0); [reflexivity | discriminate].
Qed.

Lemma portfolio_total_value_above_zero (portfolio : gmap string iface) :
  (portfolio_total_value portfolio <=? 0) = false.
Proof.
  unfold portfolio_total_value.
  destruct (portfolio !! "total_value"%string) as [[v| | | |]|]; try reflexivity.
  destruct (v <=? 0) eqn:Hv; [reflexivity | exact Hv].
Qed.

Section Defaults.
Variable sprintf_f2 : float -> string.
Variable range_order : list (string * float) -> list (string * float).

(** X2.  Both validations divide by a portfolio value that
    is never at or below zero: a snapshot whose ["total_value"] is missing,
    is not a float64, or is at or below zero is validated exactly like a
    snapshot worth 100000. *)
Theorem validation_default_portfolio_value (portfolio : gmap string iface) :
  (portfolio_total_value portfolio <=? 0) = false
  /\ (usable_total_value portfolio = None ->
      (forall rm trade,
          ValidateTrade sprintf_f2 rm trade portfolio
          = ValidateTrade sprintf_f2 rm trade {[ "total_value"%string := IFloat64 100000 ]})
      /\ (forall rm trades,
            ValidatePortfolio sprintf_f2 range_order rm trades portfolio
            = ValidatePortfolio sprintf_f2 range_order rm trades
                {[ "total_value"%string := IFloat64 100000 ]})).
Proof.
  split; [apply portfolio_total_value_above_zero|].
  intros Hnone.
  assert (Hsame : portfolio_total_value portfolio
                  = portfolio_total_value {[ "total_value"%string := IFloat64 100000 ]})
    by (rewrite (total_value_unusable _ Hnone); reflexivity).
  split; intros; unfold ValidateTrade, ValidatePortfolio; rewrite Hsame; reflexivity.
Qed.

(** X3.  The risk score of a candidate is never above 100: for
    every candidate, limits and snapshot it is NaN or at most 100. *)
Theorem RiskScore_never_above_100 rm trade (portfolio : gmap string iface) :
  let score := RiskScore (ValidateTrade sprintf_f2 rm trade portfolio) in
  is_nan score = true \/ (score <=? 100) = true.
Proof.
  cbv zeta. unfold ValidateTrade.
  destruct (gtb _ (maxPositionSizePercent rm));
    destruct (POP trade <? minProbabilityOfProfit rm);
    destruct (_ <? 0.33); cbn [RiskScore set_RiskScore];
    unfold calculateRiskScore; apply math_Min_100.
Qed.
End Defaults.

Lemma validation_default_portfolio_value_witness :
  ValidateTrade (fun _ => EmptyString) NewRiskManager low_pop_candidate mock_portfolio
  = ValidateTrade (fun _ => EmptyString) NewRiskManager low_pop_candidate
      {[ "total_value"%string := IFloat64 100000 ]}.
Proof.
  apply (validation_default_portfolio_value (fun _ => EmptyString) (fun entries => entries)
           mock_portfolio).
  vm_compute. reflexivity.
Defined.

(** *** The two loops of the basket validation *)

Section BasketLoops.
Variable sprintf_f2 : float -> string.

(** What the concentration loop does to a validation, entry by entry. *)
Lemma check_concentration_fold rm pv entries v :
  let v' := fold_left (check_concentration sprintf_f2 rm pv) entries v in
  IsValid v'
  = IsValid v
    && forallb (fun entry => negb (gtb (percent_of pv (snd entry))
                                       (maxConcentrationPercent rm))) entries
  /\ Violations v'
     = (Violations v
        ++ flat_map (fun entry =>
                       if gtb (percent_of pv (snd entry)) (maxConcentrationPercent rm)
                       then [concentration_msg sprintf_f2 (fst entry)
                               (percent_of pv (snd entry)) (maxConcentrationPercent rm)]
                       else []) entries)%list
  /\ RiskScore v' = RiskScore v
  /\ RequiresApproval v' = RequiresApproval v.
Proof.
  cbv zeta. revert v. induction entries as [|[symbol risk] entries IH]; intros v.
  - cbn. rewrite andb_true_r, app_nil_r. auto.
  - cbn [fold_left]. destruct (IH (check_concentration sprintf_f2 rm pv v (symbol, risk)))
      as (Hvalid & Hviol & Hscore & Happroval).
    rewrite Hvalid, Hviol, Hscore, Happroval.
    unfold check_concentration, percent_of. cbn [forallb flat_map fst snd].
    destruct (gtb (risk / pv * 100) (maxConcentrationPercent rm)); cbn.
    + rewrite andb_false_r, <- app_assoc. auto.
    + auto.
Qed.

(** The first loop: the total is the left-to-right sum of the risks. *)
Lemma accumulate_risk_fsum trades :
  fst (fold_left accumulate_risk trades (0, ∅)) = fsum (map risk trades).
Proof.
  rewrite accumulate_risk_total. unfold fsum, risk.
  now rewrite <- (fold_left_map_sum (fun trade => math_Abs (MaxLoss trade))).
Qed.

(** The first loop: the entry of a ticker. *)
Lemma accumulate_risk_lookup trades : forall total (symbolRisk : gmap string float) ticker,
  snd (fold_left accumulate_risk trades (total, symbolRisk)) !! ticker
  = match ticker_risks ticker trades with
    | [] => symbolRisk !! ticker
    | risks => Some (fold_left add risks (default 0 (symbolRisk !! ticker)))
    end.
Proof.
  induction trades as [|trade trades IH]; intros total symbolRisk ticker.
  - reflexivity.
  - cbn [fold_left]. unfold accumulate_risk at 2. rewrite IH.
    unfold ticker_risks. cbn [List.filter].
    destruct (String.eqb_spec (Ticker trade) ticker) as [Heq | Hne].
    + subst ticker. rewrite lookup_insert_eq. cbn [map default].
      fold (risk trade). fold (ticker_risks (Ticker trade) trades).
      destruct (ticker_risks (Ticker trade) trades); reflexivity.
    + rewrite lookup_insert_ne by exact Hne.
      fold (ticker_risks ticker trades). reflexivity.
Qed.

Lemma ticker_risks_nil ticker trades :
  ticker_risks ticker trades = [] <-> ~ In ticker (map Ticker trades).
Proof.
  unfold ticker_risks. induction trades as [|trade trades IH]; cbn [List.filter map In].
  - tauto.
  - destruct (String.eqb_spec (Ticker trade) ticker) as [Heq | Hne]; cbn [map].
    + split; [discriminate | tauto].
    + rewrite IH. tauto.
Qed.

Lemma symbolRisk_lookup trades ticker :
  snd (fold_left accumulate_risk trades (0, ∅)) !! ticker
  = match ticker_risks ticker trades with
    | [] => None
    | risks => Some (fsum risks)
    end.
Proof. rewrite accumulate_risk_lookup, lookup_empty. reflexivity. Qed.
End BasketLoops.

Lemma forallb_Permutation {A} (p : A -> bool) (xs ys : list A) :
  xs ≡ₚ ys -> forallb p xs = forallb p ys.
Proof.
  induction 1 as [|x xs ys _ IH|x y xs|xs ys zs _ IH1 _ IH2]; cbn.
  - reflexivity.
  - now rewrite IH.
  - destruct (p x), (p y); reflexivity.
  - now rewrite IH1.
Qed.

(** Zero percent of a portfolio value that is not at or below zero is [+0],
    or NaN when the value is NaN. *)
Lemma percent_of_zero pv :
  (pv <=? 0) = false -> percent_of pv 0 = 0 \/ percent_of pv 0 = nan.
Proof.
  unfold percent_of. rewrite FloatAxioms.leb_spec.
  change (Prim2SF 0) with (S754_zero false). intros Hpv.
  assert (Hq : Prim2SF (0 / pv) = S754_zero false \/ Prim2SF (0 / pv) = S754_nan).
  { rewrite div_spec. change (Prim2SF 0) with (S754_zero false).
    destruct (Prim2SF pv) as [[]|[]| |[] m e]; cbn in *; auto; discriminate. }
  destruct Hq as [Hq | Hq]; [left | right]; apply Prim2SF_inj; rewrite mul_spec, Hq;
    reflexivity.
Qed.

Lemma not_above_nan limit : gtb nan limit = false.
Proof.
  unfold gtb. rewrite FloatAxioms.ltb_spec. change (Prim2SF nan) with S754_nan.
  unfold SFltb, SFcompare. destruct (Prim2SF limit); reflexivity.
Qed.

Section BasketFacts.
Variable sprintf_f2 : float -> string.
Variable range_order : list (string * float) -> list (string * float).
Hypothesis range_order_perm : forall entries, range_order entries ≡ₚ entries.

(** X4.  A basket is valid exactly when the left-to-right
    sum of [|maxLoss|] over its candidates, as a percentage of the portfolio
    value, is not above [maxPortfolioRiskPercent], and for every ticker of
    the basket the left-to-right sum of [|maxLoss|] over the candidates on
    that ticker is not above [maxConcentrationPercent]; the validity of each
    single candidate plays no part. *)
Theorem basket_valid_iff rm trades (portfolio : gmap string iface) :
  let pv := portfolio_total_value portfolio in
  IsValid (ValidatePortfolio sprintf_f2 range_order rm trades portfolio) = true
  <-> gtb (percent_of pv (fsum (map risk trades))) (maxPortfolioRiskPercent rm) = false
      /\ forall ticker,
           In ticker (map Ticker trades) ->
           gtb (percent_of pv (fsum (ticker_risks ticker trades)))
               (maxConcentrationPercent rm) = false.
Proof.
  cbv zeta. unfold ValidatePortfolio.
  pose proof (accumulate_risk_fsum trades) as Htotal.
  pose proof (symbolRisk_lookup trades) as Hlookup.
  destruct (fold_left accumulate_risk trades (0, ∅)) as [totalRisk symbolRisk].
  cbn [fst snd] in Htotal, Hlookup. subst totalRisk.
  fold (percent_of (portfolio_total_value portfolio) (fsum (map risk trades))).
  set (pv := portfolio_total_value portfolio).
  set (v1 := if gtb _ (maxPortfolioRiskPercent rm) then _ else _).
  destruct (check_concentration_fold sprintf_f2 rm pv
              (range_order (map_to_list symbolRisk)) v1) as (-> & _).
  rewrite (forallb_Permutation _ _ _ (range_order_perm _)).
  rewrite andb_true_iff, forallb_forall.
  assert (Hv1 : IsValid v1 = true
                <-> gtb (percent_of pv (fsum (map risk trades)))
                        (maxPortfolioRiskPercent rm) = false).
  { unfold v1. destruct (gtb _ (maxPortfolioRiskPercent rm)); cbn; split; congruence. }
  rewrite Hv1. apply and_iff_compat_l. split.
  - intros Hall ticker Hin.
    specialize (Hlookup ticker).
    destruct (ticker_risks ticker trades) as [|r rs] eqn:Hrisks.
    + apply ticker_risks_nil in Hrisks. contradiction.
    + specialize (Hall (ticker, fsum (r :: rs))).
      apply negb_true_iff, Hall. apply list_elem_of_In, elem_of_map_to_list. exact Hlookup.
  - intros Hall [ticker risk] Hin. cbn [snd].
    apply list_elem_of_In, elem_of_map_to_list in Hin.
    rewrite Hlookup in Hin.
    destruct (ticker_risks ticker trades) as [|r rs] eqn:Hrisks; [discriminate|].
    injection Hin as <-. apply negb_true_iff. rewrite <- Hrisks. apply Hall.
    pose proof (ticker_risks_nil ticker trades) as [_ Hnil].
    destruct (in_dec String.string_dec ticker (map Ticker trades)) as [Hyes | Hno];
      [exact Hyes|].
    apply Hnil in Hno. congruence.
Qed.

(** X5.  An empty basket is valid and has no violation, on
    every snapshot, under any portfolio-risk limit that is not negative. *)
Theorem empty_basket_valid rm (portfolio : gmap string iface) :
  (0 <=? maxPortfolioRiskPercent rm) = true ->
  let v := ValidatePortfolio sprintf_f2 range_order rm [] portfolio in
  IsValid v = true /\ Violations v = [].
Proof.
  intros Hlimit. cbv zeta. unfold ValidatePortfolio. cbn [fold_left].
  rewrite map_to_list_empty.
  rewrite (proj1 (Permutation_nil_r _) (range_order_perm [])). cbn [fold_left].
  fold (percent_of (portfolio_total_value portfolio) 0).
  assert (Hpass : gtb (percent_of (portfolio_total_value portfolio) 0)
                      (maxPortfolioRiskPercent rm) = false).
  { destruct (percent_of_zero (portfolio_total_value portfolio)) as [-> | ->].
    - apply portfolio_total_value_above_zero.
    - now apply nonneg_limit_not_below_zero.
    - apply not_above_nan. }
  rewrite Hpass. split; reflexivity.
Qed.
End BasketFacts.

Section BasketOrder.
Variable sprintf_f2 : float -> string.
Variables order1 order2 : list (string * float) -> list (string * float).
Hypothesis order1_perm : forall entries, order1 entries ≡ₚ entries.
Hypothesis order2_perm : forall entries, order2 entries ≡ₚ entries.

(** X6.  The order in which Go ranges over the
    per-ticker map does not change the outcome of a basket validation: two
    runs agree on [IsValid], on the risk score and on the approval flag, and
    their violations are the same reasons, possibly in another order. *)
Theorem ValidatePortfolio_order_independent rm trades (portfolio : gmap string iface) :
  let v1 := ValidatePortfolio sprintf_f2 order1 rm trades portfolio in
  let v2 := ValidatePortfolio sprintf_f2 order2 rm trades portfolio in
  IsValid v1 = IsValid v2
  /\ Violations v1 ≡ₚ Violations v2
  /\ RiskScore v1 = RiskScore v2
  /\ RequiresApproval v1 = RequiresApproval v2.
Proof.
  cbv zeta. unfold ValidatePortfolio.
  destruct (fold_left accumulate_risk trades (0, ∅)) as [totalRisk symbolRisk].
  set (pv := portfolio_total_value portfolio).
  set (v := if gtb _ (maxPortfolioRiskPercent rm) then _ else _).
  destruct (check_concentration_fold sprintf_f2 rm pv (order1 (map_to_list symbolRisk)) v)
    as (-> & -> & -> & ->).
  destruct (check_concentration_fold sprintf_f2 rm pv (order2 (map_to_list symbolRisk)) v)
    as (-> & -> & -> & ->).
  assert (Hperm : order1 (map_to_list symbolRisk) ≡ₚ order2 (map_to_list symbolRisk))
    by (rewrite order1_perm, order2_perm; reflexivity).
  repeat split.
  - f_equal. now apply forallb_Permutation.
  - apply Permutation_app_head. now apply Permutation_flat_map.
Qed.
End BasketOrder.

Lemma basket_valid_iff_witness :
  IsValid (ValidatePortfolio (fun _ => EmptyString) (fun entries => entries) NewRiskManager
             [hundred_loss "SPY"; hundred_loss "QQQ"] portfolio_10000) = true
  <-> gtb (percent_of (portfolio_total_value portfolio_10000)
             (fsum (map risk [hundred_loss "SPY"; hundred_loss "QQQ"])))
          (maxPortfolioRiskPercent NewRiskManager) = false
      /\ forall ticker,
           In ticker (map Ticker [hundred_loss "SPY"; hundred_loss "QQQ"]) ->
           gtb (percent_of (portfolio_total_value portfolio_10000)
                  (fsum (ticker_risks ticker [hundred_loss "SPY"; hundred_loss "QQQ"])))
               (maxConcentrationPercent NewRiskManager) = false.
Proof.
  exact (basket_valid_iff (fun _ => EmptyString) (fun entries => entries)
           (fun entries => Permutation_refl entries) NewRiskManager
           [hundred_loss "SPY"; hundred_loss "QQQ"] portfolio_10000).
Defined.

Lemma empty_basket_valid_witness :
  IsValid (ValidatePortfolio (fun _ => EmptyString) (fun entries => entries) NewRiskManager
             [] mock_portfolio) = true.
Proof.
  apply (empty_basket_valid (fun _ => EmptyString) (fun entries => entries)
           (fun entries => Permutation_refl entries) NewRiskManager mock_portfolio).
  vm_compute. reflexivity.
Defined.

Lemma ValidatePortfolio_order_independent_witness :
  IsValid (ValidatePortfolio (fun _ => EmptyString) (fun entries => entries) NewRiskManager
             [hundred_loss "SPY"; hundred_loss "QQQ"; hundred_loss "IWM"] portfolio_10000)
  = IsValid (ValidatePortfolio (fun _ => EmptyString) (@rev _) NewRiskManager
               [hundred_loss "SPY"; hundred_loss "QQQ"; hundred_loss "IWM"] portfolio_10000).
Proof.
  apply (ValidatePortfolio_order_independent (fun _ => EmptyString)
           (fun entries => entries) (@rev _)
           (fun entries => Permutation_refl entries)
           (fun entries => Permutation_sym (Permutation_rev entries))).
Defined.

(** *** Portfolio risk metrics *)

Lemma aggregate_skips_unnamed positions : forall a,
  fold_left aggregate_position (List.filter has_symbol positions) a
  = fold_left aggregate_position positions a.
Proof.
  induction positions as [|pos positions IH]; intros a; [reflexivity|].
  cbn [List.filter fold_left]. unfold has_symbol.
  destruct (string_field pos "symbol") as [symbol|] eqn:Hsym.
  - cbn [fold_left]. apply IH.
  - replace (aggregate_position a pos) with a
      by (unfold aggregate_position; now rewrite Hsym).
    apply IH.
Qed.

Lemma aggregate_without_values positions : forall a,
  omap counted_value positions = [] ->
  a_totalValue (fold_left aggregate_position positions a) = a_totalValue a
  /\ a_symbolValues (fold_left aggregate_position positions a) = a_symbolValues a.
Proof.
  induction positions as [|pos positions IH]; intros a Hnone; [auto|].
  cbn [omap list_omap] in Hnone. cbn [fold_left].
  destruct (counted_value pos) as [value|] eqn:Hvalue; [discriminate|].
  destruct (IH (aggregate_position a pos) Hnone) as [-> ->].
  unfold aggregate_position, counted_value in *.
  destruct (string_field pos "symbol"); [|auto].
  rewrite Hvalue. auto.
Qed.

Section PortfolioMetrics.
Variable range_order : list (string * float) -> list (string * float).

(** X7.  A position without a string ["symbol"] is left
    out of everything but the drawdown estimate: the Greeks sums, the value
    at risk, the concentrations and the correlation risk are those of the
    positions that carry a symbol, even when the position has Greeks or a
    market value of its own. *)
Theorem CalculatePortfolioMetrics_skips_unnamed (positions : list (gmap string iface)) :
  let all := CalculatePortfolioMetrics range_order positions in
  let named := CalculatePortfolioMetrics range_order (List.filter has_symbol positions) in
  TotalDelta all = TotalDelta named
  /\ TotalGamma all = TotalGamma named
  /\ TotalVega all = TotalVega named
  /\ TotalTheta all = TotalTheta named
  /\ ValueAtRisk all = ValueAtRisk named
  /\ Concentrations all = Concentrations named
  /\ CorrelationRisk all = CorrelationRisk named.
Proof.
  cbv zeta. unfold CalculatePortfolioMetrics.
  rewrite aggregate_skips_unnamed. cbn. repeat split.
Qed.

(** X8.  The correlation risk is never above 100: for
    every list of positions, in whatever order the map is visited, it is NaN
    or at most 100. *)
Theorem CorrelationRisk_never_above_100 (positions : list (gmap string iface)) :
  let risk := CorrelationRisk (CalculatePortfolioMetrics range_order positions) in
  is_nan risk = true \/ (risk <=? 100) = true.
Proof.
  cbv zeta. unfold CalculatePortfolioMetrics. cbn [CorrelationRisk].
  unfold calculateCorrelationRisk.
  destruct (fold_left correlation_step _ _) as [techConcentration totalValue].
  destruct (gtb totalValue 0); [apply math_Min_100 | right; reflexivity].
Qed.

(** The sum of absolute values that [estimateMaxDrawdown] builds is NaN or
    not below zero. *)
Lemma max_loss_sum_nonneg positions : forall totalRisk,
  is_nan totalRisk = true \/ nonneg totalRisk ->
  let total :=
    fold_left (fun totalRisk pos =>
                 match float_field pos "max_loss" with
                 | Some maxLoss => totalRisk + math_Abs maxLoss
                 | None => totalRisk
                 end) positions totalRisk in
  is_nan total = true \/ nonneg total.
Proof.
  induction positions as [|pos positions IH]; intros totalRisk Htotal; cbv zeta.
  - exact Htotal.
  - cbn [fold_left]. apply IH.
    destruct (float_field pos "max_loss") as [maxLoss|]; [|exact Htotal].
    unfold math_Abs.
    destruct Htotal as [Hnan | Hpos].
    + left. rewrite (nan_is _ Hnan), add_nan_l. reflexivity.
    + destruct (abs_nonneg maxLoss) as [Hnan | Habs].
      * left. rewrite (nan_is _ Hnan), add_nan_r. reflexivity.
      * right. now apply add_nonneg.
Qed.

(** X9.  The drawdown estimate is never negative: for
    every list of positions it is NaN or at least zero. *)
Theorem estimateMaxDrawdown_never_negative (positions : list (gmap string iface)) :
  let estimate := MaxDrawdown (CalculatePortfolioMetrics range_order positions) in
  estimate = estimateMaxDrawdown positions
  /\ (is_nan estimate = true \/ (0 <=? estimate) = true).
Proof.
  cbv zeta. split; [reflexivity|].
  unfold CalculatePortfolioMetrics. cbn [MaxDrawdown]. unfold estimateMaxDrawdown.
  destruct (max_loss_sum_nonneg positions 0) as [Hnan | Hpos].
  - right. exact I.
  - left. rewrite (nan_is _ Hnan). reflexivity.
  - right. apply nonneg_leb. apply mul_nonneg_positive; [exact Hpos | exact I].
Qed.

Hypothesis range_order_perm : forall entries, range_order entries ≡ₚ entries.

(** X10.  When no position carries both a string
    ["symbol"] and a float64 ["market_value"] (an empty list of positions,
    for one), the value at risk is 0, no concentration is reported and the
    correlation risk is 0. *)
Theorem CalculatePortfolioMetrics_without_values (positions : list (gmap string iface)) :
  omap counted_value positions = [] ->
  let m := CalculatePortfolioMetrics range_order positions in
  ValueAtRisk m = 0 /\ Concentrations m = ∅ /\ CorrelationRisk m = 0.
Proof.
  intros Hnone. cbv zeta. unfold CalculatePortfolioMetrics.
  destruct (aggregate_without_values positions aggregate_zero Hnone) as [Htotal Hvalues].
  cbn [ValueAtRisk Concentrations CorrelationRisk].
  rewrite Htotal, Hvalues. cbn [aggregate_zero a_totalValue a_symbolValues].
  repeat split.
  unfold calculateCorrelationRisk. rewrite map_to_list_empty.
  rewrite (proj1 (Permutation_nil_r _) (range_order_perm [])). reflexivity.
Qed.
End PortfolioMetrics.

Lemma CalculatePortfolioMetrics_without_values_witness :
  ValueAtRisk (CalculatePortfolioMetrics (fun entries => entries) [unnamed_position]) = 0.
Proof.
  apply (CalculatePortfolioMetrics_without_values (fun entries => entries)
           (fun entries => Permutation_refl entries) [unnamed_position]).
  vm_compute. reflexivity.
Defined.
End RiskFurther.

(** ** More on the performance ledger *)

Section LedgerFurther.
Import Float64 Samples Ledger History LedgerSpec Metrics.
Close Scope float_scope.
Close Scope Z_scope.
Local Open Scope string_scope.

Section LedgerCalls.
Variable clock : nat -> Time.

(** X11.  On a ledger file that cannot be read or is not a
    JSON array of records, the three mutating calls and the history query
    all return an error and the file is left as it is: a ledger that does
    not load is never overwritten. *)
Theorem unreadable_ledger_untouched w :
  file w = FileUnreadable \/ file w = FileMalformed ->
  (forall rec, exists e w',
      RecordRecommendation clock rec w = (Err e, w') /\ file w' = file w)
  /\ (forall recordID executed, exists e w',
        UpdateExecution clock recordID executed w = (Err e, w') /\ file w' = file w)
  /\ (forall recordID profit, exists e w',
        UpdateTradeResult clock recordID profit w = (Err e, w') /\ file w' = file w)
  /\ (forall limit, exists e, GetRecommendationHistory limit w = (Err e, w)).
Proof.
  intros Hfile.
  split; [|split; [|split]]; intros;
    unfold RecordRecommendation, UpdateExecution, UpdateTradeResult,
      GetRecommendationHistory, generateRecordID, bind, time_Now, ret, loadRecords;
    cbn [file ticks];
    destruct Hfile as [H | H]; rewrite H; eauto.
Qed.
End LedgerCalls.

Section LedgerUpdates.
Variable clock : nat -> Time.

Lemma identity_mark_executed now r : identity (mark_executed now r) = identity r.
Proof. reflexivity. Qed.

Lemma identity_mark_unexecuted r : identity (mark_unexecuted r) = identity r.
Proof. reflexivity. Qed.

Lemma identity_mark_closed now profit r : identity (mark_closed now profit r) = identity r.
Proof. reflexivity. Qed.

(** An update call either leaves the records as they are or replaces the
    first record that carries the id by one with the same identity. *)
Lemma update_any o recordID w :
  target o = Some recordID ->
  records_of (exec clock o w) = records_of w
  \/ exists i rec rec',
       find_record recordID (records_of w) = Some (i, rec)
       /\ identity rec' = identity rec
       /\ records_of (exec clock o w) = <[i := rec']> (records_of w).
Proof.
  destruct o as [rec | id executed | id profit]; cbn [target]; intros [= ->].
  - destruct (UpdateExecution_records_any clock recordID executed w)
      as [Hsame | (i & rec & Hfind & Hnew)]; [now left|].
    right. exists i, rec. eexists. split; [exact Hfind|]. split; [|exact Hnew].
    destruct executed; reflexivity.
  - destruct (UpdateTradeResult_records_any clock recordID profit w)
      as [Hsame | (i & rec & Hfind & _ & Hnew)]; [now left|].
    right. exists i, rec. eexists. split; [exact Hfind|]. split; [|exact Hnew].
    reflexivity.
Qed.

(** X12.  An update call ([UpdateExecution] or
    [UpdateTradeResult]) for an id, on any ledger, keeps the number of
    records and the id, creation time and candidate of each of them, and
    leaves untouched every record that carries another id and every record
    that comes after an earlier one with the same id. *)
Theorem update_touches_first_match_only o recordID w :
  target o = Some recordID ->
  map identity (records_of (exec clock o w)) = map identity (records_of w)
  /\ forall j r,
       records_of w !! j = Some r ->
       ID r <> recordID
       \/ (exists i r0, (i < j)%nat /\ records_of w !! i = Some r0 /\ ID r0 = recordID) ->
       records_of (exec clock o w) !! j = Some r.
Proof.
  intros Ho.
  destruct (update_any o recordID w Ho)
    as [-> | (i & rec & rec' & Hfind & Hid & ->)]; [auto|].
  apply list_find_Some in Hfind as (Hi & Hrec & Hfirst).
  split.
  - change (map identity) with (fmap (M := list) identity).
    rewrite list_fmap_insert, Hid. apply list_insert_id.
    now rewrite list_lookup_fmap, Hi.
  - intros j r Hj Hother.
    destruct (decide (i = j)) as [<- | Hne].
    + exfalso. rewrite Hi in Hj. injection Hj as <-.
      destruct Hother as [Hother | (i0 & r0 & Hlt & Hi0 & Hr0)]; [contradiction|].
      exact (Hfirst i0 r0 Hi0 Hlt Hr0).
    + now rewrite list_lookup_insert_ne.
Qed.


End LedgerUpdates.

Section LedgerWrites.
Variable clock : nat -> Time.

Lemma storable_spec w :
  storable w = true ->
  loads w = true /\ forallb entry_encodable (entries_of w) = true.
Proof.
  unfold storable, loads, entries_of. destruct (file w); try discriminate; auto.
  now rewrite entries_encodable_json.
Qed.

(** Where the scan stops when no record carries the id: at the first nil
    entry, if there is one. *)
Lemma find_entry_unknown recordID (es : list (option RecommendationRecord)) :
  find_record recordID (omap id es) = None ->
  match find_entry recordID es with
  | Some (_, None) =>
      existsb (fun e : option RecommendationRecord =>
                 match e with None => true | Some _ => false end) es = true
  | Some (_, Some _) => False
  | None =>
      existsb (fun e : option RecommendationRecord =>
                 match e with None => true | Some _ => false end) es = false
  end.
Proof.
  induction es as [|[r|] es IH]; [reflexivity | |reflexivity].
  change (omap id (Some r :: es)) with (r :: omap id es).
  rewrite find_record_cons, find_entry_cons.
  destruct (decide (ID r = recordID)); [discriminate|].
  destruct (find_record recordID (omap id es)) as [[j r']|] eqn:Hfind; [discriminate|].
  intros _. specialize (IH eq_refl). cbn [existsb orb].
  now destruct (find_entry recordID es) as [[j [r'|]]|].
Qed.

(** X14.  On a ledger that loads and marshals, an update call for an id
    that no record carries reads no clock; when the array on file holds no
    nil entry it returns no error and writes the entries back as they were,
    whatever the profit passed (a NaN included), so an unknown id is not
    reported; when the array holds a nil entry (a JSON [null]) the call
    panics on it and the file is left as it was. *)
Theorem update_of_unknown_id recordID w :
  storable w = true ->
  find_record recordID (records_of w) = None ->
  let outcome :=
    if has_nil w then (Panic, w)
    else (Ok tt, {| file := FileJSON (entries_of w); ticks := ticks w |}) in
  (forall executed, UpdateExecution clock recordID executed w = outcome)
  /\ (forall profit, UpdateTradeResult clock recordID profit w = outcome).
Proof.
  intros Hw Hfind. destruct (storable_spec w Hw) as [Hloads Henc].
  pose proof (find_entry_unknown recordID (entries_of w) Hfind) as Hscan.
  cbv zeta. unfold has_nil.
  split; intros;
    rewrite ?(UpdateExecution_eq clock _ _ _ Hloads),
      ?(UpdateTradeResult_eq clock _ _ _ Hloads);
    destruct (find_entry recordID (entries_of w)) as [[i [rec|]]|];
    try contradiction; rewrite Hscan; try reflexivity;
    rewrite saveRecords_fixed by apply entries_of_fixed; now rewrite Henc.
Qed.

Lemma forallb_insert_false {A} (p : A -> bool) (xs : list A) (i : nat) (x : A) :
  (i < length xs)%nat -> p x = false -> forallb p (<[i := x]> xs) = false.
Proof.
  intros Hi Hx.
  destruct (forallb p (<[i := x]> xs)) eqn:Hall; [|reflexivity].
  rewrite (forallb_lookup p _ i x Hall) in Hx; [discriminate|].
  now apply list_lookup_insert_eq.
Qed.

(** X15.  A candidate with a NaN or infinite [POP],
    [MaxLoss], [MaxProfit] or [Score] is never recorded: on a ledger that
    loads, [RecordRecommendation] returns the marshalling error, after
    three readings of the clock, and the file is as it was. *)
Theorem RecordRecommendation_rejects_unencodable rec w :
  file w = FileAbsent \/ (exists records, file w = FileJSON records) ->
  trade_encodable rec = false ->
  RecordRecommendation clock rec w
  = (Err ErrMarshal, {| file := file w; ticks := ticks w + 3 |}).
Proof.
  intros Hfile Hrec.
  assert (Hloads : loads w = true).
  { unfold loads. destruct Hfile as [H | [records H]]; now rewrite H. }
  pose proof (RecordRecommendation_eq clock rec w Hloads) as Heq. cbv zeta in Heq.
  rewrite Heq, Hrec, andb_false_r.
  now replace (ticks w + 3)%nat with (S (S (S (ticks w)))) by lia.
Qed.

(** X16.  [UpdateTradeResult] with a NaN or infinite
    profit for an id that is on file returns the marshalling error and
    leaves the file as it was: the record is not closed. *)
Theorem UpdateTradeResult_rejects_non_finite recordID profit w i rec :
  find_entry recordID (entries_of w) = Some (i, Some rec) ->
  json_encodable profit = false ->
  UpdateTradeResult clock recordID profit w
  = (Err ErrMarshal, {| file := file w; ticks := S (ticks w) |}).
Proof.
  intros Hfind Hp.
  assert (Hloads : loads w = true).
  { unfold loads, entries_of, find_entry in *. destruct (file w); try reflexivity;
      discriminate. }
  rewrite (UpdateTradeResult_eq clock _ _ _ Hloads), Hfind.
  unfold saveRecords.
  rewrite forallb_insert_false; [reflexivity| |].
  - apply find_entry_found in Hfind as (Hi & _). eapply lookup_lt_Some; eauto.
  - unfold entry_encodable, record_encodable. cbn [mark_closed ActualProfit].
    rewrite Hp. apply andb_false_r.
Qed.
End LedgerWrites.

Section LedgerLifecycle.
Variable clock : nat -> Time.

Lemma find_record_last recordID records record :
  find_record recordID records = None -> ID record = recordID ->
  find_record recordID ((records ++ [record])%list) = Some (length records, record).
Proof.
  intros Hnone Hid. unfold find_record in *.
  rewrite list_find_app_r by exact Hnone. cbn. rewrite decide_True by exact Hid.
  reflexivity.
Qed.

Lemma insert_last {A} (xs : list A) (x y : A) :
  <[length xs := y]> ((xs ++ [x])%list) = (xs ++ [y])%list.
Proof.
  replace (length xs) with (length xs + 0)%nat at 1 by lia.
  now rewrite insert_app_r.
Qed.

(** What [RecordRecommendation] returns and leaves on a ledger that loads
    without nil entries and marshals. *)
Lemma RecordRecommendation_healthy rec w :
  healthy w = true -> trade_encodable rec = true ->
  exists record w1,
    RecordRecommendation clock rec w = (Ok record, w1)
    /\ healthy w1 = true /\ ticks w1 = (ticks w + 3)%nat
    /\ records_of w1 = (records_of w ++ [json_record record])%list
    /\ json_record record
       = {| ID := ID record; Timestamp := Timestamp record;
            Recommendation := json_trade rec;
            Executed := false; ExecutionTime := None; ExitTime := None;
            ActualProfit := None; Status := "pending" |}.
Proof.
  intros Hw Hrec. destruct (healthy_spec w Hw) as (Hloads & Hes & Henc & Henc').
  pose proof (RecordRecommendation_eq clock rec w Hloads) as Heq. cbv zeta in Heq.
  rewrite Henc', Hrec in Heq. cbn [andb] in Heq.
  eexists. eexists. split; [exact Heq|].
  split.
  { pose proof (healthy_exec_record clock rec w Hw) as H. cbn [exec] in H.
    now rewrite Heq in H. }
  split; [cbn [ticks]; lia|]. split.
  - unfold records_of at 1.
    rewrite entries_of_saved.
    + apply omap_snoc.
    + rewrite fixed_snoc by apply entries_of_fixed. now rewrite json_record_idempotent.
  - unfold json_record.
    cbn [ID Timestamp Recommendation Executed ExecutionTime ExitTime ActualProfit Status].
    now rewrite record_id_ascii.
Qed.

(** X17.  On a ledger that loads without nil entries and marshals,
    recording a candidate that marshals returns a record; when no older
    record carries its id, marking that id executed and then closing it with
    a finite profit leaves the older records as they were, followed by the
    new one as the file holds it (the text fields of the candidate through
    [encoding/json]), with status "closed", [Executed] true, the fourth and
    fifth clock readings since the start as its execution and exit times,
    and the profit. *)
Theorem record_execute_close rec profit w :
  healthy w = true -> trade_encodable rec = true -> json_encodable profit = true ->
  exists record w1,
    RecordRecommendation clock rec w = (Ok record, w1)
    /\ (find_record (ID record) (records_of w) = None ->
        records_of (run clock [OpUpdateExecution (ID record) true;
                               OpUpdateTradeResult (ID record) profit] w1)
        = (records_of w
           ++ [{| ID := ID record; Timestamp := Timestamp record;
                  Recommendation := json_trade rec;
                  Executed := true; ExecutionTime := Some (clock (ticks w + 3)%nat);
                  ExitTime := Some (clock (ticks w + 4)%nat);
                  ActualProfit := Some profit; Status := "closed" |}])%list).
Proof.
  intros Hw Hrec Hp.
  destruct (RecordRecommendation_healthy rec w Hw Hrec)
    as (record & w1 & Hcall & Hw1 & Hticks1 & Hrecords1 & Hshape).
  exists record, w1. split; [exact Hcall|]. intros Hfresh.
  assert (Hid : ID (json_record record) = ID record) by (now rewrite Hshape).
  cbn [run fold_left].
  set (w2 := exec clock (OpUpdateExecution (ID record) true) w1).
  assert (Hw2 : healthy w2 = true) by (now apply healthy_exec_update).
  assert (Hrecords2 : records_of w2
                      = (records_of w
                         ++ [mark_executed (clock (ticks w + 3)%nat) (json_record record)])%list).
  { unfold w2. rewrite (UpdateExecution_records clock _ _ _ Hw1), Hrecords1.
    rewrite (find_record_last _ _ _ Hfresh Hid), insert_last. now rewrite Hticks1. }
  assert (Hticks2 : ticks w2 = (ticks w + 4)%nat).
  { unfold w2. cbn [exec]. rewrite (UpdateExecution_healthy clock _ _ _ Hw1), Hrecords1.
    rewrite (find_record_last _ _ _ Hfresh Hid). cbn [snd ticks]. lia. }
  rewrite (UpdateTradeResult_records clock _ _ _ Hw2), Hrecords2.
  rewrite (find_record_last (ID record) _
             (mark_executed (clock (ticks w + 3)%nat) (json_record record)) Hfresh Hid).
  rewrite Hp, insert_last, Hticks2. unfold mark_closed, mark_executed.
  rewrite Hshape.
  cbn [ID Timestamp Recommendation Executed ExecutionTime ExitTime ActualProfit Status].
  reflexivity.
Qed.
End LedgerLifecycle.

Section LedgerInvariants.
Variable clock : nat -> Time.

Lemma find_record_insert recordID records i rec rec' :
  find_record recordID records = Some (i, rec) -> ID rec' = recordID ->
  find_record recordID (<[i := rec']> records) = Some (i, rec').
Proof.
  unfold find_record. intros Hfind Hid.
  apply list_find_Some in Hfind as (Hi & _ & Hfirst).
  apply list_find_insert_Some. right; left.
  split; [reflexivity|]. split; [reflexivity|].
  split; [eapply lookup_lt_Some; eauto|]. split; [exact Hid | exact Hfirst].
Qed.

(** X18.  Marking a record executed and then not executed does
    not bring it back: on a ledger that loads without nil entries and
    marshals, after [UpdateExecution(id, true)] and
    [UpdateExecution(id, false)] the first record with that id has
    [Executed] false but still the status "executed" and the execution time
    of the first call. *)
Theorem unexecute_keeps_executed_status recordID w i rec :
  healthy w = true ->
  find_record recordID (records_of w) = Some (i, rec) ->
  records_of (run clock [OpUpdateExecution recordID true;
                         OpUpdateExecution recordID false] w) !! i
  = Some {| ID := ID rec; Timestamp := Timestamp rec; Recommendation := Recommendation rec;
            Executed := false; ExecutionTime := Some (clock (ticks w));
            ExitTime := ExitTime rec; ActualProfit := ActualProfit rec;
            Status := "executed" |}.
Proof.
  intros Hw Hfind.
  pose proof Hfind as Hfind'.
  apply list_find_Some in Hfind' as (Hi & Hid & _).
  cbn [run fold_left].
  set (w1 := exec clock (OpUpdateExecution recordID true) w).
  assert (Hw1 : healthy w1 = true) by (now apply healthy_exec_update).
  assert (Hrecords1 : records_of w1
                      = <[i := mark_executed (clock (ticks w)) rec]> (records_of w)).
  { unfold w1. now rewrite (UpdateExecution_records clock _ _ _ Hw), Hfind. }
  rewrite (UpdateExecution_records clock _ _ _ Hw1), Hrecords1.
  rewrite (find_record_insert _ _ _ _ (mark_executed (clock (ticks w)) rec) Hfind Hid).
  rewrite list_insert_insert_eq.
  apply list_lookup_insert_eq. eapply lookup_lt_Some; eauto.
Qed.

Lemma coherent_mark_executed now r : coherent r -> coherent (mark_executed now r).
Proof.
  intros (Hpend & Hclosed & Hexec & Hboth & Hfin).
  unfold coherent, mark_executed. cbn.
  split; [discriminate|]. split; [discriminate|]. split; [eauto|]. auto.
Qed.

Lemma coherent_mark_unexecuted r : coherent r -> coherent (mark_unexecuted r).
Proof.
  intros (Hpend & Hclosed & Hexec & Hboth & Hfin).
  unfold coherent, mark_unexecuted. cbn.
  split; [|split; [auto|split; [discriminate|auto]]].
  intros Hs. destruct (Hpend Hs) as (_ & ? & ? & ?). auto.
Qed.

Lemma coherent_mark_closed now profit r :
  is_finite profit = true -> coherent r -> coherent (mark_closed now profit r).
Proof.
  intros Hp (Hpend & Hclosed & Hexec & Hboth & Hfin).
  unfold coherent, mark_closed. cbn.
  split; [discriminate|]. split; [eauto|]. split; [auto|].
  split; [split; eauto|]. now intros ? [= <-].
Qed.

(** X19.  In every state reachable from a fresh ledger,
    each record is coherent: a "pending" one is not executed and has no
    execution time, exit time or profit; a "closed" one has a profit and an
    exit time; an executed one has an execution time; a profit is present
    exactly when an exit time is, and is a finite number. *)
Theorem reachable_records_coherent w :
  reachable clock w -> Forall coherent (records_of w).
Proof.
  induction 1 as [|w o Hreach IH]; [constructor|].
  destruct o as [rec | recordID executed | recordID profit].
  - destruct (RecordRecommendation_records_any clock rec w)
      as [-> | (record & -> & _ & _ & _ & Hs & He & Ht & Hx & Hp)]; [exact IH|].
    apply Forall_app. split; [exact IH|]. constructor; [|constructor].
    unfold coherent. rewrite Hs, He, Ht, Hx, Hp.
    split; [auto|]. split; [discriminate|]. split; [discriminate|].
    split; [split; intros [? [=]]|discriminate].
  - destruct (UpdateExecution_records_any clock recordID executed w)
      as [-> | (i & r & Hfind & ->)]; [exact IH|].
    apply list_find_Some in Hfind as (Hi & _).
    apply Forall_insert; [exact IH|].
    pose proof (proj1 (Forall_lookup _ _) IH i r Hi) as Hr.
    destruct executed; [now apply coherent_mark_executed
                       | now apply coherent_mark_unexecuted].
  - destruct (UpdateTradeResult_records_any clock recordID profit w)
      as [-> | (i & r & Hfind & Hp & ->)]; [exact IH|].
    apply list_find_Some in Hfind as (Hi & _).
    apply Forall_insert; [exact IH|].
    apply coherent_mark_closed; [exact Hp|].
    exact (proj1 (Forall_lookup _ _) IH i r Hi).
Qed.

(** X20.  On a ledger that loads, [GetRecommendationHistory]
    reads no clock and changes nothing; it returns the last [limit] entries
    when [0 < limit < len(records)] and all the entries otherwise, so a zero
    or negative limit gives the whole ledger. *)
Theorem GetRecommendationHistory_suffix limit w :
  file w = FileAbsent \/ (exists records, file w = FileJSON records) ->
  exists history,
    GetRecommendationHistory limit w = (Ok history, w)
    /\ history `suffix_of` entries_of w
    /\ len history
       = (if (0 <? limit) && (limit <? len (entries_of w)) then limit
          else len (entries_of w))%Z.
Proof.
  intros Hfile.
  assert (Hload : loadRecords w = (Ok (entries_of w), w)).
  { apply loadRecords_loads. unfold loads.
    destruct Hfile as [H | [records H]]; now rewrite H. }
  unfold GetRecommendationHistory, bind. rewrite Hload. unfold len.
  destruct ((0 <? limit) && (limit <? Z.of_nat (length (entries_of w))))%Z eqn:Hlim;
    unfold ret; eexists; (split; [reflexivity|]).
  - split; [apply suffix_drop|].
    apply andb_true_iff in Hlim as [H0 H1].
    apply Z.ltb_lt in H0, H1. rewrite length_drop. lia.
  - split; reflexivity.
Qed.
End LedgerInvariants.

Section LedgerCollisions.
Variable clock : nat -> Time.

(** A record that follows an older one with the same id survives every
    update call for that id, and so does an older record with that id. *)
Lemma shadowed_step o recordID pre record w :
  target o = Some recordID ->
  records_of w = (pre ++ [record])%list ->
  (exists j r, pre !! j = Some r /\ ID r = recordID) ->
  exists pre',
    records_of (exec clock o w) = (pre' ++ [record])%list
    /\ exists j r, pre' !! j = Some r /\ ID r = recordID.
Proof.
  intros Ho Hw (j & r & Hj & Hr).
  destruct (update_any clock o recordID w Ho)
    as [-> | (i & rec & rec' & Hfind & Hid & ->)]; [exists pre; eauto|].
  rewrite Hw in *.
  apply list_find_Some in Hfind as (Hi & Hrec & Hfirst).
  assert (Hle : (i <= j)%nat).
  { destruct (decide (i <= j)%nat) as [|Hgt]; [assumption|]. exfalso.
    apply (Hfirst j r); [|lia|exact Hr].
    now apply lookup_app_l_Some. }
  assert (Hlt : (i < length pre)%nat).
  { apply lookup_lt_Some in Hj. lia. }
  exists (<[i := rec']> pre). split; [now rewrite insert_app_l|].
  destruct (decide (i = j)) as [-> | Hne].
  - exists j, rec'. split; [now apply list_lookup_insert_eq|].
    injection Hid as Hid _ _. now rewrite Hid.
  - exists j, r. split; [now rewrite list_lookup_insert_ne|exact Hr].
Qed.

(** X21.  Record ids are made from two clock readings, and
    nothing checks them against the ledger.  When the id of a newly
    recorded candidate is already carried by an older record, every update
    call for that id goes to an older record: after any sequence of such
    calls the new record is still the last one on file, exactly as it was
    written (the record returned, its text fields through
    [encoding/json]). *)
Theorem colliding_id_shadows_new_record rec w record w1 i r0 ops :
  RecordRecommendation clock rec w = (Ok record, w1) ->
  find_record (ID record) (records_of w) = Some (i, r0) ->
  Forall (fun o => target o = Some (ID record)) ops ->
  last (records_of (run clock ops w1)) = Some (json_record record).
Proof.
  intros Hcall Hfind Hops.
  destruct (RecordRecommendation_ok clock _ _ _ _ Hcall) as (Hloads & Hfile & _).
  apply list_find_Some in Hfind as (Hi & Hid & _).
  assert (Hinv : exists pre,
             records_of w1 = (pre ++ [json_record record])%list
             /\ exists j r, pre !! j = Some r /\ ID r = ID record).
  { exists (records_of w). split; [|eauto].
    unfold records_of at 1, entries_of. rewrite Hfile.
    rewrite fixed_snoc by apply entries_of_fixed.
    rewrite json_record_idempotent. apply omap_snoc. }
  clear Hcall Hfile Hi Hid Hloads. revert w1 Hinv.
  induction Hops as [|o ops Ho _ IH]; intros w1 (pre & Hw1 & Hold).
  - cbn. rewrite Hw1. apply last_snoc.
  - cbn [run fold_left]. apply IH.
    exact (shadowed_step o (ID record) pre (json_record record) w1 Ho Hw1 Hold).
Qed.
End LedgerCollisions.

Lemma unreadable_ledger_untouched_witness :
  let w := {| file := FileMalformed; ticks := 0 |} in
  (forall rec, exists e w',
      RecordRecommendation sample_clock rec w = (Err e, w') /\ file w' = file w)
  /\ (forall recordID executed, exists e w',
        UpdateExecution sample_clock recordID executed w = (Err e, w') /\ file w' = file w)
  /\ (forall recordID profit, exists e w',
        UpdateTradeResult sample_clock recordID profit w = (Err e, w') /\ file w' = file w)
  /\ (forall limit, exists e, GetRecommendationHistory limit w = (Err e, w)).
Proof.
  apply (unreadable_ledger_untouched sample_clock {| file := FileMalformed; ticks := 0 |}).
  right. reflexivity.
Defined.

Lemma update_touches_first_match_only_witness :
  let o := OpUpdateExecution first_id true in
  map identity (records_of (exec sample_clock o one_record))
  = map identity (records_of one_record)
  /\ forall j r,
       records_of one_record !! j = Some r ->
       ID r <> first_id
       \/ (exists i r0, (i < j)%nat /\ records_of one_record !! i = Some r0
                        /\ ID r0 = first_id) ->
       records_of (exec sample_clock o one_record) !! j = Some r.
Proof.
  apply (update_touches_first_match_only sample_clock (OpUpdateExecution first_id true)
           first_id one_record).
  reflexivity.
Defined.

Lemma update_of_unknown_id_witness :
  (forall executed,
      UpdateExecution sample_clock "rec_9_9" executed nil_ledger = (Panic, nil_ledger))
  /\ (forall profit,
        UpdateTradeResult sample_clock "rec_9_9" profit one_record
        = (Ok tt, {| file := FileJSON (entries_of one_record);
                     ticks := ticks one_record |})).
Proof.
  split.
  - apply (update_of_unknown_id sample_clock "rec_9_9" nil_ledger); reflexivity.
  - apply (update_of_unknown_id sample_clock "rec_9_9" one_record);
      vm_compute; reflexivity.
Defined.

Lemma RecordRecommendation_rejects_unencodable_witness :
  RecordRecommendation sample_clock nan_candidate one_record
  = (Err ErrMarshal, {| file := file one_record; ticks := ticks one_record + 3 |}).
Proof.
  apply (RecordRecommendation_rejects_unencodable sample_clock nan_candidate one_record).
  - right. eexists. vm_compute. reflexivity.
  - vm_compute. reflexivity.
Defined.

Lemma UpdateTradeResult_rejects_non_finite_witness :
  UpdateTradeResult sample_clock first_id infinity one_record
  = (Err ErrMarshal, {| file := file one_record; ticks := S (ticks one_record) |}).
Proof.
  eapply (UpdateTradeResult_rejects_non_finite sample_clock first_id infinity one_record);
    vm_compute; reflexivity.
Defined.

Lemma record_execute_close_witness :
  exists record w1,
    RecordRecommendation sample_clock low_pop_candidate init = (Ok record, w1)
    /\ (find_record (ID record) (records_of init) = None ->
        records_of (run sample_clock [OpUpdateExecution (ID record) true;
                                      OpUpdateTradeResult (ID record) 10%float] w1)
        = (records_of init
           ++ [{| ID := ID record; Timestamp := Timestamp record;
                  Recommendation := json_trade low_pop_candidate;
                  Executed := true;
                  ExecutionTime := Some (sample_clock (ticks init + 3)%nat);
                  ExitTime := Some (sample_clock (ticks init + 4)%nat);
                  ActualProfit := Some 10%float; Status := "closed" |}])%list).
Proof.
  apply (record_execute_close sample_clock low_pop_candidate 10%float init);
    vm_compute; reflexivity.
Defined.

Lemma unexecute_keeps_executed_status_witness :
  records_of (run sample_clock [OpUpdateExecution first_id true;
                                OpUpdateExecution first_id false] closed_world) !! 0%nat
  = Some {| ID := ID closed_unexecuted; Timestamp := Timestamp closed_unexecuted;
            Recommendation := Recommendation closed_unexecuted;
            Executed := false; ExecutionTime := Some (sample_clock (ticks closed_world));
            ExitTime := ExitTime closed_unexecuted;
            ActualProfit := ActualProfit closed_unexecuted;
            Status := "executed" |}.
Proof.
  apply (unexecute_keeps_executed_status sample_clock first_id closed_world 0
           closed_unexecuted);
    vm_compute; reflexivity.
Defined.

Lemma reachable_records_coherent_witness : Forall coherent (records_of closed_world).
Proof.
  apply (reachable_records_coherent sample_clock closed_world).
  unfold closed_world. apply reach_exec, reach_exec, reach_init.
Defined.

Lemma GetRecommendationHistory_suffix_witness :
  exists history,
    GetRecommendationHistory (-1) closed_world = (Ok history, closed_world)
    /\ history `suffix_of` entries_of closed_world
    /\ len history
       = (if (0 <? -1) && (-1 <? len (entries_of closed_world)) then -1
          else len (entries_of closed_world))%Z.
Proof.
  apply (GetRecommendationHistory_suffix (-1) closed_world).
  right. eexists. vm_compute. reflexivity.
Defined.

Lemma colliding_id_shadows_new_record_witness :
  let call := RecordRecommendation coarse_clock table_candidate one_coarse_record in
  last (records_of (run coarse_clock
                      [OpUpdateExecution "rec_0_0" true; OpUpdateTradeResult "rec_0_0" 25%float]
                      (snd call)))
  = Some (json_record
            {| ID := "rec_0_0"; Timestamp := 0%Z; Recommendation := table_candidate;
               Executed := false; ExecutionTime := None; ExitTime := None;
               ActualProfit := None; Status := "pending" |}).
Proof.
  eapply (colliding_id_shadows_new_record coarse_clock table_candidate one_coarse_record
            _ (snd (RecordRecommendation coarse_clock table_candidate one_coarse_record))
            0 {| ID := "rec_0_0"; Timestamp := 0%Z; Recommendation := low_pop_candidate;
                 Executed := false; ExecutionTime := None; ExitTime := None;
                 ActualProfit := None; Status := "pending" |}).
  - vm_compute. reflexivity.
  - vm_compute. reflexivity.
  - repeat constructor.
Defined.
End LedgerFurther.

(** ** More on the aggregated statistics *)

Section MetricsFurther.
Import Float64 Samples Ledger History Metrics Signs MetricsSpec.
Close Scope Z_scope.
Local Open Scope string_scope.
Local Open Scope float_scope.

Section DrawdownFacts.

Lemma hundred_positive : positive_finite 100.
Proof. exact I. Qed.

Lemma drawdown_step_nonneg st r :
  nonneg (snd st) -> nonneg (snd (drawdown_step st r)).
Proof.
  destruct st as [[cumulative peak] maxDrawdown]. cbn [snd drawdown_step].
  intros Hm.
  destruct (gtb _ maxDrawdown) eqn:Hgt; [|exact Hm].
  unfold gtb in Hgt. exact (above_nonneg _ _ Hm Hgt).
Qed.

Lemma drawdown_fold_nonneg returns : forall st,
  nonneg (snd st) -> nonneg (snd (fold_left drawdown_step returns st)).
Proof.
  induction returns as [|r returns IH]; intros st Hst; [exact Hst|].
  cbn [fold_left]. apply IH. now apply drawdown_step_nonneg.
Qed.

(** X22.  [calculateMaxDrawdown] never returns NaN or a
    number below zero, whatever the profits are (NaN and infinities
    included): the result is [+0], a positive number or [+Inf]. *)
Theorem calculateMaxDrawdown_never_negative returns :
  nonneg (calculateMaxDrawdown returns).
Proof.
  unfold calculateMaxDrawdown.
  destruct (len returns =? 0)%Z; [exact I|].
  pose proof (drawdown_fold_nonneg returns (0, 0, 0) I) as Hfold.
  destruct (fold_left drawdown_step returns (0, 0, 0)) as [[c p] m].
  cbn [snd] in Hfold. apply mul_nonneg_positive; [exact Hfold | exact hundred_positive].
Qed.

Lemma nothing_above_infinity d : gtb d infinity = false.
Proof.
  unfold gtb. rewrite FloatAxioms.ltb_spec. change (Prim2SF infinity) with (S754_infinity false).
  destruct (Prim2SF d) as [[]|[]| |[] m e]; reflexivity.
Qed.

Lemma drawdown_fold_infinity returns : forall c p,
  snd (fold_left drawdown_step returns (c, p, infinity)) = infinity.
Proof.
  induction returns as [|r returns IH]; intros c p; [reflexivity|].
  cbn [fold_left drawdown_step]. rewrite nothing_above_infinity. apply IH.
Qed.

Lemma first_loss_step r :
  (r <? 0) = true -> snd (drawdown_step (0, 0, 0) r) = infinity /\
                     snd (fst (drawdown_step (0, 0, 0) r)) = 0.
Proof.
  intros Hr. cbn [drawdown_step snd fst].
  assert (Hsum : Prim2SF (0 + r) = Prim2SF r /\ (Prim2SF r = S754_infinity true
                  \/ exists m e, Prim2SF r = S754_finite true m e)).
  { rewrite add_spec. rewrite FloatAxioms.ltb_spec in Hr.
    change (Prim2SF 0) with (S754_zero false) in *.
    destruct (Prim2SF r) as [[]|[]| |[] m e]; cbn in Hr; try discriminate;
      (split; [reflexivity|]); eauto. }
  destruct Hsum as [Hsum Hneg]. apply Prim2SF_inj in Hsum. rewrite Hsum.
  rewrite (negative_not_positive r Hr).
  assert (Hd : (0 - r) / 0 = infinity).
  { apply Prim2SF_inj. rewrite div_spec, sub_spec.
    change (Prim2SF 0) with (S754_zero false).
    destruct Hneg as [-> | (m & e & ->)]; reflexivity. }
  rewrite Hd. split; reflexivity.
Qed.

(** X23.  When the first realized profit (the first record
    marked executed that carries a profit) is below zero, the running peak
    is still zero at that point, the drawdown is a division by zero, and
    [GetMetrics] reports a [MaxDrawdown] of [+Inf], whatever follows. *)
Theorem loss_first_infinite_drawdown records r rest :
  realized_profits records = r :: rest ->
  (r <? 0) = true ->
  Ledger.MaxDrawdown (GetMetrics records) = infinity.
Proof.
  intros Hrealized Hr.
  destruct (count_record_fold records tally_zero) as (_ & _ & _ & _ & Hreturns).
  cbn [tally_zero t_returns app] in Hreturns.
  unfold GetMetrics. cbn [Ledger.MaxDrawdown]. rewrite Hreturns, Hrealized.
  unfold calculateMaxDrawdown.
  replace (len (r :: rest) =? 0)%Z with false
    by (symmetry; apply Z.eqb_neq; unfold len; cbn [length]; lia).
  cbn [fold_left].
  destruct (first_loss_step r Hr) as [Hmax Hpeak].
  destruct (drawdown_step (0, 0, 0) r) as [[c p] m]. cbn [snd fst] in Hmax, Hpeak.
  subst m. pose proof (drawdown_fold_infinity rest c p) as Hfold.
  destruct (fold_left drawdown_step rest (c, p, infinity)) as [[c' p'] m'].
  cbn [snd] in Hfold. subst m'. reflexivity.
Qed.
End DrawdownFacts.

Lemma loss_first_infinite_drawdown_witness :
  Ledger.MaxDrawdown (GetMetrics loss_and_win) = infinity.
Proof.
  apply (loss_first_infinite_drawdown loss_and_win (-5) [10]); reflexivity.
Defined.

Section CounterFacts.

Lemma win_not_loss rec : is_win rec && is_loss rec = false.
Proof.
  unfold is_win, is_loss. destruct (ActualProfit rec) as [profit|]; [|reflexivity].
  destruct (profit <? 0) eqn:Hlt; [|apply andb_false_r].
  now rewrite (negative_not_positive profit Hlt).
Qed.

Lemma count_where_nonneg p records : (0 <= count_where p records)%Z.
Proof. unfold count_where, len. lia. Qed.

Lemma count_where_le_len p records : (count_where p records <= len records)%Z.
Proof.
  induction records as [|rec records IH]; [reflexivity|].
  rewrite count_where_cons. unfold len in *. cbn [length]. destruct (p rec); lia.
Qed.

Lemma wins_and_losses_le_executed records :
  (count_where (fun rec => Executed rec && is_win rec) records
   + count_where (fun rec => Executed rec && is_loss rec) records
   <= count_where Executed records)%Z.
Proof.
  induction records as [|rec records IH]; [reflexivity|].
  rewrite !count_where_cons. pose proof (win_not_loss rec) as Hwl.
  destruct (Executed rec), (is_win rec), (is_loss rec); cbn [andb] in *;
    try discriminate; lia.
Qed.

(** X24.  For every list of records, the counters of
    [GetMetrics] are ordered: winning and losing trades are not negative,
    and [WinningTrades + LosingTrades <= ExecutedTrades <=
    TotalRecommendations]; a trade is never counted both as a win and as a
    loss. *)
Theorem metrics_counters_ordered records :
  let m := GetMetrics records in
  (0 <= WinningTrades m)%Z /\ (0 <= LosingTrades m)%Z
  /\ (WinningTrades m + LosingTrades m <= ExecutedTrades m)%Z
  /\ (ExecutedTrades m <= TotalRecommendations m)%Z.
Proof.
  cbv zeta.
  destruct (count_record_fold records tally_zero) as (He & Hw & Hl & _).
  cbn [tally_zero t_ExecutedTrades t_WinningTrades t_LosingTrades Z.add] in *.
  unfold GetMetrics.
  cbn [WinningTrades LosingTrades ExecutedTrades TotalRecommendations].
  rewrite He, Hw, Hl.
  split; [apply count_where_nonneg|]. split; [apply count_where_nonneg|].
  split; [apply wins_and_losses_le_executed | apply count_where_le_len].
Qed.

Lemma count_record_filter records : forall t,
  fold_left count_record (List.filter Executed records) t
  = fold_left count_record records t.
Proof.
  induction records as [|rec records IH]; intros t; [reflexivity|].
  cbn [List.filter fold_left].
  destruct (Executed rec) eqn:He; cbn [fold_left]; rewrite IH; [reflexivity|].
  replace (count_record t rec) with t by (unfold count_record; now rewrite He).
  reflexivity.
Qed.

Lemma strategy_wins_filter strategy records : forall acc,
  fold_left (strategy_wins strategy) (List.filter Executed records) acc
  = fold_left (strategy_wins strategy) records acc.
Proof.
  induction records as [|rec records IH]; intros acc; [reflexivity|].
  cbn [List.filter fold_left].
  destruct (Executed rec) eqn:He; cbn [fold_left]; rewrite IH; [reflexivity|].
  f_equal. unfold strategy_wins. destruct acc as [wins total].
  rewrite He, andb_false_r. now destruct (ActualProfit rec).
Qed.

(** X25.  The records that are not marked executed
    leave no trace in the metrics but in [TotalRecommendations]: every other
    figure of [GetMetrics], the Sharpe ratio, the drawdown and the
    per-strategy entries included, is the same on the records marked
    executed alone. *)
Theorem metrics_ignore_unexecuted records :
  figures (GetMetrics (List.filter Executed records)) = figures (GetMetrics records).
Proof.
  unfold figures, GetMetrics.
  cbn [ExecutedTrades WinningTrades LosingTrades WinRate AverageReturn TotalReturn
       SharpeRatio Ledger.MaxDrawdown ByStrategy].
  rewrite count_record_filter.
  f_equal.
  apply map_eq. intros strategy. rewrite !map_lookup_imap.
  destruct (t_ByStrategy (fold_left count_record records tally_zero) !! strategy)
    as [sm|]; [|reflexivity].
  cbn. f_equal. unfold finish_strategy. now rewrite strategy_wins_filter.
Qed.
End CounterFacts.

Section StrategyFacts.

(** An entry after [Count++] and [TotalReturn += profit] for each profit. *)
Lemma track_strategy_lookup strategy profit by_strategy s :
  track_strategy strategy profit by_strategy !! s
  = if String.eqb strategy s
    then let sm := default StrategyMetrics.zero (by_strategy !! s) in
         Some {| StrategyMetrics.Count := (StrategyMetrics.Count sm + 1)%Z;
                 StrategyMetrics.WinRate := StrategyMetrics.WinRate sm;
                 StrategyMetrics.AvgReturn := StrategyMetrics.AvgReturn sm;
                 StrategyMetrics.TotalReturn := StrategyMetrics.TotalReturn sm + profit |}
    else by_strategy !! s.
Proof.
  unfold track_strategy.
  destruct (String.eqb_spec strategy s) as [-> | Hne].
  - rewrite lookup_alter_eq.
    destruct (by_strategy !! s) as [sm|] eqn:Hs.
    + rewrite Hs. reflexivity.
    + rewrite lookup_insert_eq. reflexivity.
  - rewrite lookup_alter_ne by exact Hne.
    destruct (by_strategy !! strategy); [reflexivity|].
    now rewrite lookup_insert_ne.
Qed.

Lemma strategy_realized_cons s rec records :
  strategy_realized s (rec :: records)
  = if String.eqb (Strategy (Recommendation rec)) s && Executed rec && has_profit rec
    then rec :: strategy_realized s records
    else strategy_realized s records.
Proof. reflexivity. Qed.

Lemma count_record_strategy t rec s :
  t_ByStrategy (count_record t rec) !! s
  = if String.eqb (Strategy (Recommendation rec)) s && Executed rec && has_profit rec
    then match ActualProfit rec with
         | Some profit =>
             track_strategy (Strategy (Recommendation rec)) profit (t_ByStrategy t) !! s
         | None => None
         end
    else t_ByStrategy t !! s.
Proof.
  unfold count_record, has_profit.
  destruct (Executed rec); [|now rewrite andb_false_r].
  destruct (ActualProfit rec) as [profit|]; [|now rewrite !andb_false_r].
  cbn [t_ByStrategy]. rewrite andb_true_r, andb_true_r.
  rewrite track_strategy_lookup.
  now destruct (String.eqb (Strategy (Recommendation rec)) s).
Qed.

Lemma by_strategy_fold s records : forall t,
  t_ByStrategy (fold_left count_record records t) !! s
  = match strategy_realized s records with
    | [] => t_ByStrategy t !! s
    | rs =>
        let sm := default StrategyMetrics.zero (t_ByStrategy t !! s) in
        Some {| StrategyMetrics.Count := (StrategyMetrics.Count sm + len rs)%Z;
                StrategyMetrics.WinRate := StrategyMetrics.WinRate sm;
                StrategyMetrics.AvgReturn := StrategyMetrics.AvgReturn sm;
                StrategyMetrics.TotalReturn :=
                  fold_left add (omap ActualProfit rs) (StrategyMetrics.TotalReturn sm) |}
    end.
Proof.
  induction records as [|rec records IH]; intros t; [reflexivity|].
  cbn [fold_left]. rewrite IH, strategy_realized_cons, count_record_strategy.
  destruct (String.eqb (Strategy (Recommendation rec)) s && Executed rec && has_profit rec)
    eqn:Hq; [|reflexivity].
  apply andb_true_iff in Hq as [Hq Hp]. apply andb_true_iff in Hq as [Hs _].
  unfold has_profit in Hp.
  destruct (ActualProfit rec) as [profit|] eqn:Hprofit; [|discriminate].
  rewrite track_strategy_lookup, Hs. cbv zeta.
  cbn [omap list_omap]. rewrite Hprofit. cbn [fold_left default].
  destruct (strategy_realized s records) as [|r rs];
    unfold default; cbn [from_option id StrategyMetrics.Count StrategyMetrics.WinRate
      StrategyMetrics.AvgReturn StrategyMetrics.TotalReturn].
  - reflexivity.
  - do 2 f_equal. unfold len. cbn [length]. lia.
Qed.

Lemma strategy_wins_fold s records : forall wins total,
  fold_left (strategy_wins s) records (wins, total)
  = ((wins + count_where is_win (strategy_realized s records))%Z,
     (total + len (strategy_realized s records))%Z).
Proof.
  induction records as [|rec records IH]; intros wins total.
  - unfold count_where, len. cbn. f_equal; lia.
  - cbn [fold_left]. rewrite strategy_realized_cons.
    unfold strategy_wins at 2, has_profit.
    destruct (ActualProfit rec) as [profit|] eqn:Hprofit.
    + rewrite andb_true_r.
      destruct (String.eqb (Strategy (Recommendation rec)) s && Executed rec).
      * rewrite IH, count_where_cons. unfold is_win at 2. rewrite Hprofit.
        unfold len. cbn [length]. destruct (gtb profit 0); f_equal; lia.
      * apply IH.
    + rewrite andb_false_r. apply IH.
Qed.

(** X26.  The per-strategy breakdown of [GetMetrics] has an
    entry exactly for the strategies with a record marked executed that
    carries a profit; over those records of the strategy, [Count] is their
    number, [TotalReturn] the sum of their profits in record order,
    [AvgReturn] that sum over their number and [WinRate] the percentage of
    those with a profit above zero. *)
Theorem by_strategy_entries records strategy :
  ByStrategy (GetMetrics records) !! strategy = strategy_entry strategy records.
Proof.
  unfold GetMetrics. cbn [ByStrategy]. rewrite map_lookup_imap, by_strategy_fold.
  unfold strategy_entry.
  pose proof (strategy_wins_fold strategy records 0 0) as Hwins.
  destruct (strategy_realized strategy records) as [|r rs] eqn:Hrs; [reflexivity|].
  cbn [tally_zero t_ByStrategy]. rewrite lookup_empty. cbv zeta.
  cbn [default StrategyMetrics.zero StrategyMetrics.Count StrategyMetrics.WinRate
       StrategyMetrics.AvgReturn StrategyMetrics.TotalReturn Z.add].
  cbn [option_bind mbind]. unfold finish_strategy.
  cbn [StrategyMetrics.Count StrategyMetrics.WinRate StrategyMetrics.AvgReturn
       StrategyMetrics.TotalReturn].
  assert (Hpos : (0 <? len (r :: rs))%Z = true)
    by (apply Z.ltb_lt; unfold len; cbn [length]; lia).
  rewrite !Z.add_0_l in *. rewrite Hpos, Hwins, Hpos. reflexivity.
Qed.
End StrategyFacts.
End MetricsFurther.

(** ** More on the normalizer *)

Section NormalizerFurther.
Import Float64 Risk Samples Normalizer NormalizerSpec.
Close Scope float_scope.
Close Scope Z_scope.
Local Open Scope string_scope.

Section TableParser.
Variable json_Unmarshal : string -> option (list TradeRecommendation).
Variable Sscanf_f : string -> option float.

Lemma parse_line_without_amounts st line :
  Forall without_amounts (snd st) ->
  Forall without_amounts (snd (parse_line Sscanf_f st line)).
Proof.
  destruct st as [inTable recommendations]. cbn [snd]. intros Hall.
  unfold parse_line.
  destruct (String.eqb _ "" || _ || _); [now destruct (strings_Contains _ "Ticker")|].
  destruct (negb inTable); [exact Hall|].
  destruct (5 <=? _)%nat; [|exact Hall].
  cbn [snd]. apply Forall_app. split; [exact Hall|].
  constructor; [|constructor]. repeat split.
Qed.

Lemma parse_lines_without_amounts lines : forall st,
  Forall without_amounts (snd st) ->
  Forall without_amounts (snd (fold_left (parse_line Sscanf_f) lines st)).
Proof.
  induction lines as [|line lines IH]; intros st Hst; [exact Hst|].
  cbn [fold_left]. apply IH. now apply parse_line_without_amounts.
Qed.

Lemma parseTableFormat_inl response recommendations :
  parseTableFormat Sscanf_f response = inl recommendations ->
  recommendations <> [] /\ Forall without_amounts recommendations.
Proof.
  unfold parseTableFormat.
  pose proof (parse_lines_without_amounts (strings_Split response "010"%char)
                (false, []) (List.Forall_nil _)) as Hall.
  destruct (fold_left _ _ _) as [inTable recs]. cbn [snd] in Hall.
  destruct recs as [|rec recs]; cbn [length Nat.eqb]; [discriminate|].
  intros [= <-]. split; [discriminate | exact Hall].
Qed.

(** X27.  Whatever the text and whatever [Sscanf] reads, a
    successful [parseTableFormat] returns at least one candidate, and every
    candidate it returns has [MaxLoss], [MaxProfit] and [Score] zero; the
    risk score that [ValidateTrade] gives such a candidate is NaN under
    every risk manager and every portfolio snapshot. *)
Theorem table_candidates_have_no_amounts response recommendations :
  parseTableFormat Sscanf_f response = inl recommendations ->
  recommendations <> []
  /\ Forall (fun trade =>
               without_amounts trade
               /\ forall sprintf_f2 rm portfolio,
                    RiskScore (ValidateTrade sprintf_f2 rm trade portfolio) = nan)
            recommendations.
Proof.
  intros Hparse. destruct (parseTableFormat_inl _ _ Hparse) as [Hne Hall].
  split; [exact Hne|].
  eapply Forall_impl; [exact Hall|].
  intros trade Htrade. split; [exact Htrade|].
  destruct Htrade as (Hloss & Hprofit & _). intros sprintf_f2 rm portfolio.
  unfold ValidateTrade, set_RiskScore. cbn [RiskScore].
  now apply calculateRiskScore_nan.
Qed.

Lemma parse_line_no_header line recommendations :
  strings_Contains (strings_TrimSpace line) "Ticker" = false ->
  parse_line Sscanf_f (false, recommendations) line = (false, recommendations).
Proof.
  intros Hline. unfold parse_line. rewrite Hline.
  destruct (String.eqb _ "" || false || _); reflexivity.
Qed.

(** X28.  Table rows count only after a line that contains
    "Ticker": on a text none of whose lines does, [parseTableFormat] finds
    no candidate and returns the error, and so does [parseRecommendations]
    when the text has no "[" before a "]" or when the JSON decoder rejects
    the text between the first "[" and the last "]". *)
Theorem rows_without_header_are_dropped response :
  Forall (fun line => strings_Contains (strings_TrimSpace line) "Ticker" = false)
         (strings_Split response "010"%char) ->
  parseTableFormat Sscanf_f response = inr NoRecommendationsFound
  /\ (let startIdx := strings_Index response "[" in
      let endIdx := strings_LastIndex response "]" in
      (startIdx = -1 \/ endIdx = -1 \/ endIdx <= startIdx
       \/ json_Unmarshal (slice response startIdx (endIdx + 1)) = None)%Z ->
      parseRecommendations json_Unmarshal Sscanf_f response = inr NoRecommendationsFound).
Proof.
  intros Hlines.
  assert (Htable : parseTableFormat Sscanf_f response = inr NoRecommendationsFound).
  { unfold parseTableFormat.
    assert (Hfold : fold_left (parse_line Sscanf_f) (strings_Split response "010"%char)
                      (false, []) = (false, [])).
    { induction Hlines as [|line lines Hline _ IH]; [reflexivity|].
      cbn [fold_left]. now rewrite parse_line_no_header. }
    now rewrite Hfold. }
  split; [exact Htable|].
  cbv zeta. intros Hjson. unfold parseRecommendations.
  destruct (negb (strings_Index response "[" =? -1)%Z
            && negb (strings_LastIndex response "]" =? -1)%Z
            && (strings_Index response "[" <? strings_LastIndex response "]")%Z)
    eqn:Hbrackets; [|exact Htable].
  apply andb_true_iff in Hbrackets as [Hb Hlt]. apply andb_true_iff in Hb as [Hs He].
  apply negb_true_iff, Z.eqb_neq in Hs, He. apply Z.ltb_lt in Hlt.
  destruct Hjson as [H | [H | [H | H]]]; try contradiction; [lia|].
  now rewrite H.
Qed.

(** X29.  An empty list of candidates can only come from the
    JSON decoder: when [parseRecommendations] succeeds with no candidate,
    the decoder returned the empty list on the text between the first "["
    and the last "]", and the table parser was not consulted. *)
Theorem empty_result_only_from_json response :
  parseRecommendations json_Unmarshal Sscanf_f response = inl [] ->
  json_Unmarshal (slice response (strings_Index response "[")
                        (strings_LastIndex response "]" + 1))
  = Some [].
Proof.
  unfold parseRecommendations.
  destruct (_ && _ && _).
  - destruct (json_Unmarshal _) as [recommendations|].
    + now intros [= ->].
    + intros Htable. now destruct (parseTableFormat_inl _ _ Htable).
  - intros Htable. now destruct (parseTableFormat_inl _ _ Htable).
Qed.
End TableParser.

Lemma table_candidates_have_no_amounts_witness :
  [table_candidate] <> []
  /\ Forall (fun trade =>
               without_amounts trade
               /\ forall sprintf_f2 rm portfolio,
                    RiskScore (ValidateTrade sprintf_f2 rm trade portfolio) = nan)
            [table_candidate].
Proof.
  apply (table_candidates_have_no_amounts scan_decimal scenario_text [table_candidate]).
  vm_compute. reflexivity.
Defined.

Lemma rows_without_header_are_dropped_witness :
  parseTableFormat scan_decimal headerless_row = inr NoRecommendationsFound
  /\ parseRecommendations (fun _ => Some []) scan_decimal headerless_row
     = inr NoRecommendationsFound.
Proof.
  destruct (rows_without_header_are_dropped (fun _ => Some []) scan_decimal headerless_row)
    as [Htable Hjson].
  - vm_compute. repeat constructor.
  - split; [exact Htable|]. apply Hjson. left. vm_compute. reflexivity.
Defined.

Lemma empty_result_only_from_json_witness :
  (fun _ : string => Some (@nil TradeRecommendation))
    (slice "[]" (strings_Index "[]" "[") (strings_LastIndex "[]" "]" + 1))
  = Some [].
Proof.
  apply (empty_result_only_from_json (fun _ => Some []) scan_decimal "[]").
  vm_compute. reflexivity.
Defined.
End NormalizerFurther.

(** ** Bearer authentication *)

Section AuthFurther.
Import Auth.
Close Scope float_scope.
Close Scope Z_scope.
Local Open Scope string_scope.

Lemma substring_all s : String.substring 0 (String.length s) s = s.
Proof. induction s as [|c s IH]; [reflexivity|]. cbn. now rewrite IH. Qed.

Lemma prefix_split p : forall s,
  String.prefix p s = true ->
  s = p ++ String.substring (String.length p) (String.length s - String.length p) s.
Proof.
  induction p as [|c p IH]; intros s Hs.
  - cbn. now rewrite Nat.sub_0_r, substring_all.
  - destruct s as [|d s]; cbn in Hs; [discriminate|].
    destruct (Ascii.ascii_dec c d) as [<- | Hne]; [|discriminate].
    change (String c s
            = String c (p ++ String.substring (String.length p)
                               (String.length s - String.length p) s)).
    f_equal. now apply IH.
Qed.

Lemma prefix_app p s : String.prefix p (p ++ s) = true.
Proof.
  induction p as [|c p IH]; [now destruct s|].
  change (String c p ++ s) with (String c (p ++ s)). cbn [String.prefix].
  destruct (Ascii.ascii_dec c c); [exact IH | contradiction].
Qed.

(** X30.  [authenticateMiddleware] lets a request
    through exactly when its Authorization header is "Bearer " followed by
    at least one byte, whatever that token is, and the user id it puts in
    the context is then always "anonymous-user-123"; every other request is
    answered 401. *)
Theorem any_bearer_token_is_accepted authHeader :
  (forall userID,
      authenticateMiddleware authHeader = Next userID ->
      userID = "anonymous-user-123")
  /\ ((exists userID, authenticateMiddleware authHeader = Next userID)
      <-> exists token, token <> "" /\ authHeader = "Bearer " ++ token).
Proof.
  unfold authenticateMiddleware, validateToken.
  destruct (String.eqb_spec authHeader "") as [-> | Hne].
  { split; [discriminate|]. split; [intros [? [=]]|].
    intros (token & _ & Htoken). discriminate. }
  destruct (String.prefix bearerPrefix authHeader) eqn:Hprefix; cbn [negb].
  - apply prefix_split in Hprefix.
    set (token := String.substring _ _ authHeader) in *.
    destruct (String.eqb_spec token "") as [Hempty | Htoken].
    + split; [discriminate|]. split; [intros [? [=]]|].
      intros (token' & Hne' & Hheader). rewrite Hempty, Hheader in Hprefix.
      exfalso. apply Hne'. unfold bearerPrefix in Hprefix. cbn in Hprefix.
      now injection Hprefix.
    + split; [now intros ? [= <-]|]. split; [|eauto].
      intros _. exists token. split; [exact Htoken | exact Hprefix].
  - split; [discriminate|]. split; [intros [? [=]]|].
    intros (token & _ & Hheader). rewrite Hheader in Hprefix.
    change ("Bearer " ++ token) with (bearerPrefix ++ token) in Hprefix.
    now rewrite prefix_app in Hprefix.
Qed.
End AuthFurther.
